(** * Sports signals system: ingestion consistency and scheduling engine

    A shallow embedding of
      - [shared/core/anti_block.py]      (token-bucket admission controller),
      - [shared/database/models.py] and
        [shared/database/data_access.py] (canonical store and its merge policy),
      - [live-monitor/main.py]           (adaptive polling scheduler),
    followed by the properties the specification states about them.

    Conventions of the embedding.
      - Python [float] quantities of the limiter are exact rationals
        ([Q]); rounding is not modelled, so a statement about the limiter
        holds of the code up to rounding.
      - The wall clock is explicit: [time.time()] reads it, [time.sleep d]
        advances it by [d] plus an overshoot taken from the environment.
      - A [datetime] is the integer number of microseconds since the epoch;
        a character of a string stands for one code point.
      - A database session is explicit state passing over the two tables
        and their sequences; exceptions are values of an error type.  The
        constraints of the tables are those of [models.py] as PostgreSQL
        enforces them: the types of the columns ([Integer], [BigInteger],
        [String(n)], [JSONB]), NOT NULL, the three unique constraints (a
        NULL never conflicts) and the foreign key.  The driver is psycopg2,
        as [db_config.py] selects it.
      - [normalized_event_data] is a [dict] over the fourteen keys the
        normalizers emit; each key may be missing, bound to [None] or bound
        to a value. *)

From Stdlib Require Import ZArith QArith Qminmax Lqa Lia.
From Stdlib Require Import List String Ascii Bool Sorted.
Import ListNotations.

Open Scope Z_scope.

(* ===================================================================== *)
(** * shared/core/anti_block.py                                            *)
(* ===================================================================== *)

Module AntiBlock.

Open Scope Q_scope.

(** The process environment seen by the limiter: the wall clock and the
    amounts by which the successive [time.sleep] calls oversleep. *)
Record World : Type := mkWorld {
  clock : Q;
  overshoot : list Q
}.

Definition time_time (w : World) : Q := clock w.

Definition time_sleep (d : Q) (w : World) : World :=
  {| clock := clock w + (d + hd 0 (overshoot w));
     overshoot := tl (overshoot w) |}.

(** Time going by between two calls of the caller. *)
Definition elapse (d : Q) (w : World) : World :=
  {| clock := clock w + d; overshoot := overshoot w |}.

Inductive ValueError : Type := ValueError_msg (msg : string).

(** Attributes of [TokenBucketAntiBlockStrategy] ([lock] guards them and
    has no content of its own). *)
Record TokenBucketAntiBlockStrategy : Type := mkBucket {
  capacity : Z;
  fill_rate : Q;
  tokens : Q;
  last_refill_time : Q
}.

(** [TokenBucketAntiBlockStrategy.__init__] *)
Definition __init__ (w : World) (capacity : Z) (fill_rate : Q)
    (initial_tokens : option Z)
  : ValueError + TokenBucketAntiBlockStrategy :=
  if (capacity <=? 0)%Z || Qle_bool fill_rate 0 then
    inl (ValueError_msg
           "Capacidade e taxa de preenchimento devem ser maiores que zero.")
  else
    inr {| capacity := capacity;
           fill_rate := fill_rate;
           tokens := match initial_tokens with
                     | Some t => inject_Z t
                     | None => inject_Z capacity
                     end;
           last_refill_time := time_time w |}.

(** [TokenBucketAntiBlockStrategy._refill_tokens] *)
Definition _refill_tokens (w : World) (self : TokenBucketAntiBlockStrategy)
  : TokenBucketAntiBlockStrategy :=
  let now := time_time w in
  let time_passed := now - last_refill_time self in
  let new_tokens := time_passed * fill_rate self in
  {| capacity := capacity self;
     fill_rate := fill_rate self;
     tokens := Qmin (inject_Z (capacity self)) (tokens self + new_tokens);
     last_refill_time := now |}.

Definition consume (self : TokenBucketAntiBlockStrategy)
  : TokenBucketAntiBlockStrategy :=
  {| capacity := capacity self;
     fill_rate := fill_rate self;
     tokens := tokens self - 1;
     last_refill_time := last_refill_time self |}.

(** What one call of [wait_before_request] leaves behind: the bucket, the
    world, and the durations passed to [time.sleep], oldest first. *)
Record Acquired : Type := mkAcquired {
  bucket : TokenBucketAntiBlockStrategy;
  world : World;
  sleeps : list Q
}.

(** The [while True] loop of [wait_before_request]; [fuel] bounds the
    number of iterations and [None] means the bound was reached. *)
Fixpoint wait_loop (fuel : nat) (w : World)
    (self : TokenBucketAntiBlockStrategy) (slept : list Q)
  : option Acquired :=
  match fuel with
  | O => None
  | S fuel' =>
      let self1 := _refill_tokens w self in
      if Qle_bool 1 (tokens self1) then
        Some {| bucket := consume self1; world := w; sleeps := slept |}
      else
        let tokens_needed := 1 - tokens self1 in
        let time_to_wait := tokens_needed / fill_rate self1 in
        let d := time_to_wait + (1 # 100) in
        wait_loop fuel' (time_sleep d w) self1 (slept ++ [d])
  end.

(** [TokenBucketAntiBlockStrategy.wait_before_request] *)
Definition wait_before_request (fuel : nat) (w : World)
    (self : TokenBucketAntiBlockStrategy) : option Acquired :=
  wait_loop fuel w self [].

(** [TokenBucketAntiBlockStrategy.record_request] *)
Definition record_request (self : TokenBucketAntiBlockStrategy)
  : TokenBucketAntiBlockStrategy := self.

(** [n] calls of [wait_before_request] with no time going by in between;
    the sleeps of each call are reported separately. *)
Fixpoint acquire_many (fuel n : nat) (w : World)
    (self : TokenBucketAntiBlockStrategy) : option (list (list Q)) :=
  match n with
  | O => Some []
  | S n' =>
      match wait_before_request fuel w self with
      | None => None
      | Some a =>
          match acquire_many fuel n' (world a) (bucket a) with
          | None => None
          | Some r => Some (sleeps a :: r)
          end
      end
  end.

(** A bucket as the constructor accepts it. *)
Definition well_formed (self : TokenBucketAntiBlockStrategy) : Prop :=
  (0 < capacity self)%Z /\ 0 < fill_rate self.

(** Calls of [wait_before_request] spaced by the given gaps: before each
    call the time [g] goes by.  The result is the sleeps of each call and
    what the last call leaves behind. *)
Fixpoint acquire_spaced (fuel : nat) (gaps : list Q) (w : World)
    (self : TokenBucketAntiBlockStrategy)
  : option (list (list Q) * (TokenBucketAntiBlockStrategy * World)) :=
  match gaps with
  | [] => Some ([], (self, w))
  | g :: gaps' =>
      match wait_before_request fuel (elapse g w) self with
      | None => None
      | Some a =>
          match acquire_spaced fuel gaps' (world a) (bucket a) with
          | None => None
          | Some (r, final) => Some (sleeps a :: r, final)
          end
      end
  end.

(** The sum of a list of durations. *)
Definition total (l : list Q) : Q := fold_right Qplus 0 l.

End AntiBlock.

(* ===================================================================== *)
(** * shared/database/models.py                                            *)
(* ===================================================================== *)

(** Python's [None] is [None]; truth value testing follows the language:
    an empty string and the integer zero are false, a [datetime] is always
    true. *)
Definition truthy_str (v : option string) : bool :=
  match v with
  | Some s => negb (String.eqb s EmptyString)
  | None => false
  end.

Definition truthy_int (v : option Z) : bool :=
  match v with
  | Some z => negb (z =? 0)
  | None => false
  end.

Definition truthy_obj {A : Type} (v : option A) : bool :=
  match v with
  | Some _ => true
  | None => false
  end.

(** Equality of two nullable values as Python's [==] on them. *)
Definition option_eqb {A : Type} (eqb : A -> A -> bool) (x y : option A)
  : bool :=
  match x, y with
  | Some a, Some b => eqb a b
  | None, None => true
  | _, _ => false
  end.

(** Microseconds since the epoch. *)
Definition datetime : Type := Z.

(** The JSONB statistics document: groups of key/value pairs. *)
Definition Statistics : Type := list (string * list (string * string)).

(** Rows of table [events].  An attribute holds [None] for SQL NULL.  The
    record-management columns [created_at] and [updated_at] are written by
    the ORM alone and are left out. *)
Module Event.
Record t : Type := mk {
  id : nat;
  event_name : option string;
  sport_name : option string;
  event_status : option string;
  current_game_time : option Z;
  home_team_name : option string;
  away_team_name : option string;
  home_score : option Z;
  away_score : option Z;
  league_name : option string;
  league_id : option string;
  event_timestamp : option datetime;
  last_data_source : option string;
  last_updated_timestamp : option Z;
  statistics : option Statistics
}.
End Event.

(** Rows of table [event_source_mappings]. *)
Module EventSourceMapping.
Record t : Type := mk {
  id : nat;
  event_id : nat;
  source_name : string;
  source_event_id : string
}.
End EventSourceMapping.

(** The two tables and their primary-key sequences. *)
Record Database : Type := mkDatabase {
  events : list Event.t;
  event_source_mappings : list EventSourceMapping.t;
  events_id_seq : nat;
  event_source_mappings_id_seq : nat
}.

Definition empty_database : Database :=
  {| events := []; event_source_mappings := [];
     events_id_seq := 1; event_source_mappings_id_seq := 1 |}.

(** ** Constraints of [Event.__table_args__] and of the columns *)

(** [nullable=False] columns of [events]. *)
Definition event_not_null (e : Event.t) : bool :=
  truthy_obj (Event.event_name e) && truthy_obj (Event.sport_name e)
  && truthy_obj (Event.event_status e)
  && truthy_obj (Event.home_team_name e)
  && truthy_obj (Event.away_team_name e)
  && truthy_obj (Event.event_timestamp e).

(** Two values of a column of a unique constraint collide when both are
    non-NULL and equal: in PostgreSQL a NULL never conflicts. *)
Definition unique_col_eqb {A : Type} (eqb : A -> A -> bool) (x y : option A)
  : bool :=
  match x, y with
  | Some a, Some b => eqb a b
  | _, _ => false
  end.

(** [uq_event_canonical]: two rows in conflict. *)
Definition uq_event_canonical_conflict (e1 e2 : Event.t) : bool :=
  unique_col_eqb Z.eqb (Event.event_timestamp e1) (Event.event_timestamp e2)
  && unique_col_eqb String.eqb (Event.home_team_name e1)
       (Event.home_team_name e2)
  && unique_col_eqb String.eqb (Event.away_team_name e1)
       (Event.away_team_name e2)
  && unique_col_eqb String.eqb (Event.league_id e1) (Event.league_id e2).

(** [uq_source_event] and [uq_event_id_source]: two rows in conflict. *)
Definition uq_source_event_conflict (m1 m2 : EventSourceMapping.t) : bool :=
  String.eqb (EventSourceMapping.source_name m1)
    (EventSourceMapping.source_name m2)
  && String.eqb (EventSourceMapping.source_event_id m1)
       (EventSourceMapping.source_event_id m2).

Definition uq_event_id_source_conflict (m1 m2 : EventSourceMapping.t)
  : bool :=
  Nat.eqb (EventSourceMapping.event_id m1) (EventSourceMapping.event_id m2)
  && String.eqb (EventSourceMapping.source_name m1)
       (EventSourceMapping.source_name m2).

(** ** Exceptions *)

(** The exceptions of the database layer ([IntegrityError] and [DataError]
    of [sqlalchemy.exc], the [ValueError] of the driver) and those of the
    language. *)
Inductive Exception : Type :=
| IntegrityError (constraint : string)
| DataError
| ValueError
| TypeError
| AttributeError
| NameError (name : string).

Definition is_IntegrityError (x : Exception) : bool :=
  match x with
  | IntegrityError _ => true
  | _ => false
  end.

(** ** Values and the types of the columns *)

(** The driver refuses to bind a string that holds a NUL character: the
    statement is not sent and [ValueError] is raised. *)
Fixpoint has_nul (s : string) : bool :=
  match s with
  | EmptyString => false
  | String c rest => Ascii.eqb c Ascii.zero || has_nul rest
  end.

Definition binds (v : option string) : bool :=
  match v with
  | Some s => negb (has_nul s)
  | None => true
  end.

(** Assignment to a [String(n)] column, [character varying(n)]: a longer
    string is refused with [DataError] unless the characters in excess
    are all spaces, in which case the column keeps the first [n]
    characters. *)
Fixpoint clip (n : nat) (s : string) : string :=
  match n, s with
  | S n', String c rest => String c (clip n' rest)
  | _, _ => EmptyString
  end.

Fixpoint excess (n : nat) (s : string) : string :=
  match n, s with
  | S n', String _ rest => excess n' rest
  | _, _ => s
  end.

Fixpoint all_spaces (s : string) : bool :=
  match s with
  | EmptyString => true
  | String c rest => Ascii.eqb c " "%char && all_spaces rest
  end.

Definition String_fits (n : nat) (v : option string) : bool :=
  match v with
  | Some s => all_spaces (excess n s)
  | None => true
  end.

Definition String_kept (n : nat) (v : option string) : option string :=
  match v with
  | Some s => Some (clip n s)
  | None => None
  end.

(** Assignment to an [Integer] and to a [BigInteger] column: a value out
    of the range of the type is refused with [DataError]. *)
Definition Integer_fits (v : option Z) : bool :=
  match v with
  | Some z => (-2147483648 <=? z) && (z <=? 2147483647)
  | None => true
  end.

Definition BigInteger_fits (v : option Z) : bool :=
  match v with
  | Some z =>
      (-9223372036854775808 <=? z) && (z <=? 9223372036854775807)
  | None => true
  end.

(** Assignment to a [JSONB] column: the document is sent as JSON text, in
    which a NUL character is written as an escape that the type refuses
    with [DataError]. *)
Definition JSONB_fits (v : option Statistics) : bool :=
  match v with
  | Some groups =>
      forallb
        (fun group =>
           negb (has_nul (fst group))
           && forallb
                (fun item =>
                   negb (has_nul (fst item)) && negb (has_nul (snd item)))
                (snd group))
        groups
  | None => true
  end.

(** The strings of a row of [events] can be bound. *)
Definition event_binds (e : Event.t) : bool :=
  binds (Event.event_name e) && binds (Event.sport_name e)
  && binds (Event.event_status e) && binds (Event.home_team_name e)
  && binds (Event.away_team_name e) && binds (Event.league_name e)
  && binds (Event.league_id e) && binds (Event.last_data_source e).

(** The values of a row of [events] are accepted by the types of their
    columns. *)
Definition event_fits (e : Event.t) : bool :=
  String_fits 500 (Event.event_name e)
  && String_fits 50 (Event.sport_name e)
  && String_fits 50 (Event.event_status e)
  && Integer_fits (Event.current_game_time e)
  && String_fits 255 (Event.home_team_name e)
  && String_fits 255 (Event.away_team_name e)
  && Integer_fits (Event.home_score e)
  && Integer_fits (Event.away_score e)
  && String_fits 255 (Event.league_name e)
  && String_fits 255 (Event.league_id e)
  && String_fits 50 (Event.last_data_source e)
  && BigInteger_fits (Event.last_updated_timestamp e)
  && JSONB_fits (Event.statistics e).

(** The row as the columns keep it. *)
Definition event_kept (e : Event.t) : Event.t :=
  {| Event.id := Event.id e;
     Event.event_name := String_kept 500 (Event.event_name e);
     Event.sport_name := String_kept 50 (Event.sport_name e);
     Event.event_status := String_kept 50 (Event.event_status e);
     Event.current_game_time := Event.current_game_time e;
     Event.home_team_name := String_kept 255 (Event.home_team_name e);
     Event.away_team_name := String_kept 255 (Event.away_team_name e);
     Event.home_score := Event.home_score e;
     Event.away_score := Event.away_score e;
     Event.league_name := String_kept 255 (Event.league_name e);
     Event.league_id := String_kept 255 (Event.league_id e);
     Event.event_timestamp := Event.event_timestamp e;
     Event.last_data_source := String_kept 50 (Event.last_data_source e);
     Event.last_updated_timestamp := Event.last_updated_timestamp e;
     Event.statistics := Event.statistics e |}.

(** The same for a row of [event_source_mappings]. *)
Definition mapping_binds (m : EventSourceMapping.t) : bool :=
  negb (has_nul (EventSourceMapping.source_name m))
  && negb (has_nul (EventSourceMapping.source_event_id m)).

Definition mapping_fits (m : EventSourceMapping.t) : bool :=
  Integer_fits (Some (Z.of_nat (EventSourceMapping.event_id m)))
  && String_fits 50 (Some (EventSourceMapping.source_name m))
  && String_fits 255 (Some (EventSourceMapping.source_event_id m)).

Definition mapping_kept (m : EventSourceMapping.t) : EventSourceMapping.t :=
  {| EventSourceMapping.id := EventSourceMapping.id m;
     EventSourceMapping.event_id := EventSourceMapping.event_id m;
     EventSourceMapping.source_name :=
       clip 50 (EventSourceMapping.source_name m);
     EventSourceMapping.source_event_id :=
       clip 255 (EventSourceMapping.source_event_id m) |}.

(* ===================================================================== *)
(** * shared/database/data_access.py                                       *)
(* ===================================================================== *)

(** One key of a Python [dict]: missing, bound to [None], or bound to a
    value. *)
Inductive Field (A : Type) : Type :=
| Absent : Field A
| Null : Field A
| Value : A -> Field A.
Arguments Absent {A}.
Arguments Null {A}.
Arguments Value {A} _.

(** [d.get(key)] *)
Definition dict_get {A : Type} (f : Field A) : option A :=
  match f with
  | Value a => Some a
  | Absent | Null => None
  end.

(** [setattr(obj, key, value)] for the keys the [dict] holds. *)
Definition setattr {A : Type} (old : option A) (f : Field A) : option A :=
  match f with
  | Absent => old
  | Null => None
  | Value a => Some a
  end.

(** [normalized_event_data]: a [dict] over the keys the normalizers emit,
    which are the attributes of [Event]. *)
Module Normalized.
Record t : Type := mk {
  event_name : Field string;
  sport_name : Field string;
  event_status : Field string;
  current_game_time : Field Z;
  home_team_name : Field string;
  away_team_name : Field string;
  home_score : Field Z;
  away_score : Field Z;
  league_name : Field string;
  league_id : Field string;
  event_timestamp : Field datetime;
  last_data_source : Field string;
  last_updated_timestamp : Field Z;
  statistics : Field Statistics
}.
End Normalized.

(** [source_mapping_data]; the method only reads it with [.get]. *)
Module SourceData.
Record t : Type := mk {
  source_name : option string;
  source_event_id : option string
}.
End SourceData.

(** Rows another writer committed between the lookups of a call and its
    first write. *)
Record Concurrent : Type := mkConcurrent {
  concurrent_events : list Event.t;
  concurrent_mappings : list EventSourceMapping.t
}.

(** The database once those rows are in. *)
Definition interleave (c : Concurrent) (db : Database) : Database :=
  {| events := events db ++ concurrent_events c;
     event_source_mappings :=
       event_source_mappings db ++ concurrent_mappings c;
     events_id_seq :=
       (events_id_seq db + List.length (concurrent_events c))%nat;
     event_source_mappings_id_seq :=
       (event_source_mappings_id_seq db
        + List.length (concurrent_mappings c))%nat |}.

Module DataAccess.

(** A statement of the open transaction: the database it leaves, and its
    value or the exception it raised. *)
Definition Tx (A : Type) : Type := Database -> Database * (Exception + A).

(** [session.rollback()]: the tables return to the last commit; values
    drawn from a sequence stay drawn. *)
Definition rollback (committed failed : Database) : Database :=
  {| events := events committed;
     event_source_mappings := event_source_mappings committed;
     events_id_seq := events_id_seq failed;
     event_source_mappings_id_seq := event_source_mappings_id_seq failed |}.

(** ** Queries *)

(** [session.query(EventSourceMapping).filter_by(...).first()] *)
Definition query_mapping (db : Database) (source_name source_event_id : string)
  : option EventSourceMapping.t :=
  find (fun m =>
          String.eqb (EventSourceMapping.source_name m) source_name
          && String.eqb (EventSourceMapping.source_event_id m) source_event_id)
       (event_source_mappings db).

(** [mapping.event] *)
Definition mapping_event (db : Database) (m : EventSourceMapping.t)
  : option Event.t :=
  find (fun e => Nat.eqb (Event.id e) (EventSourceMapping.event_id m))
       (events db).

(** The filter on the four attributes; [Event.league_id == None] is
    rendered [IS NULL]. *)
Definition event_key_matches (event_timestamp : datetime)
    (home_team_name away_team_name : string) (league_id : option string)
    (e : Event.t) : bool :=
  option_eqb Z.eqb (Event.event_timestamp e) (Some event_timestamp)
  && option_eqb String.eqb (Event.home_team_name e) (Some home_team_name)
  && option_eqb String.eqb (Event.away_team_name e) (Some away_team_name)
  && option_eqb String.eqb (Event.league_id e) league_id.

(** [session.query(Event).filter(...).first()] *)
Definition query_event_by_key (db : Database) (event_timestamp : datetime)
    (home_team_name away_team_name : string) (league_id : option string)
  : option Event.t :=
  find (event_key_matches event_timestamp home_team_name away_team_name
          league_id)
       (events db).

(** ** Writes *)

(** [Event] built from the keyword arguments [normalized_event_data],
    followed by [new_event.last_data_source = source_name], as the INSERT
    stores it:
    the column defaults of [home_score], [away_score] and [statistics]
    stand in for what the object does not carry. *)
Definition new_event (id : nat) (d : Normalized.t) (source_name : string)
  : Event.t :=
  {| Event.id := id;
     Event.event_name := dict_get (Normalized.event_name d);
     Event.sport_name := dict_get (Normalized.sport_name d);
     Event.event_status := dict_get (Normalized.event_status d);
     Event.current_game_time := dict_get (Normalized.current_game_time d);
     Event.home_team_name := dict_get (Normalized.home_team_name d);
     Event.away_team_name := dict_get (Normalized.away_team_name d);
     Event.home_score :=
       match dict_get (Normalized.home_score d) with
       | Some v => Some v
       | None => Some 0
       end;
     Event.away_score :=
       match dict_get (Normalized.away_score d) with
       | Some v => Some v
       | None => Some 0
       end;
     Event.league_name := dict_get (Normalized.league_name d);
     Event.league_id := dict_get (Normalized.league_id d);
     Event.event_timestamp := dict_get (Normalized.event_timestamp d);
     Event.last_data_source := Some source_name;
     Event.last_updated_timestamp :=
       dict_get (Normalized.last_updated_timestamp d);
     Event.statistics :=
       match Normalized.statistics d with
       | Absent => Some []
       | Null => None
       | Value v => Some v
       end |}.

(** The [for key, value in normalized_event_data.items()] loop and the two
    assignments after it. *)
Definition overwrite (e : Event.t) (d : Normalized.t) (source_name : string)
    (incoming_last_updated_timestamp : Z) : Event.t :=
  {| Event.id := Event.id e;
     Event.event_name :=
       setattr (Event.event_name e) (Normalized.event_name d);
     Event.sport_name :=
       setattr (Event.sport_name e) (Normalized.sport_name d);
     Event.event_status :=
       setattr (Event.event_status e) (Normalized.event_status d);
     Event.current_game_time :=
       setattr (Event.current_game_time e) (Normalized.current_game_time d);
     Event.home_team_name :=
       setattr (Event.home_team_name e) (Normalized.home_team_name d);
     Event.away_team_name :=
       setattr (Event.away_team_name e) (Normalized.away_team_name d);
     Event.home_score :=
       setattr (Event.home_score e) (Normalized.home_score d);
     Event.away_score :=
       setattr (Event.away_score e) (Normalized.away_score d);
     Event.league_name :=
       setattr (Event.league_name e) (Normalized.league_name d);
     Event.league_id :=
       setattr (Event.league_id e) (Normalized.league_id d);
     Event.event_timestamp :=
       setattr (Event.event_timestamp e) (Normalized.event_timestamp d);
     Event.last_data_source := Some source_name;
     Event.last_updated_timestamp := Some incoming_last_updated_timestamp;
     Event.statistics :=
       setattr (Event.statistics e) (Normalized.statistics d) |}.

(** INSERT INTO events.  The driver binds the values, the types of the
    columns take them, the id is drawn, then the constraints are checked
    on the row as the columns keep it.  The object the session holds is
    reloaded from that row after the commit. *)
Definition insert_event (d : Normalized.t) (source_name : string)
  : Tx Event.t :=
  fun db =>
    let row := new_event (events_id_seq db) d source_name in
    if negb (event_binds row) then (db, inl ValueError)
    else if negb (event_fits row
                  && Integer_fits (Some (Z.of_nat (events_id_seq db))))
    then (db, inl DataError)
    else
      let stored := event_kept row in
      let db1 :=
        {| events := events db;
           event_source_mappings := event_source_mappings db;
           events_id_seq := S (events_id_seq db);
           event_source_mappings_id_seq := event_source_mappings_id_seq db |}
      in
      if negb (event_not_null stored) then
        (db1, inl (IntegrityError "not-null"))
      else if existsb (uq_event_canonical_conflict stored) (events db) then
        (db1, inl (IntegrityError "uq_event_canonical"))
      else
        ({| events := events db ++ [stored];
            event_source_mappings := event_source_mappings db;
            events_id_seq := S (events_id_seq db);
            event_source_mappings_id_seq :=
              event_source_mappings_id_seq db |},
         inr stored).

(** The table after the row of id [Event.id row] has become [row]. *)
Definition replace_event (row : Event.t) (l : list Event.t)
  : list Event.t :=
  map (fun x => if Nat.eqb (Event.id x) (Event.id row) then row else x) l.

(** Another row of the table that [row] is in conflict with. *)
Definition conflicts_with_other (row x : Event.t) : bool :=
  negb (Nat.eqb (Event.id x) (Event.id row))
  && uq_event_canonical_conflict row x.

(** UPDATE events ... WHERE id = [Event.id row].  The statement sets the
    attributes that changed; the others hold what the columns already
    keep, so the row is checked as a whole. *)
Definition update_event (row : Event.t) : Tx Event.t :=
  fun db =>
    if negb (event_binds row) then (db, inl ValueError)
    else if negb (event_fits row) then (db, inl DataError)
    else
      let stored := event_kept row in
      if negb (event_not_null stored) then
        (db, inl (IntegrityError "not-null"))
      else if existsb (conflicts_with_other stored) (events db) then
        (db, inl (IntegrityError "uq_event_canonical"))
      else
        ({| events := replace_event stored (events db);
            event_source_mappings := event_source_mappings db;
            events_id_seq := events_id_seq db;
            event_source_mappings_id_seq :=
              event_source_mappings_id_seq db |},
         inr stored).

Definition new_mapping (db : Database) (event_id : nat)
    (source_name source_event_id : string) : EventSourceMapping.t :=
  {| EventSourceMapping.id := event_source_mappings_id_seq db;
     EventSourceMapping.event_id := event_id;
     EventSourceMapping.source_name := source_name;
     EventSourceMapping.source_event_id := source_event_id |}.

(** INSERT INTO event_source_mappings *)
Definition insert_mapping (event_id : nat)
    (source_name source_event_id : string) : Tx unit :=
  fun db =>
    let row := new_mapping db event_id source_name source_event_id in
    if negb (mapping_binds row) then (db, inl ValueError)
    else if negb (mapping_fits row
                  && Integer_fits
                       (Some (Z.of_nat (event_source_mappings_id_seq db))))
    then (db, inl DataError)
    else
      let stored := mapping_kept row in
      let db1 :=
        {| events := events db;
           event_source_mappings := event_source_mappings db;
           events_id_seq := events_id_seq db;
           event_source_mappings_id_seq :=
             S (event_source_mappings_id_seq db) |} in
      if existsb (uq_source_event_conflict stored) (event_source_mappings db)
      then (db1, inl (IntegrityError "uq_source_event"))
      else if existsb (uq_event_id_source_conflict stored)
                (event_source_mappings db)
      then (db1, inl (IntegrityError "uq_event_id_source"))
      else
        ({| events := events db;
            event_source_mappings := event_source_mappings db ++ [stored];
            events_id_seq := events_id_seq db;
            event_source_mappings_id_seq :=
              S (event_source_mappings_id_seq db) |},
         inr tt).

(** ** [DataAccess.save_or_update_event] *)

(** The [all([...])] test on the essential data. *)
Definition essential_data_present (d : Normalized.t) (s : SourceData.t)
  : bool :=
  truthy_obj (dict_get (Normalized.event_timestamp d))
  && truthy_str (dict_get (Normalized.home_team_name d))
  && truthy_str (dict_get (Normalized.away_team_name d))
  && truthy_str (SourceData.source_name s)
  && truthy_str (SourceData.source_event_id s)
  && truthy_int (dict_get (Normalized.last_updated_timestamp d)).

(** Step 1: the mapping of the source first, the four attributes
    otherwise; each query binds its strings.  The debug line of the first
    case reads [existing_event.id]. *)
Definition resolve_target (db : Database) (source_name source_event_id : string)
    (event_timestamp : datetime) (home_team_name away_team_name : string)
    (league_id : option string)
  : Exception + (option EventSourceMapping.t * option Event.t) :=
  if has_nul source_name || has_nul source_event_id then inl ValueError
  else
    match query_mapping db source_name source_event_id with
    | Some existing_mapping =>
        match mapping_event db existing_mapping with
        | Some existing_event =>
            inr (Some existing_mapping, Some existing_event)
        | None => inl AttributeError
        end
    | None =>
        if has_nul home_team_name || has_nul away_team_name
           || negb (binds league_id)
        then inl ValueError
        else
          inr (None,
               query_event_by_key db event_timestamp home_team_name
                 away_team_name league_id)
    end.

(** The computation of [should_update] for an existing event. *)
Definition should_update (d : Normalized.t)
    (incoming_last_updated_timestamp : Z)
    (incoming_current_game_time : option Z) (existing_event : Event.t)
  : Exception + bool :=
  match Event.last_updated_timestamp existing_event with
  | None => inl TypeError
  | Some stored =>
      if stored <? incoming_last_updated_timestamp then inr true
      else if incoming_last_updated_timestamp =? stored then
        inr ((option_eqb String.eqb (dict_get (Normalized.event_status d))
                (Some "inprogress"%string)
              || option_eqb String.eqb (Event.event_status existing_event)
                   (Some "inprogress"%string))
             && match incoming_current_game_time with
                | None => false
                | Some incoming =>
                    match Event.current_game_time existing_event with
                    | None => true
                    | Some current => current <? incoming
                    end
                end)
      else inr false
  end.

(** The existing event as the session holds it after the decision, and
    whether it is to be written. *)
Definition merge_existing (d : Normalized.t) (source_name : string)
    (incoming_last_updated_timestamp : Z)
    (incoming_current_game_time : option Z) (existing_event : Event.t)
  : Exception + (Event.t * bool) :=
  match should_update d incoming_last_updated_timestamp
          incoming_current_game_time existing_event with
  | inl x => inl x
  | inr true =>
      inr (overwrite existing_event d source_name
             incoming_last_updated_timestamp, true)
  | inr false => inr (existing_event, false)
  end.

(** Step 2 and [session.commit()]: the pending UPDATE is flushed, then
    the mapping is inserted when the source had none.  The event returned
    is the row as the table keeps it. *)
Definition save_mapping_and_commit
    (existing_mapping : option EventSourceMapping.t)
    (source_name source_event_id : string) (target : Event.t) (dirty : bool)
  : Tx Event.t :=
  fun db =>
    let (db1, r) := if dirty then update_event target db
                    else (db, inr target) in
    match r with
    | inl x => (db1, inl x)
    | inr row =>
        match existing_mapping with
        | Some _ => (db1, inr row)
        | None =>
            let (db2, r2) :=
              insert_mapping (Event.id row) source_name source_event_id db1 in
            match r2 with
            | inl x => (db2, inl x)
            | inr _ => (db2, inr row)
            end
        end
    end.

(** The body of the [try] block.  The lookups see [seen]; the writes go
    to [now], the database as the writers that committed in between have
    left it. *)
Definition try_body (seen : Database) (d : Normalized.t)
    (source_name source_event_id : string) (event_timestamp : datetime)
    (home_team_name away_team_name : string) (league_id : option string)
    (incoming_last_updated_timestamp : Z)
    (incoming_current_game_time : option Z)
  : Tx Event.t :=
  fun now =>
    match resolve_target seen source_name source_event_id event_timestamp
            home_team_name away_team_name league_id with
    | inl x => (now, inl x)
    | inr (existing_mapping, Some existing_event) =>
        match merge_existing d source_name incoming_last_updated_timestamp
                incoming_current_game_time existing_event with
        | inl x => (now, inl x)
        | inr (target, dirty) =>
            save_mapping_and_commit existing_mapping source_name
              source_event_id target dirty now
        end
    | inr (existing_mapping, None) =>
        let (db1, r) := insert_event d source_name now in
        match r with
        | inl x => (db1, inl x)
        | inr new_event =>
            save_mapping_and_commit existing_mapping source_name
              source_event_id new_event false db1
        end
    end.

(** The method, with the writes of concurrent sessions made explicit:
    [seen] is the database its lookups read, [now] the database its writes
    meet ([interleave c seen] when another writer committed the rows [c]
    in between).  The query of the first handler binds strings that a
    statement of the [try] block has bound before the integrity error. *)
Definition save_or_update_event_racing (seen now : Database)
    (normalized_event_data : Normalized.t)
    (source_mapping_data : SourceData.t) : Database * option Event.t :=
  let event_timestamp :=
    dict_get (Normalized.event_timestamp normalized_event_data) in
  let home_team_name :=
    dict_get (Normalized.home_team_name normalized_event_data) in
  let away_team_name :=
    dict_get (Normalized.away_team_name normalized_event_data) in
  let league_id := dict_get (Normalized.league_id normalized_event_data) in
  let incoming_last_updated_timestamp :=
    dict_get (Normalized.last_updated_timestamp normalized_event_data) in
  let incoming_current_game_time :=
    dict_get (Normalized.current_game_time normalized_event_data) in
  let source_name := SourceData.source_name source_mapping_data in
  let source_event_id := SourceData.source_event_id source_mapping_data in
  if negb (essential_data_present normalized_event_data source_mapping_data)
  then (now, None)
  else
    match event_timestamp, home_team_name, away_team_name,
          source_name, source_event_id, incoming_last_updated_timestamp with
    | Some ts, Some home, Some away, Some sn, Some sid, Some incoming =>
        match try_body seen normalized_event_data sn sid ts home away
                league_id incoming incoming_current_game_time now with
        | (db, inr existing_event) => (db, Some existing_event)
        | (failed, inl x) =>
            let db := rollback now failed in
            if is_IntegrityError x then
              (db, query_event_by_key db ts home away league_id)
            else (db, None)
        end
    | _, _, _, _, _, _ => (now, None)
    end.

(** The method in a session that no other writer interleaves with. *)
Definition save_or_update_event (db : Database)
    (normalized_event_data : Normalized.t)
    (source_mapping_data : SourceData.t) : Database * option Event.t :=
  save_or_update_event_racing db db normalized_event_data
    source_mapping_data.

(** A sequence of calls, each with its two arguments. *)
Fixpoint save_or_update_events (db : Database)
    (calls : list (Normalized.t * SourceData.t)) : Database :=
  match calls with
  | [] => db
  | (d, s) :: rest =>
      save_or_update_events (fst (save_or_update_event db d s)) rest
  end.

(** ** [DataAccess.get_events_for_monitoring] *)

(** The names bound at module level in [data_access.py] by its imports
    and its class statement. *)
Definition module_globals : list string :=
  ["logging"; "SessionLocal"; "engine"; "Base"; "Event";
   "EventSourceMapping"; "Session"; "IntegrityError"; "datetime"; "pytz";
   "or_"; "DataAccess"]%string.

(** Evaluation of a global name that is not a builtin. *)
Definition load_global (name : string) : Exception + unit :=
  if existsb (String.eqb name) module_globals then inr tt
  else inl (NameError name).

(** ORDER BY event_timestamp ASC (NULLs last), as a stable insertion. *)
Definition timestamp_leb (x y : option datetime) : bool :=
  match x, y with
  | Some a, Some b => a <=? b
  | Some _, None => true
  | None, Some _ => false
  | None, None => true
  end.

Fixpoint insert_by_timestamp (e : Event.t) (l : list Event.t)
  : list Event.t :=
  match l with
  | [] => [e]
  | x :: rest =>
      if timestamp_leb (Event.event_timestamp e) (Event.event_timestamp x)
      then e :: l
      else x :: insert_by_timestamp e rest
  end.

Definition order_by_event_timestamp_asc (l : list Event.t) : list Event.t :=
  fold_right insert_by_timestamp [] l.

Definition microseconds_per_minute : Z := 60 * 1000000.

(** The [filter(or_(...))] ... [order_by(...)] ... [all()] query. *)
Definition monitoring_query (db : Database) (time_threshold : datetime)
  : list Event.t :=
  order_by_event_timestamp_asc
    (filter
       (fun e =>
          option_eqb String.eqb (Event.event_status e)
            (Some "inprogress"%string)
          || (option_eqb String.eqb (Event.event_status e)
                (Some "scheduled"%string)
              && match Event.event_timestamp e with
                 | Some t => time_threshold <=? t
                 | None => false
                 end))
       (events db)).

(** The method; [timedelta] is evaluated before the query is built. *)
Definition get_events_for_monitoring (db : Database)
    (current_time_utc : datetime) (time_buffer_minutes : Z)
  : Exception + list Event.t :=
  match load_global "timedelta" with
  | inl x => inl x
  | inr _ =>
      let time_threshold :=
        current_time_utc - time_buffer_minutes * microseconds_per_minute in
      inr (monitoring_query db time_threshold)
  end.


(** ** [DataAccess.get_event_by_id] and [DataAccess.get_event_by_source_id] *)

(** [session.query(Event).get(event_id)] *)
Definition get_event_by_id (db : Database) (event_id : nat)
  : option Event.t :=
  find (fun e => Nat.eqb (Event.id e) event_id) (events db).

Definition get_event_by_source_id (db : Database)
    (source_name source_event_id : string) : Exception + option Event.t :=
  if has_nul source_name || has_nul source_event_id then inl ValueError
  else
    match query_mapping db source_name source_event_id with
    | Some mapping => inr (mapping_event db mapping)
    | None => inr None
    end.

End DataAccess.

(* ===================================================================== *)
(** * live-monitor/main.py                                                 *)
(* ===================================================================== *)

Module LiveMonitor.




(** Where control is in [monitor_live_matches]: in the first [while True]
    (lines 46-75), at the connection to Redis (lines 77-87) or in the
    second [while True], the scheduler (lines 90-191). *)
Inductive Location : Type :=
| first_loop
| redis_connection
| scheduler_loop.

(** What a run has done so far: the sessions it opened and closed, the
    durations it passed to [time.sleep], the number of calls of
    [redis_client.publish], and the store. *)
Record Run : Type := mkRun {
  location : Location;
  sessions_opened : nat;
  sessions_closed : nat;
  sleeps : list Z;
  published : nat;
  store : Database
}.

Definition start (db : Database) : Run :=
  {| location := first_loop; sessions_opened := 0; sessions_closed := 0;
     sleeps := []; published := 0; store := db |}.





End LiveMonitor.

(* ===================================================================== *)
(** * The statements of the specification                                  *)
(* ===================================================================== *)

Module Spec.

Import DataAccess.

(** The merge acceptance policy in the words of the specification: the
    incoming timestamp is strictly greater than the stored one, or the two
    are equal, the match is live on either side, and the incoming game
    time is present and strictly exceeds the stored one, a missing stored
    game time being lower than any present one. *)
Definition accepts (d : Normalized.t) (incoming : Z) (target : Event.t)
    (stored : Z) : Prop :=
  stored < incoming
  \/ (incoming = stored
      /\ (dict_get (Normalized.event_status d) = Some "inprogress"%string
          \/ Event.event_status target = Some "inprogress"%string)
      /\ exists g : Z,
           dict_get (Normalized.current_game_time d) = Some g
           /\ match Event.current_game_time target with
              | None => True
              | Some g0 => g0 < g
              end).

(** UPDATE of a row of [events] goes through: the driver binds its
    values, the types of the columns take them, and the constraints of
    the table hold of the row as the columns keep it. *)
Definition update_accepted (db : Database) (row : Event.t) : bool :=
  event_binds row && event_fits row
  && event_not_null (event_kept row)
  && negb (existsb (conflicts_with_other (event_kept row)) (events db)).

(** INSERT of the event made of a record goes through, likewise; its
    id is the next of the sequence. *)
Definition insert_accepted (db : Database) (d : Normalized.t)
    (source_name : string) : bool :=
  let row := new_event (events_id_seq db) d source_name in
  event_binds row
  && (event_fits row && Integer_fits (Some (Z.of_nat (events_id_seq db))))
  && event_not_null (event_kept row)
  && negb (existsb (uq_event_canonical_conflict (event_kept row))
             (events db)).

(** The types of the columns of [event_source_mappings] take a new
    mapping of the source to the event, and the sequence has an id
    left. *)
Definition mapping_accepted (db : Database) (event_id : nat)
    (source_name source_event_id : string) : bool :=
  mapping_fits (new_mapping db event_id source_name source_event_id)
  && Integer_fits (Some (Z.of_nat (event_source_mappings_id_seq db))).

(** INSERT of that mapping goes through: its strings are bound, its
    values are taken, and neither [uq_source_event] nor
    [uq_event_id_source] is violated. *)
Definition mapping_insert_accepted (db : Database) (event_id : nat)
    (source_name source_event_id : string) : bool :=
  let m := new_mapping db event_id source_name source_event_id in
  mapping_binds m
  && mapping_accepted db event_id source_name source_event_id
  && negb (existsb (uq_source_event_conflict (mapping_kept m))
             (event_source_mappings db))
  && negb (existsb (uq_event_id_source_conflict (mapping_kept m))
             (event_source_mappings db)).

(** The commit of an upsert with an existing target goes through: the
    UPDATE of the rewritten row when the merge is accepted, the INSERT of
    the mapping when the source had none. *)
Definition commit_succeeds (db : Database)
    (existing_mapping : option EventSourceMapping.t)
    (source_name source_event_id : string) (row : Event.t) (dirty : bool)
  : bool :=
  (if dirty then update_accepted db row else true)
  && match existing_mapping with
     | Some _ => true
     | None =>
         mapping_insert_accepted db (Event.id row) source_name
           source_event_id
     end.

(** One field of the target after the incoming record has overwritten
    it, in the words of the specification: the value of the record where
    the record has the field, the value it had otherwise. *)
Definition field_overwritten {A : Type} (incoming : Field A)
    (before after : option A) : Prop :=
  match incoming with
  | Value v => after = Some v
  | Null => after = None
  | Absent => after = before
  end.

(** The target overwritten by the incoming observation: every field of
    the record, and the provider and the update time of the
    observation. *)
Definition overwritten_by (d : Normalized.t) (source_name : string)
    (incoming : Z) (target row : Event.t) : Prop :=
  Event.id row = Event.id target
  /\ field_overwritten (Normalized.event_name d)
       (Event.event_name target) (Event.event_name row)
  /\ field_overwritten (Normalized.sport_name d)
       (Event.sport_name target) (Event.sport_name row)
  /\ field_overwritten (Normalized.event_status d)
       (Event.event_status target) (Event.event_status row)
  /\ field_overwritten (Normalized.current_game_time d)
       (Event.current_game_time target) (Event.current_game_time row)
  /\ field_overwritten (Normalized.home_team_name d)
       (Event.home_team_name target) (Event.home_team_name row)
  /\ field_overwritten (Normalized.away_team_name d)
       (Event.away_team_name target) (Event.away_team_name row)
  /\ field_overwritten (Normalized.home_score d)
       (Event.home_score target) (Event.home_score row)
  /\ field_overwritten (Normalized.away_score d)
       (Event.away_score target) (Event.away_score row)
  /\ field_overwritten (Normalized.league_name d)
       (Event.league_name target) (Event.league_name row)
  /\ field_overwritten (Normalized.league_id d)
       (Event.league_id target) (Event.league_id row)
  /\ field_overwritten (Normalized.event_timestamp d)
       (Event.event_timestamp target) (Event.event_timestamp row)
  /\ field_overwritten (Normalized.statistics d)
       (Event.statistics target) (Event.statistics row)
  /\ Event.last_data_source row = Some source_name
  /\ Event.last_updated_timestamp row = Some incoming.

(** A row that its table stores as it is: the driver binds its strings,
    the types of the columns take its values and shorten none. *)
Definition stored_as_is (e : Event.t) : Prop :=
  event_binds e = true /\ event_fits e = true /\ event_kept e = e.

(** The same of a provider and its event id in
    [event_source_mappings]. *)
Definition source_stored_as_is (source_name source_event_id : string)
  : Prop :=
  has_nul source_name = false /\ has_nul source_event_id = false
  /\ clip 50 source_name = source_name
  /\ clip 255 source_event_id = source_event_id.

(** The same of the strings of a dedup key. *)
Definition key_stored_as_is (home_team_name away_team_name : string)
    (league_id : option string) : Prop :=
  clip 255 home_team_name = home_team_name
  /\ clip 255 away_team_name = away_team_name
  /\ String_kept 255 league_id = league_id.

(** The values the method reads from its two arguments once the test
    of the essential data has passed. *)
Definition reads (d : Normalized.t) (s : SourceData.t) (ts : datetime)
    (home away sn sid : string) (incoming : Z) : Prop :=
  essential_data_present d s = true
  /\ dict_get (Normalized.event_timestamp d) = Some ts
  /\ dict_get (Normalized.home_team_name d) = Some home
  /\ dict_get (Normalized.away_team_name d) = Some away
  /\ SourceData.source_name s = Some sn
  /\ SourceData.source_event_id s = Some sid
  /\ dict_get (Normalized.last_updated_timestamp d) = Some incoming.

(** A record that leaves an event of the given dedup key under that key
    when it overwrites it: it carries the start and the teams of the key,
    and its league id is that of the key or is missing. *)
Definition leaves_key (d : Normalized.t) (ts : datetime)
    (home away : string) (league : option string) : Prop :=
  dict_get (Normalized.event_timestamp d) = Some ts
  /\ dict_get (Normalized.home_team_name d) = Some home
  /\ dict_get (Normalized.away_team_name d) = Some away
  /\ setattr league (Normalized.league_id d) = league.


(** The value of an [Integer] primary key. *)
Definition id_fits (n : nat) : Prop :=
  Integer_fits (Some (Z.of_nat n)) = true.

(** The required fields in the words of the specification: event name,
    sport, both team names and start instant are present. *)
Definition required_fields_present (d : Normalized.t) : Prop :=
  (exists v, Normalized.event_name d = Value v)
  /\ (exists v, Normalized.sport_name d = Value v)
  /\ (exists v, Normalized.home_team_name d = Value v)
  /\ (exists v, Normalized.away_team_name d = Value v)
  /\ (exists v, Normalized.event_timestamp d = Value v).

(** What the method tests instead: one of start instant, home team, away
    team, provider, provider event id and update time is missing, an
    empty string or zero. *)
Definition essential_data_missing (d : Normalized.t) (s : SourceData.t)
  : Prop :=
  dict_get (Normalized.event_timestamp d) = None
  \/ (dict_get (Normalized.home_team_name d) = None
      \/ dict_get (Normalized.home_team_name d) = Some EmptyString)
  \/ (dict_get (Normalized.away_team_name d) = None
      \/ dict_get (Normalized.away_team_name d) = Some EmptyString)
  \/ (SourceData.source_name s = None
      \/ SourceData.source_name s = Some EmptyString)
  \/ (SourceData.source_event_id s = None
      \/ SourceData.source_event_id s = Some EmptyString)
  \/ (dict_get (Normalized.last_updated_timestamp d) = None
      \/ dict_get (Normalized.last_updated_timestamp d) = Some 0).

(** Every mapping row references an event id that the sequence of
    [events] has already handed out. *)
Definition foreign_keys_hold (db : Database) : Prop :=
  forall m : EventSourceMapping.t,
    In m (event_source_mappings db) ->
    (EventSourceMapping.event_id m < events_id_seq db)%nat.

(** Every event row carries an id that the sequence of [events] has
    already handed out. *)
Definition event_ids_below_seq (db : Database) : Prop :=
  forall e : Event.t,
    In e (events db) -> (Event.id e < events_id_seq db)%nat.

(** The dedup key of a row. *)
Definition dedup_key (e : Event.t)
  : option datetime * option string * option string * option string :=
  (Event.event_timestamp e, Event.home_team_name e,
   Event.away_team_name e, Event.league_id e).

(** At most one canonical event per dedup key. *)
Definition dedup_invariant (db : Database) : Prop :=
  forall e1 e2 : Event.t,
    In e1 (events db) -> In e2 (events db) ->
    dedup_key e1 = dedup_key e2 -> Event.id e1 = Event.id e2.

(** The part of it that [uq_event_canonical] watches over: keys without
    NULL. *)
Definition dedup_invariant_without_null (db : Database) : Prop :=
  forall e1 e2 : Event.t,
    In e1 (events db) -> In e2 (events db) ->
    uq_event_canonical_conflict e1 e2 = true -> Event.id e1 = Event.id e2.

(** The events that need attention in the words of the specification:
    in progress, or scheduled with a start within the buffer of now. *)
Definition needs_attention (now buffer : Z) (e : Event.t) : Prop :=
  Event.event_status e = Some "inprogress"%string
  \/ (Event.event_status e = Some "scheduled"%string
      /\ exists t, Event.event_timestamp e = Some t
                   /\ now - buffer <= t <= now + buffer).

(** Every key of the [dict] is bound, and bound to a value where the
    column is not nullable or has a default. *)
Definition fully_normalized (d : Normalized.t) : Prop :=
  (exists v, Normalized.event_name d = Value v)
  /\ (exists v, Normalized.sport_name d = Value v)
  /\ (exists v, Normalized.event_status d = Value v)
  /\ Normalized.current_game_time d <> Absent
  /\ (exists v, Normalized.home_team_name d = Value v)
  /\ (exists v, Normalized.away_team_name d = Value v)
  /\ (exists v, Normalized.home_score d = Value v)
  /\ (exists v, Normalized.away_score d = Value v)
  /\ Normalized.league_name d <> Absent
  /\ Normalized.league_id d <> Absent
  /\ (exists v, Normalized.event_timestamp d = Value v)
  /\ Normalized.last_data_source d <> Absent
  /\ (exists v, Normalized.last_updated_timestamp d = Value v)
  /\ (exists v, Normalized.statistics d = Value v).

(** The constraints of the two tables: primary keys drawn from the
    sequences, the foreign key, the NOT NULL columns and the three unique
    constraints. *)
Record store_valid (db : Database) : Prop := mkStoreValid {
  valid_event_ids : event_ids_below_seq db;
  valid_event_ids_distinct : NoDup (map Event.id (events db));
  valid_mapping_ids :
    forall m : EventSourceMapping.t,
      In m (event_source_mappings db) ->
      (EventSourceMapping.id m < event_source_mappings_id_seq db)%nat;
  valid_mapping_ids_distinct :
    NoDup (map EventSourceMapping.id (event_source_mappings db));
  valid_foreign_keys :
    forall m : EventSourceMapping.t,
      In m (event_source_mappings db) ->
      exists e : Event.t,
        In e (events db) /\ Event.id e = EventSourceMapping.event_id m;
  valid_not_null :
    forall e : Event.t, In e (events db) -> event_not_null e = true;
  valid_uq_event_canonical : dedup_invariant_without_null db;
  valid_uq_source_event :
    forall m1 m2 : EventSourceMapping.t,
      In m1 (event_source_mappings db) ->
      In m2 (event_source_mappings db) ->
      uq_source_event_conflict m1 m2 = true ->
      EventSourceMapping.id m1 = EventSourceMapping.id m2;
  valid_uq_event_id_source :
    forall m1 m2 : EventSourceMapping.t,
      In m1 (event_source_mappings db) ->
      In m2 (event_source_mappings db) ->
      uq_event_id_source_conflict m1 m2 = true ->
      EventSourceMapping.id m1 = EventSourceMapping.id m2
}.

(** The mappings a committed call leaves: as they were when the source
    was mapped, one more row for [event_id], as the columns keep it,
    otherwise. *)
Definition mapping_recorded (db db1 : Database)
    (existing_mapping : option EventSourceMapping.t) (event_id : nat)
    (source_name source_event_id : string) : Prop :=
  match existing_mapping with
  | Some _ =>
      event_source_mappings db1 = event_source_mappings db
      /\ event_source_mappings_id_seq db1 = event_source_mappings_id_seq db
  | None =>
      let m :=
        mapping_kept (new_mapping db event_id source_name source_event_id)
      in
      event_source_mappings db1 = event_source_mappings db ++ [m]
      /\ event_source_mappings_id_seq db1
         = S (event_source_mappings_id_seq db)
      /\ existsb (uq_source_event_conflict m) (event_source_mappings db)
         = false
      /\ existsb (uq_event_id_source_conflict m) (event_source_mappings db)
         = false
  end.

(** One stored version of an event is not fresher than another: its
    update time is lower, or the two are equal and its game time is
    missing or not higher. *)
Definition not_fresher (old new : Event.t) : Prop :=
  match Event.last_updated_timestamp old, Event.last_updated_timestamp new with
  | Some t, Some t' =>
      t < t'
      \/ (t = t'
          /\ match Event.current_game_time old, Event.current_game_time new with
             | Some g, Some g' => g <= g'
             | Some _, None => False
             | None, _ => True
             end)
  | _, _ => False
  end.

(** Rows in ascending order of start. *)
Definition starts_before (a b : Event.t) : Prop :=
  timestamp_leb (Event.event_timestamp a) (Event.event_timestamp b) = true.

End Spec.

(* ===================================================================== *)
(** * Sample data                                                          *)
(* ===================================================================== *)

Module Examples.

Import DataAccess.
Open Scope string_scope.

(** A normalized event with every key bound, as the normalizers emit
    it. *)
Definition observation (start : datetime) (home away : string)
    (league : Field string) (updated : Z) (status : string)
    (game_time : Field Z) (score_home score_away : Z) : Normalized.t :=
  {| Normalized.event_name := Value (home ++ " vs " ++ away);
     Normalized.sport_name := Value "football";
     Normalized.event_status := Value status;
     Normalized.current_game_time := game_time;
     Normalized.home_team_name := Value home;
     Normalized.away_team_name := Value away;
     Normalized.home_score := Value score_home;
     Normalized.away_score := Value score_away;
     Normalized.league_name := Value "Premier League";
     Normalized.league_id := league;
     Normalized.event_timestamp := Value start;
     Normalized.last_data_source := Value "normalizer";
     Normalized.last_updated_timestamp := Value updated;
     Normalized.statistics := Value [] |}.

Definition source (provider event_id : string) : SourceData.t :=
  {| SourceData.source_name := Some provider;
     SourceData.source_event_id := Some event_id |}.

(** One match, known to ["sofascore"] as event ["1"], last updated at
    100. *)
Definition kickoff : datetime := 1735754400000000.

Definition first_report : Normalized.t :=
  observation kickoff "A" "B" (Value "10") 100 "scheduled" (Value 0) 0 0.

Definition one_match : Database :=
  fst (save_or_update_event empty_database first_report
         (source "sofascore" "1")).

Definition stored_match : Event.t :=
  new_event 1 first_report "sofascore".

(** A later report of the same match. *)
Definition later_report : Normalized.t :=
  observation kickoff "A" "B" (Value "10") 200 "inprogress" (Value 12) 1 0.

(** The later report with a home score that an [Integer] column cannot
    hold. *)
Definition report_out_of_range : Normalized.t :=
  observation kickoff "A" "B" (Value "10") 200 "inprogress" (Value 12)
    2147483648 0.

(** A provider name of fifty characters followed by a space. *)
Definition padded_provider : string :=
  "provider-with-a-name-of-exactly-fifty-characters-x ".

(** A home team name of 256 characters, the last of them a space, and a
    report of the match of that team. *)
Definition padded_home : string :=
  "a-home-team-whose-name-has-two-hundred-and-fifty-five-characters-"
  ++ "0123456789012345678901234567890123456789012345678901234567890123"
  ++ "0123456789012345678901234567890123456789012345678901234567890123"
  ++ "01234567890123456789012345678901234567890123456789012345678901 ".

Definition padded_report : Normalized.t :=
  observation kickoff padded_home "B" (Value "10") 100 "scheduled" (Value 0)
    0 0.

(** The later report without its [last_updated_timestamp] key. *)
Definition report_without_update_time : Normalized.t :=
  {| Normalized.event_name := Value "A vs B";
     Normalized.sport_name := Value "football";
     Normalized.event_status := Value "inprogress";
     Normalized.current_game_time := Value 12;
     Normalized.home_team_name := Value "A";
     Normalized.away_team_name := Value "B";
     Normalized.home_score := Value 1;
     Normalized.away_score := Value 0;
     Normalized.league_name := Value "Premier League";
     Normalized.league_id := Value "10";
     Normalized.event_timestamp := Value kickoff;
     Normalized.last_data_source := Value "normalizer";
     Normalized.last_updated_timestamp := Absent;
     Normalized.statistics := Value [] |}.

(** The later report without its [event_name] and [sport_name] keys. *)
Definition report_without_names : Normalized.t :=
  {| Normalized.event_name := Absent;
     Normalized.sport_name := Absent;
     Normalized.event_status := Value "inprogress";
     Normalized.current_game_time := Value 12;
     Normalized.home_team_name := Value "A";
     Normalized.away_team_name := Value "B";
     Normalized.home_score := Value 1;
     Normalized.away_score := Value 0;
     Normalized.league_name := Value "Premier League";
     Normalized.league_id := Value "10";
     Normalized.event_timestamp := Value kickoff;
     Normalized.last_data_source := Value "normalizer";
     Normalized.last_updated_timestamp := Value 200;
     Normalized.statistics := Value [] |}.

(** A report between the first and the later one. *)
Definition middle_report : Normalized.t :=
  observation kickoff "A" "B" (Value "10") 150 "inprogress" (Value 5) 0 0.

(** The match as a report of time 300 has left it. *)
Definition newest_report : Normalized.t :=
  observation kickoff "A" "B" (Value "10") 300 "finished" (Value 90) 2 1.

Definition finished_match : Database :=
  fst (save_or_update_event one_match newest_report
         (source "sofascore" "1")).

Definition sofascore_1 : EventSourceMapping.t :=
  {| EventSourceMapping.id := 1;
     EventSourceMapping.event_id := 1;
     EventSourceMapping.source_name := "sofascore";
     EventSourceMapping.source_event_id := "1" |}.

(** The same provider event with its kick-off moved by one hour. *)
Definition moved_kickoff : datetime := kickoff + 3600000000.

Definition moved_report : Normalized.t :=
  observation moved_kickoff "A" "B" (Value "10") 200 "scheduled" (Value 0)
    0 0.

(** The store after sofascore has reported the match as event 1 at
    [kickoff] and as event 2 at [moved_kickoff]. *)
Definition two_matches : Database :=
  save_or_update_events empty_database
    [ (first_report, source "sofascore" "1");
      (moved_report, source "sofascore" "2") ].

(** Event 1 reported at [moved_kickoff] by a record that lacks the
    [league_id] key. *)
Definition report_without_league_key : Normalized.t :=
  {| Normalized.event_name := Value "A vs B";
     Normalized.sport_name := Value "football";
     Normalized.event_status := Value "scheduled";
     Normalized.current_game_time := Value 0;
     Normalized.home_team_name := Value "A";
     Normalized.away_team_name := Value "B";
     Normalized.home_score := Value 0;
     Normalized.away_score := Value 0;
     Normalized.league_name := Value "Premier League";
     Normalized.league_id := Absent;
     Normalized.event_timestamp := Value moved_kickoff;
     Normalized.last_data_source := Value "normalizer";
     Normalized.last_updated_timestamp := Value 300;
     Normalized.statistics := Value [] |}.

(** Three reports of one provider that carries no league id: event 1 at
    [kickoff], event 2 at [moved_kickoff], then event 1 moved to
    [moved_kickoff]. *)
Definition reports_without_league
  : list (Normalized.t * SourceData.t) :=
  [ (observation kickoff "A" "B" Null 100 "scheduled" Null 0 0,
     source "thesportsdb" "1");
    (observation moved_kickoff "A" "B" Null 100 "scheduled" Null 0 0,
     source "thesportsdb" "2");
    (observation moved_kickoff "A" "B" Null 200 "scheduled" Null 0 0,
     source "thesportsdb" "1") ].

(** A match scheduled ten days after [kickoff]. *)
Definition far_future_report : Normalized.t :=
  observation (kickoff + 864000000000) "C" "D" (Value "10") 100 "scheduled"
    (Value 0) 0 0.

Definition with_far_future_match : Database :=
  fst (save_or_update_event one_match far_future_report
         (source "sofascore" "7")).

End Examples.


(* ===================================================================== *)
(** * Properties of the admission controller                               *)
(* ===================================================================== *)

Section AntiBlockFacts.

Import AntiBlock.
Open Scope Q_scope.

Lemma Qle_bool_false_lt (x y : Q) : Qle_bool x y = false <-> y < x.
Proof.
  split; intro H.
  - apply Qnot_le_lt. intro Hle. apply Qle_bool_iff in Hle. congruence.
  - destruct (Qle_bool x y) eqn:E; [|reflexivity].
    apply Qle_bool_iff in E. exfalso. apply (Qlt_not_le _ _ H E).
Qed.

(** [min] returns its first argument unless the second is smaller. *)
Lemma Qmin_first (x y : Q) : x <= y -> Qmin x y = x.
Proof.
  intro H. unfold Qmin, GenericMinMax.gmin.
  destruct (x ?= y) eqn:E; try reflexivity.
  apply Qgt_alt in E. exfalso. apply (Qlt_not_le _ _ E H).
Qed.





(** C10. The constructor raises [ValueError] exactly when
    [capacity <= 0] or [fill_rate <= 0]; otherwise it succeeds with
    [tokens] set to [initial_tokens] when one is given, also above the
    capacity, and to [capacity] otherwise; tokens above the capacity are
    cut down to it by the first refill. *)
Theorem init_spec :
  forall (w : World) (cap : Z) (rate : Q) (initial_tokens : option Z),
    ((exists x, __init__ w cap rate initial_tokens = inl x)
     <-> ((cap <= 0)%Z \/ rate <= 0))
    /\ ((0 < cap)%Z -> 0 < rate ->
        __init__ w cap rate initial_tokens
        = inr {| capacity := cap;
                 fill_rate := rate;
                 tokens := match initial_tokens with
                           | Some t => inject_Z t
                           | None => inject_Z cap
                           end;
                 last_refill_time := clock w |})
    /\ (forall (self : TokenBucketAntiBlockStrategy) (t : Z) (w' : World),
          __init__ w cap rate initial_tokens = inr self ->
          initial_tokens = Some t ->
          (cap < t)%Z ->
          clock w <= clock w' ->
          inject_Z cap < tokens self
          /\ tokens (_refill_tokens w' self) = inject_Z cap).
Proof.
  intros w cap rate initial_tokens.
  assert (Hguard : (cap <=? 0)%Z || Qle_bool rate 0 = true
                   <-> ((cap <= 0)%Z \/ rate <= 0)).
  { rewrite orb_true_iff, Z.leb_le, Qle_bool_iff. reflexivity. }
  split; [|split].
  - unfold __init__. split.
    + intros [x Hx]. apply Hguard. apply not_false_is_true. intro E.
      rewrite E in Hx. discriminate.
    + intro H. apply Hguard in H. rewrite H. eexists. reflexivity.
  - intros Hcap Hrate. unfold __init__.
    assert (E : (cap <=? 0)%Z || Qle_bool rate 0 = false).
    { apply not_true_is_false. intro E. apply Hguard in E.
      destruct E as [E | E]; [lia | apply (Qlt_not_le _ _ Hrate E)]. }
    rewrite E. reflexivity.
  - intros self t w' Hinit Ht Hlt Hclock. unfold __init__ in Hinit.
    assert (E : (cap <=? 0)%Z || Qle_bool rate 0 = false).
    { apply not_true_is_false. intro E. rewrite E in Hinit. discriminate. }
    rewrite E in Hinit.
    injection Hinit as <-. subst initial_tokens.
    assert (Hrate : 0 < rate).
    { apply orb_false_iff in E. destruct E as [_ E].
      apply Qle_bool_false_lt in E. exact E. }
    cbn [tokens capacity fill_rate last_refill_time _refill_tokens time_time].
    split; [rewrite <- Zlt_Qlt; exact Hlt|].
    apply Qmin_first. unfold time_time.
    assert (0 <= (clock w' - clock w) * rate).
    { apply Qmult_le_0_compat; [lra | apply Qlt_le_weak; exact Hrate]. }
    assert (inject_Z cap < inject_Z t) by (rewrite <- Zlt_Qlt; exact Hlt).
    lra.
Qed.

Lemma init_spec_witness :
  let w := {| clock := 3; overshoot := [] |} in
  let w' := {| clock := 4; overshoot := [] |} in
  let self := {| capacity := 5; fill_rate := 1 # 5; tokens := 8;
                 last_refill_time := 3 |} in
  __init__ w 5 (1 # 5) (Some 8%Z) = inr self
  /\ inject_Z 5 < tokens self
  /\ tokens (_refill_tokens w' self) = inject_Z 5.
Proof.
  intros w w' self.
  split; [reflexivity|].
  refine (proj2 (proj2 (init_spec w 5%Z (1 # 5) (Some 8%Z))) self 8%Z w' _ _ _ _).
  - reflexivity.
  - reflexivity.
  - reflexivity.
  - vm_compute. discriminate.
Defined.

End AntiBlockFacts.


(* ===================================================================== *)
(** * Properties of the canonical store                                    *)
(* ===================================================================== *)

Section DataAccessFacts.

Import DataAccess Spec.
Open Scope Z_scope.

Lemma truthy_obj_some {A : Type} (v : option A) :
  truthy_obj v = true -> exists a, v = Some a.
Proof. destruct v as [a|]; [eauto | discriminate]. Qed.

Lemma truthy_str_some (v : option string) :
  truthy_str v = true -> exists a, v = Some a.
Proof. destruct v as [a|]; [eauto | discriminate]. Qed.

Lemma truthy_int_some (v : option Z) :
  truthy_int v = true -> exists a, v = Some a.
Proof. destruct v as [a|]; [eauto | discriminate]. Qed.

(** What passes the test of the essential data carries the six values. *)
Lemma essential_data_values (d : Normalized.t) (s : SourceData.t) :
  essential_data_present d s = true ->
  exists ts home away sn sid incoming,
    dict_get (Normalized.event_timestamp d) = Some ts
    /\ dict_get (Normalized.home_team_name d) = Some home
    /\ dict_get (Normalized.away_team_name d) = Some away
    /\ SourceData.source_name s = Some sn
    /\ SourceData.source_event_id s = Some sid
    /\ dict_get (Normalized.last_updated_timestamp d) = Some incoming.
Proof.
  unfold essential_data_present. intro H.
  repeat (apply andb_true_iff in H; destruct H as [H ?]).
  destruct (truthy_obj_some _ H) as [ts Hts].
  destruct (truthy_str_some _ H4) as [home Hh].
  destruct (truthy_str_some _ H3) as [away Ha].
  destruct (truthy_str_some _ H2) as [sn Hsn].
  destruct (truthy_str_some _ H1) as [sid Hsid].
  destruct (truthy_int_some _ H0) as [incoming Hi].
  exists ts, home, away, sn, sid, incoming. repeat split; assumption.
Qed.

Lemma option_eqb_string_eq (x y : option string) :
  option_eqb String.eqb x y = true <-> x = y.
Proof.
  destruct x as [a|], y as [b|]; cbn; split; intro H;
    try discriminate; try reflexivity.
  - apply String.eqb_eq in H. congruence.
  - injection H as ->. apply String.eqb_refl.
Qed.

(** The computed [should_update] is the acceptance policy. *)
Lemma should_update_accepts (d : Normalized.t) (incoming : Z)
    (target : Event.t) (stored : Z) :
  Event.last_updated_timestamp target = Some stored ->
  exists b : bool,
    should_update d incoming (dict_get (Normalized.current_game_time d))
      target = inr b
    /\ (b = true <-> accepts d incoming target stored).
Proof.
  intro Hs. unfold should_update, accepts. rewrite Hs.
  destruct (stored <? incoming) eqn:E1.
  - exists true. split; [reflexivity|]. apply Z.ltb_lt in E1. tauto.
  - apply Z.ltb_ge in E1.
    destruct (incoming =? stored) eqn:E2.
    + apply Z.eqb_eq in E2. eexists. split; [reflexivity|].
      rewrite andb_true_iff, orb_true_iff, !option_eqb_string_eq.
      split.
      * intros [Hlive Hg]. right. split; [exact E2|]. split; [exact Hlive|].
        destruct (dict_get (Normalized.current_game_time d)) as [g|];
          [|discriminate].
        exists g. split; [reflexivity|].
        destruct (Event.current_game_time target) as [g0|]; [|exact I].
        apply Z.ltb_lt. exact Hg.
      * intros [Hlt | (_ & Hlive & g & Hg & Hcmp)]; [lia|].
        split; [exact Hlive|]. rewrite Hg.
        destruct (Event.current_game_time target) as [g0|]; [|reflexivity].
        apply Z.ltb_lt. exact Hcmp.
    + apply Z.eqb_neq in E2. exists false. split; [reflexivity|].
      split; [discriminate|]. intros [Hlt | (Heq & _)]; lia.
Qed.

(** The commit of an upsert on an existing target succeeds exactly when
    the constraints are respected, and fails with an integrity error
    otherwise. *)
(** ** The writes *)

Lemma String_kept_none (n : nat) (v : option string) :
  truthy_obj (String_kept n v) = truthy_obj v.
Proof. destruct v; reflexivity. Qed.

Lemma event_not_null_kept (e : Event.t) :
  event_not_null (event_kept e) = event_not_null e.
Proof.
  unfold event_not_null. cbn [event_kept Event.event_name Event.sport_name
    Event.event_status Event.home_team_name Event.away_team_name
    Event.event_timestamp].
  rewrite !String_kept_none. reflexivity.
Qed.

(** What a string that its column does not shorten looks like. *)
Lemma clip_excess (n : nat) (s : string) :
  clip n s = s -> excess n s = EmptyString.
Proof.
  revert s. induction n as [|n IH]; intros [|c s] H; cbn in *;
    try reflexivity; try discriminate.
  injection H as H. apply IH. exact H.
Qed.

Lemma clip_fits (n : nat) (s : string) :
  clip n s = s -> String_fits n (Some s) = true.
Proof. intro H. cbn. rewrite (clip_excess n s H). reflexivity. Qed.

(** UPDATE: the statement goes through exactly when the driver binds the
    row, the types of the columns take it and the constraints hold of
    what the columns keep. *)
Lemma update_event_cases (row : Event.t) (db : Database) :
  (update_accepted db row = true
   /\ update_event row db
      = ({| events := replace_event (event_kept row) (events db);
            event_source_mappings := event_source_mappings db;
            events_id_seq := events_id_seq db;
            event_source_mappings_id_seq :=
              event_source_mappings_id_seq db |},
         inr (event_kept row)))
  \/ (update_accepted db row = false
      /\ exists x, update_event row db = (db, inl x)
                   /\ (x = ValueError \/ x = DataError
                       \/ x = IntegrityError "not-null"
                       \/ (x = IntegrityError "uq_event_canonical"
                           /\ existsb (conflicts_with_other (event_kept row))
                                (events db) = true))).
Proof.
  unfold update_accepted, update_event.
  destruct (event_binds row); cbn [negb andb];
    [|right; split; [reflexivity | eexists; split; [reflexivity | tauto]]].
  destruct (event_fits row); cbn [negb andb];
    [|right; split; [reflexivity | eexists; split; [reflexivity | tauto]]].
  destruct (event_not_null (event_kept row)); cbn [negb andb];
    [|right; split; [reflexivity | eexists; split; [reflexivity | tauto]]].
  destruct (existsb (conflicts_with_other (event_kept row)) (events db));
    cbn [negb andb].
  - right. split; [reflexivity|]. eexists. split; [reflexivity|].
    right. right. right. split; reflexivity.
  - left. split; reflexivity.
Qed.

(** INSERT INTO event_source_mappings, likewise. *)
Lemma insert_mapping_cases (event_id : nat) (sn sid : string)
    (db : Database) :
  let m := new_mapping db event_id sn sid in
  (mapping_insert_accepted db event_id sn sid = true
   /\ insert_mapping event_id sn sid db
      = ({| events := events db;
            event_source_mappings :=
              event_source_mappings db ++ [mapping_kept m];
            events_id_seq := events_id_seq db;
            event_source_mappings_id_seq :=
              S (event_source_mappings_id_seq db) |},
         inr tt))
  \/ (mapping_insert_accepted db event_id sn sid = false
      /\ exists failed x,
           insert_mapping event_id sn sid db = (failed, inl x)
           /\ events failed = events db
           /\ event_source_mappings failed = event_source_mappings db
           /\ events_id_seq failed = events_id_seq db
           /\ ((x = ValueError /\ mapping_binds m = false)
               \/ (x = DataError
                   /\ mapping_accepted db event_id sn sid = false)
               \/ (x = IntegrityError "uq_source_event"
                   /\ existsb (uq_source_event_conflict (mapping_kept m))
                        (event_source_mappings db) = true)
               \/ (x = IntegrityError "uq_event_id_source"
                   /\ existsb (uq_event_id_source_conflict (mapping_kept m))
                        (event_source_mappings db) = true))).
Proof.
  intro m. unfold mapping_insert_accepted, insert_mapping, mapping_accepted.
  fold m.
  destruct (mapping_binds m) eqn:Eb; cbn [negb andb];
    [|right; split; [reflexivity|]; eexists; eexists;
      split; [reflexivity|]; repeat split; tauto].
  destruct (mapping_fits m
            && Integer_fits
                 (Some (Z.of_nat (event_source_mappings_id_seq db))))
    eqn:Ef; cbn [negb andb];
    [|right; split; [reflexivity|]; eexists; eexists;
      split; [reflexivity|]; repeat split; tauto].
  destruct (existsb (uq_source_event_conflict (mapping_kept m))
              (event_source_mappings db)) eqn:E1; cbn [negb andb];
    [right; split; [reflexivity|]; eexists; eexists;
      split; [reflexivity|]; repeat split; tauto|].
  destruct (existsb (uq_event_id_source_conflict (mapping_kept m))
              (event_source_mappings db)) eqn:E2; cbn [negb andb];
    [right; split; [reflexivity|]; eexists; eexists;
      split; [reflexivity|]; repeat split; tauto|].
  left. split; reflexivity.
Qed.

Lemma mapping_insert_accepted_ext (db db' : Database) (event_id : nat)
    (sn sid : string) :
  event_source_mappings db = event_source_mappings db' ->
  event_source_mappings_id_seq db = event_source_mappings_id_seq db' ->
  mapping_insert_accepted db event_id sn sid
  = mapping_insert_accepted db' event_id sn sid.
Proof.
  intros Hm Hs.
  unfold mapping_insert_accepted, mapping_accepted, new_mapping.
  rewrite Hm, Hs. reflexivity.
Qed.

Lemma mapping_accepted_ext (db db' : Database) (event_id : nat)
    (sn sid : string) :
  event_source_mappings_id_seq db = event_source_mappings_id_seq db' ->
  mapping_accepted db event_id sn sid = mapping_accepted db' event_id sn sid.
Proof.
  intros Hs. unfold mapping_accepted, new_mapping.
  rewrite Hs. reflexivity.
Qed.

(** The commit of an upsert on an existing target goes through exactly
    when [commit_succeeds]; it leaves the tables alone and raises
    otherwise. *)
Lemma commit_succeeds_split (db : Database)
    (om : option EventSourceMapping.t) (sn sid : string) (row : Event.t)
    (dirty : bool) :
  commit_succeeds db om sn sid row dirty
  = (if dirty then update_accepted db row else true)
    && match om with
       | Some _ => true
       | None => mapping_insert_accepted db (Event.id row) sn sid
       end.
Proof. reflexivity. Qed.

Lemma save_mapping_and_commit_cases (db : Database)
    (om : option EventSourceMapping.t) (sn sid : string) (row : Event.t)
    (dirty : bool) :
  let kept := if dirty then event_kept row else row in
  (commit_succeeds db om sn sid row dirty = true
   /\ snd (save_mapping_and_commit om sn sid row dirty db) = inr kept
   /\ events (fst (save_mapping_and_commit om sn sid row dirty db))
      = (if dirty then replace_event kept (events db) else events db)
   /\ (om <> None ->
       event_source_mappings
         (fst (save_mapping_and_commit om sn sid row dirty db))
       = event_source_mappings db))
  \/ (commit_succeeds db om sn sid row dirty = false
      /\ exists x,
          snd (save_mapping_and_commit om sn sid row dirty db) = inl x
          /\ (is_IntegrityError x = false ->
              dirty = true
              \/ (om = None
                  /\ mapping_binds (new_mapping db (Event.id row) sn sid)
                     && mapping_accepted db (Event.id row) sn sid = false))).
Proof.
  intro kept. rewrite commit_succeeds_split.
  unfold save_mapping_and_commit.
  destruct dirty.
  - destruct (update_event_cases row db) as [[Hu Hr] | [Hu (x & Hr & Hx)]];
      rewrite Hu, Hr; cbn [andb].
    + destruct om as [m|]; [left; repeat split; reflexivity|].
      match goal with
      | |- context [insert_mapping ?i ?a ?b ?d] =>
          destruct (insert_mapping_cases i a b d)
            as [[Hi Hm] | [Hi (failed & y & Hm & _)]]; rewrite Hm;
          rewrite (mapping_insert_accepted_ext d db i a b eq_refl eq_refl)
            in Hi
      end; cbn [Event.id event_kept] in Hi; rewrite Hi.
      * left. repeat split; try reflexivity. intro H. contradiction.
      * right. split; [reflexivity|]. exists y. split; [reflexivity|].
        intros _. left. reflexivity.
    + right. split; [reflexivity|]. exists x. split; [reflexivity|].
      intros _. left. reflexivity.
  - cbn [andb].
    destruct om as [m|]; [left; repeat split; reflexivity|].
    destruct (insert_mapping_cases (Event.id row) sn sid db)
      as [[Hi Hm] | [Hi (failed & y & Hm & _ & _ & _ & Hy)]];
      rewrite Hi, Hm.
    + left. repeat split; try reflexivity. intro H. contradiction.
    + right. split; [reflexivity|]. exists y. split; [reflexivity|].
      intro Hn. right. split; [reflexivity|].
      destruct Hy as [[-> Hb] | [[-> Hf] | [[-> _] | [-> _]]]];
        try discriminate.
      * rewrite Hb. reflexivity.
      * rewrite Hf. apply andb_false_r.
Qed.

Lemma rollback_events (committed failed : Database) :
  events (rollback committed failed) = events committed.
Proof. reflexivity. Qed.

Lemma rollback_mappings (committed failed : Database) :
  event_source_mappings (rollback committed failed)
  = event_source_mappings committed.
Proof. reflexivity. Qed.

Lemma query_event_by_key_rollback (committed failed : Database)
    (ts : datetime) (home away : string) (league : option string) :
  query_event_by_key (rollback committed failed) ts home away league
  = query_event_by_key committed ts home away league.
Proof. reflexivity. Qed.

(** The method on data that passes the test of the essential data. *)
Lemma save_or_update_event_racing_unfold (seen now : Database)
    (d : Normalized.t) (s : SourceData.t) (ts : datetime)
    (home away sn sid : string) (incoming : Z) :
  essential_data_present d s = true ->
  dict_get (Normalized.event_timestamp d) = Some ts ->
  dict_get (Normalized.home_team_name d) = Some home ->
  dict_get (Normalized.away_team_name d) = Some away ->
  SourceData.source_name s = Some sn ->
  SourceData.source_event_id s = Some sid ->
  dict_get (Normalized.last_updated_timestamp d) = Some incoming ->
  save_or_update_event_racing seen now d s
  = match try_body seen d sn sid ts home away
            (dict_get (Normalized.league_id d)) incoming
            (dict_get (Normalized.current_game_time d)) now with
    | (db, inr existing_event) => (db, Some existing_event)
    | (failed, inl x) =>
        if is_IntegrityError x then
          (rollback now failed,
           query_event_by_key (rollback now failed) ts home away
             (dict_get (Normalized.league_id d)))
        else (rollback now failed, None)
    end.
Proof.
  intros Hess Hts Hh Ha Hsn Hsid Hi. unfold save_or_update_event_racing.
  rewrite Hess, Hts, Hh, Ha, Hsn, Hsid, Hi. reflexivity.
Qed.

(** An upsert whose target exists: what it leaves and what it
    returns. *)

(** What a successful resolution of the target tells. *)
Lemma resolve_target_inv (db : Database) (sn sid : string) (ts : datetime)
    (home away : string) (league : option string)
    (om : option EventSourceMapping.t) (t : option Event.t) :
  resolve_target db sn sid ts home away league = inr (om, t) ->
  has_nul sn = false /\ has_nul sid = false
  /\ ((exists m e, om = Some m /\ t = Some e
                   /\ query_mapping db sn sid = Some m
                   /\ mapping_event db m = Some e)
      \/ (om = None /\ query_mapping db sn sid = None
          /\ has_nul home = false /\ has_nul away = false
          /\ binds league = true
          /\ t = query_event_by_key db ts home away league)).
Proof.
  unfold resolve_target.
  destruct (has_nul sn) eqn:E1; [discriminate|].
  destruct (has_nul sid) eqn:E2; [discriminate|]. cbn [orb].
  destruct (query_mapping db sn sid) as [m|] eqn:Em.
  - destruct (mapping_event db m) as [e|] eqn:Ee; [|discriminate].
    intro H. injection H as <- <-.
    split; [reflexivity|]. split; [reflexivity|].
    left. exists m, e. repeat split; assumption.
  - destruct (has_nul home) eqn:E3; [discriminate|].
    destruct (has_nul away) eqn:E4; [discriminate|]. cbn [orb].
    destruct (binds league) eqn:E5; [|discriminate]. cbn [negb].
    intro H. injection H as <- <-.
    split; [reflexivity|]. split; [reflexivity|].
    right. repeat split; reflexivity.
Qed.

Lemma mapping_binds_new (db : Database) (eid : nat) (sn sid : string) :
  has_nul sn = false -> has_nul sid = false ->
  mapping_binds (new_mapping db eid sn sid) = true.
Proof.
  intros H1 H2. unfold mapping_binds, new_mapping.
  cbn [EventSourceMapping.source_name EventSourceMapping.source_event_id].
  rewrite H1, H2. reflexivity.
Qed.

Lemma overwrite_overwritten_by (target : Event.t) (d : Normalized.t)
    (sn : string) (incoming : Z) :
  overwritten_by d sn incoming target (overwrite target d sn incoming).
Proof.
  unfold overwritten_by, overwrite, field_overwritten.
  cbn [Event.id Event.event_name Event.sport_name Event.event_status
       Event.current_game_time Event.home_team_name Event.away_team_name
       Event.home_score Event.away_score Event.league_name Event.league_id
       Event.event_timestamp Event.last_data_source
       Event.last_updated_timestamp Event.statistics].
  repeat split;
    match goal with
    | |- match ?f with _ => _ end => destruct f; reflexivity
    end.
Qed.

(** An upsert whose target exists: what it leaves and what it
    returns. *)
Lemma existing_target_outcome (db : Database) (d : Normalized.t)
    (s : SourceData.t) (ts : datetime) (home away sn sid : string)
    (incoming : Z) (om : option EventSourceMapping.t) (target : Event.t)
    (stored : Z) :
  essential_data_present d s = true ->
  dict_get (Normalized.event_timestamp d) = Some ts ->
  dict_get (Normalized.home_team_name d) = Some home ->
  dict_get (Normalized.away_team_name d) = Some away ->
  SourceData.source_name s = Some sn ->
  SourceData.source_event_id s = Some sid ->
  dict_get (Normalized.last_updated_timestamp d) = Some incoming ->
  resolve_target db sn sid ts home away
    (dict_get (Normalized.league_id d)) = inr (om, Some target) ->
  Event.last_updated_timestamp target = Some stored ->
  let merged := overwrite target d sn incoming in
  let outcome := save_or_update_event db d s in
  (accepts d incoming target stored
   /\ commit_succeeds db om sn sid merged true = true ->
   events (fst outcome) = replace_event (event_kept merged) (events db)
   /\ snd outcome = Some (event_kept merged))
  /\ (~ (accepts d incoming target stored
         /\ commit_succeeds db om sn sid merged true = true) ->
      events (fst outcome) = events db)
  /\ (~ accepts d incoming target stored ->
      (om = None ->
       mapping_accepted db (Event.id target) sn sid = true) ->
      snd outcome = Some target)
  /\ (om <> None ->
      event_source_mappings (fst outcome) = event_source_mappings db).
Proof.
  intros Hess Hts Hh Ha Hsn Hsid Hi Hres Hstored merged outcome.
  subst outcome. unfold save_or_update_event.
  rewrite (save_or_update_event_racing_unfold db db d s ts home away sn sid
             incoming Hess Hts Hh Ha Hsn Hsid Hi).
  unfold try_body. rewrite Hres. unfold merge_existing.
  destruct (should_update_accepts d incoming target stored Hstored)
    as [b [Hb Hiff]].
  rewrite Hb. destruct b.
  - fold merged.
    assert (Hacc : accepts d incoming target stored)
      by (apply Hiff; reflexivity).
    destruct (save_mapping_and_commit_cases db om sn sid merged true)
      as [(Hc & Hr & He & Hm) | (Hc & x & Hr & _)];
      destruct (save_mapping_and_commit om sn sid merged true db)
        as [db1 r]; cbn [fst snd] in *; subst r.
    + split; [|split; [|split]].
      * intros _. split; [exact He | reflexivity].
      * intro Hn. exfalso. apply Hn. split; assumption.
      * intro Hn. contradiction.
      * exact Hm.
    + split; [|split; [|split]].
      * intros [_ Hc']. congruence.
      * intros _. destruct (is_IntegrityError x); reflexivity.
      * intro Hn. contradiction.
      * intros _. destruct (is_IntegrityError x); reflexivity.
  - assert (Hna : ~ accepts d incoming target stored)
      by (intro Hacc; apply Hiff in Hacc; discriminate).
    destruct (save_mapping_and_commit_cases db om sn sid target false)
      as [(Hc & Hr & He & Hm) | (Hc & x & Hr & Hx)];
      destruct (save_mapping_and_commit om sn sid target false db)
        as [db1 r] eqn:Ecommit; cbn [fst snd] in *; subst r.
    + split; [|split; [|split]].
      * intros [Hacc _]. contradiction.
      * intros _. exact He.
      * intros _ _. reflexivity.
      * exact Hm.
    + destruct (resolve_target_inv _ _ _ _ _ _ _ _ _ Hres)
        as (Hn1 & Hn2 & Hcase).
      split; [|split; [|split]].
      * intros [Hacc _]. contradiction.
      * intros _. destruct (is_IntegrityError x); reflexivity.
      * intros _ Hfit.
        destruct (is_IntegrityError x) eqn:Ex.
        -- cbn [fst snd]. rewrite query_event_by_key_rollback.
           destruct Hcase as [(m & e & -> & _ & _ & _)
                             | (-> & _ & _ & _ & _ & Hq)].
           ++ unfold save_mapping_and_commit in Ecommit. discriminate.
           ++ symmetry. exact Hq.
        -- exfalso. destruct (Hx eq_refl) as [Hd | [Hom Hf]];
             [discriminate|].
           rewrite (mapping_binds_new db _ sn sid Hn1 Hn2) in Hf.
           rewrite (Hfit Hom) in Hf. discriminate.
      * intros _. destruct (is_IntegrityError x); reflexivity.
Qed.

(** C1, as amended.  For every upsert whose merge target already
    existed: the row [merged] is the target with every field of the
    incoming record written over it, and with the provider and the
    update time of the observation; the table holds it, as its columns
    keep it, exactly when the acceptance policy holds and the commit goes
    through (the values are bound and taken by the types of the columns,
    and the constraints of the two tables hold); in every other case the
    table of events is left untouched; and when the policy rejects the
    observation the call still returns the existing target, provided the
    types of the columns take the mapping of a source that had none. *)
Theorem merge_acceptance_policy :
  forall (db : Database) (d : Normalized.t) (s : SourceData.t)
         (ts : datetime) (home away sn sid : string) (incoming : Z)
         (om : option EventSourceMapping.t) (target : Event.t) (stored : Z),
    essential_data_present d s = true ->
    dict_get (Normalized.event_timestamp d) = Some ts ->
    dict_get (Normalized.home_team_name d) = Some home ->
    dict_get (Normalized.away_team_name d) = Some away ->
    SourceData.source_name s = Some sn ->
    SourceData.source_event_id s = Some sid ->
    dict_get (Normalized.last_updated_timestamp d) = Some incoming ->
    resolve_target db sn sid ts home away
      (dict_get (Normalized.league_id d)) = inr (om, Some target) ->
    Event.last_updated_timestamp target = Some stored ->
    let merged := overwrite target d sn incoming in
    let outcome := save_or_update_event db d s in
    overwritten_by d sn incoming target merged
    /\ (accepts d incoming target stored
        /\ commit_succeeds db om sn sid merged true = true ->
        events (fst outcome) = replace_event (event_kept merged) (events db)
        /\ snd outcome = Some (event_kept merged))
    /\ (~ (accepts d incoming target stored
           /\ commit_succeeds db om sn sid merged true = true) ->
        events (fst outcome) = events db)
    /\ (~ accepts d incoming target stored ->
        (om = None ->
         mapping_accepted db (Event.id target) sn sid = true) ->
        snd outcome = Some target).
Proof.
  intros db d s ts home away sn sid incoming om target stored
    Hess Hts Hh Ha Hsn Hsid Hi Hres Hstored merged outcome.
  destruct (existing_target_outcome db d s ts home away sn sid incoming om
              target stored Hess Hts Hh Ha Hsn Hsid Hi Hres Hstored)
    as (H1 & H2 & H3 & _).
  split; [apply overwrite_overwritten_by|].
  split; [exact H1|]. split; [exact H2 | exact H3].
Qed.

Lemma merge_acceptance_policy_witness :
  let outcome :=
    save_or_update_event Examples.one_match Examples.later_report
      (Examples.source "sofascore" "1") in
  let merged :=
    overwrite Examples.stored_match Examples.later_report "sofascore" 200 in
  Event.home_score merged = Some 1
  /\ Event.event_status merged = Some "inprogress"%string
  /\ events (fst outcome) = [merged]
  /\ snd outcome = Some merged.
Proof.
  intros outcome merged.
  pose proof
    (merge_acceptance_policy Examples.one_match
       Examples.later_report (Examples.source "sofascore" "1")
       Examples.kickoff "A" "B" "sofascore" "1" 200
       (Some Examples.sofascore_1) Examples.stored_match 100
       eq_refl eq_refl eq_refl eq_refl eq_refl eq_refl eq_refl
       eq_refl eq_refl) as (Hover & Hacc & _).
  destruct Hover as (_ & _ & _ & Hstatus & _ & _ & _ & Hscore & _).
  split; [exact Hscore|]. split; [exact Hstatus|].
  apply Hacc. split; [left; reflexivity | reflexivity].
Defined.

(** C1 as stated fails: the match is known to sofascore as event 1; the
    same provider reports it again as event 2 with a newer timestamp.  The
    target exists and the policy accepts, but the new mapping breaks
    [uq_event_id_source], the commit is rolled back and the target keeps
    its fields. *)
Lemma accepted_merge_rolled_back :
  resolve_target Examples.one_match "sofascore" "2" Examples.kickoff
    "A" "B" (Some "10"%string)
  = inr (None, Some Examples.stored_match)
  /\ accepts Examples.later_report 200 Examples.stored_match 100
  /\ events (fst (save_or_update_event Examples.one_match
                    Examples.later_report (Examples.source "sofascore" "2")))
     = [Examples.stored_match]
  /\ overwrite Examples.stored_match Examples.later_report "sofascore" 200
     <> Examples.stored_match.
Proof.
  split; [reflexivity|]. split; [left; reflexivity|].
  split; [reflexivity|]. discriminate.
Qed.

(** The same with a value that the type of its column refuses: a home
    score of 2^31.  The policy accepts the report, the UPDATE raises
    [DataError], the generic handler rolls back and the call returns
    [None]. *)
Lemma accepted_merge_out_of_range :
  accepts Examples.report_out_of_range 200 Examples.stored_match 100
  /\ save_or_update_event Examples.one_match Examples.report_out_of_range
       (Examples.source "sofascore" "1")
     = (Examples.one_match, None).
Proof. split; [left; reflexivity | reflexivity]. Qed.

Lemma truthy_str_false (v : option string) :
  truthy_str v = false <-> (v = None \/ v = Some EmptyString).
Proof.
  destruct v as [a|]; cbn.
  - rewrite negb_false_iff, String.eqb_eq. split.
    + intros ->. right. reflexivity.
    + intros [H | H]; [discriminate | congruence].
  - split; [left; reflexivity | reflexivity].
Qed.

Lemma truthy_int_false (v : option Z) :
  truthy_int v = false <-> (v = None \/ v = Some 0).
Proof.
  destruct v as [a|]; cbn.
  - rewrite negb_false_iff, Z.eqb_eq. split.
    + intros ->. right. reflexivity.
    + intros [H | H]; [discriminate | congruence].
  - split; [left; reflexivity | reflexivity].
Qed.

Lemma truthy_obj_false {A : Type} (v : option A) :
  truthy_obj v = false <-> v = None.
Proof. destruct v; cbn; split; congruence. Qed.

Lemma essential_data_present_false (d : Normalized.t) (s : SourceData.t) :
  essential_data_present d s = false <-> essential_data_missing d s.
Proof.
  unfold essential_data_present, essential_data_missing.
  rewrite !andb_false_iff, !truthy_str_false, truthy_int_false,
    truthy_obj_false.
  tauto.
Qed.

(** C8, as amended.  The call returns the failure outcome without
    attempting the merge exactly when one of start instant, home team
    name, away team name, provider name, provider event id (absent or
    empty) or update time (absent or zero) is missing; event name and
    sport are not looked at.  With all six present the merge is
    attempted: the outcome is that of the transaction. *)
Theorem validation_guard :
  forall (db : Database) (d : Normalized.t) (s : SourceData.t),
    (essential_data_present d s = false <-> essential_data_missing d s)
    /\ (essential_data_missing d s ->
        save_or_update_event db d s = (db, None))
    /\ (~ essential_data_missing d s ->
        exists ts home away sn sid incoming,
          dict_get (Normalized.event_timestamp d) = Some ts
          /\ dict_get (Normalized.home_team_name d) = Some home
          /\ dict_get (Normalized.away_team_name d) = Some away
          /\ SourceData.source_name s = Some sn
          /\ SourceData.source_event_id s = Some sid
          /\ dict_get (Normalized.last_updated_timestamp d) = Some incoming
          /\ save_or_update_event db d s
             = match try_body db d sn sid ts home away
                       (dict_get (Normalized.league_id d)) incoming
                       (dict_get (Normalized.current_game_time d)) db with
               | (db', inr existing_event) => (db', Some existing_event)
               | (failed, inl x) =>
                   if is_IntegrityError x then
                     (rollback db failed,
                      query_event_by_key (rollback db failed) ts home away
                        (dict_get (Normalized.league_id d)))
                   else (rollback db failed, None)
               end).
Proof.
  intros db d s. split; [apply essential_data_present_false|]. split.
  - intro H. apply essential_data_present_false in H.
    unfold save_or_update_event, save_or_update_event_racing.
    rewrite H. reflexivity.
  - intro H.
    assert (Hess : essential_data_present d s = true).
    { apply not_false_is_true. intro E. apply H.
      apply essential_data_present_false. exact E. }
    destruct (essential_data_values d s Hess)
      as (ts & home & away & sn & sid & incoming & Hts & Hh & Ha & Hsn
          & Hsid & Hi).
    exists ts, home, away, sn, sid, incoming.
    repeat (split; [assumption|]).
    apply save_or_update_event_racing_unfold; assumption.
Qed.

Lemma validation_guard_witness :
  essential_data_missing Examples.report_without_update_time
    (Examples.source "sofascore" "1")
  /\ save_or_update_event Examples.one_match
       Examples.report_without_update_time (Examples.source "sofascore" "1")
     = (Examples.one_match, None).
Proof.
  assert (H : essential_data_missing Examples.report_without_update_time
                (Examples.source "sofascore" "1")).
  { unfold essential_data_missing. cbn. tauto. }
  split; [exact H|].
  apply (proj1 (proj2 (validation_guard Examples.one_match
                         Examples.report_without_update_time
                         (Examples.source "sofascore" "1")))).
  exact H.
Defined.

(** C8 as stated fails in both directions: a record with its five
    required fields and its source pair is turned down because it lacks
    the update time; a record without event name and sport is merged into
    the existing event. *)
Lemma required_fields_are_not_the_guard :
  (required_fields_present Examples.report_without_update_time
   /\ snd (save_or_update_event Examples.one_match
             Examples.report_without_update_time
             (Examples.source "sofascore" "1")) = None)
  /\ (~ required_fields_present Examples.report_without_names
      /\ snd (save_or_update_event Examples.one_match
                Examples.report_without_names
                (Examples.source "sofascore" "1"))
         = Some (overwrite Examples.stored_match
                   Examples.report_without_names "sofascore" 200)).
Proof.
  split; split.
  - unfold required_fields_present. cbn. repeat split; eexists; reflexivity.
  - reflexivity.
  - intros [[v Hv] _]. discriminate.
  - reflexivity.
Qed.

(** ** Recovery from an integrity error *)


Lemma find_exists {A : Type} (P : A -> bool) (l : list A) :
  existsb P l = true -> exists y, find P l = Some y.
Proof.
  induction l as [|x l IH]; cbn; [discriminate|].
  destruct (P x); [eauto | exact IH].
Qed.

Lemma find_none_existsb {A : Type} (P : A -> bool) (l : list A) :
  find P l = None -> existsb P l = false.
Proof.
  induction l as [|x l IH]; cbn; [reflexivity|].
  destruct (P x); [discriminate | exact IH].
Qed.

Lemma setattr_dict_get {A : Type} (old : option A) (f : Field A) (v : A) :
  dict_get f = Some v -> setattr old f = Some v.
Proof. destruct f; cbn; congruence. Qed.

Lemma setattr_bound {A : Type} (old : option A) (f : Field A) :
  f <> Absent -> setattr old f = dict_get f.
Proof. destruct f; cbn; congruence. Qed.

Lemma unique_col_eqb_string (x y : option string) :
  unique_col_eqb String.eqb x y = true -> exists v, x = Some v /\ y = Some v.
Proof.
  destruct x as [a|], y as [b|]; cbn; try discriminate.
  intro H. apply String.eqb_eq in H. subst. eauto.
Qed.

Lemma unique_col_eqb_Z (x y : option Z) :
  unique_col_eqb Z.eqb x y = true -> exists v, x = Some v /\ y = Some v.
Proof.
  destruct x as [a|], y as [b|]; cbn; try discriminate.
  intro H. apply Z.eqb_eq in H. subst. eauto.
Qed.

(** A row in conflict with [row] under [uq_event_canonical] is found by
    the query on the key of [row]. *)
Lemma conflict_matches_key (row x : Event.t) (ts : datetime)
    (home away : string) (league : option string) :
  Event.event_timestamp row = Some ts ->
  Event.home_team_name row = Some home ->
  Event.away_team_name row = Some away ->
  Event.league_id row = league ->
  uq_event_canonical_conflict row x = true ->
  event_key_matches ts home away league x = true.
Proof.
  intros Hts Hh Ha Hl H. unfold uq_event_canonical_conflict in H.
  repeat (apply andb_true_iff in H; destruct H as [H ?]).
  apply unique_col_eqb_Z in H. destruct H as (v1 & E1 & E1').
  apply unique_col_eqb_string in H2. destruct H2 as (v2 & E2 & E2').
  apply unique_col_eqb_string in H1. destruct H1 as (v3 & E3 & E3').
  apply unique_col_eqb_string in H0. destruct H0 as (v4 & E4 & E4').
  unfold event_key_matches.
  rewrite E1', E2', E3', E4'. subst league.
  rewrite E4. cbn.
  replace v1 with ts by congruence.
  replace v2 with home by congruence.
  replace v3 with away by congruence.
  rewrite Z.eqb_refl, !String.eqb_refl. reflexivity.
Qed.

Lemma conflict_found_by_key (db : Database) (row : Event.t)
    (P : Event.t -> bool) (ts : datetime) (home away : string)
    (league : option string) :
  Event.event_timestamp row = Some ts ->
  Event.home_team_name row = Some home ->
  Event.away_team_name row = Some away ->
  Event.league_id row = league ->
  existsb (fun x => P x && uq_event_canonical_conflict row x) (events db)
  = true ->
  exists e, query_event_by_key db ts home away league = Some e.
Proof.
  intros Hts Hh Ha Hl H. apply existsb_exists in H.
  destruct H as (x & Hin & Hx). apply andb_true_iff in Hx.
  destruct Hx as [_ Hx]. apply find_exists. apply existsb_exists.
  exists x. split; [exact Hin|].
  apply (conflict_matches_key row); assumption.
Qed.

(** A source without mapping cannot break [uq_source_event]. *)
Lemma unmapped_source_no_conflict (db : Database) (eid : nat)
    (sn sid : string) (m : EventSourceMapping.t) :
  query_mapping db sn sid = None ->
  EventSourceMapping.source_name m = sn ->
  EventSourceMapping.source_event_id m = sid ->
  existsb (uq_source_event_conflict m) (event_source_mappings db) = false.
Proof.
  intros Hq Hsn Hsid. unfold query_mapping in Hq.
  induction (event_source_mappings db) as [|x l IH]; [reflexivity|].
  cbn in Hq |- *. unfold uq_source_event_conflict at 1.
  rewrite Hsn, Hsid.
  rewrite (String.eqb_sym sn), (String.eqb_sym sid).
  destruct (String.eqb (EventSourceMapping.source_name x) sn
            && String.eqb (EventSourceMapping.source_event_id x) sid);
    [discriminate|].
  cbn. apply IH. exact Hq.
Qed.


(** INSERT INTO events: what it does. *)
Lemma insert_event_cases (d : Normalized.t) (sn : string) (db : Database) :
  let row := new_event (events_id_seq db) d sn in
  (insert_accepted db d sn = true
   /\ insert_event d sn db
      = ({| events := events db ++ [event_kept row];
            event_source_mappings := event_source_mappings db;
            events_id_seq := S (events_id_seq db);
            event_source_mappings_id_seq :=
              event_source_mappings_id_seq db |},
         inr (event_kept row)))
  \/ (insert_accepted db d sn = false
      /\ exists failed x,
           insert_event d sn db = (failed, inl x)
           /\ events failed = events db
           /\ event_source_mappings failed = event_source_mappings db
           /\ event_source_mappings_id_seq failed
              = event_source_mappings_id_seq db
           /\ (x = ValueError \/ x = DataError
               \/ x = IntegrityError "not-null"
               \/ (x = IntegrityError "uq_event_canonical"
                   /\ existsb (uq_event_canonical_conflict (event_kept row))
                        (events db) = true))).
Proof.
  intro row. unfold insert_accepted, insert_event. fold row.
  destruct (event_binds row); cbn [negb andb];
    [|right; split; [reflexivity|]; eexists; eexists;
      split; [reflexivity|]; repeat split; tauto].
  destruct (event_fits row
            && Integer_fits (Some (Z.of_nat (events_id_seq db))));
    cbn [negb andb];
    [|right; split; [reflexivity|]; eexists; eexists;
      split; [reflexivity|]; repeat split; tauto].
  destruct (event_not_null (event_kept row)); cbn [negb andb];
    [|right; split; [reflexivity|]; eexists; eexists;
      split; [reflexivity|]; repeat split; tauto].
  destruct (existsb (uq_event_canonical_conflict (event_kept row))
              (events db)) eqn:E; cbn [negb andb].
  - right. split; [reflexivity|]. eexists; eexists.
    split; [reflexivity|]. repeat split.
    right. right. right. split; reflexivity.
  - left. split; reflexivity.
Qed.

(** How the commit of an upsert can break a constraint. *)
Lemma save_mapping_and_commit_failure (db failed : Database)
    (om : option EventSourceMapping.t) (sn sid : string) (row : Event.t)
    (dirty : bool) (c : string) :
  save_mapping_and_commit om sn sid row dirty db
  = (failed, inl (IntegrityError c)) ->
  (dirty = true /\ c = "not-null"%string)
  \/ (dirty = true /\ c = "uq_event_canonical"%string
      /\ existsb (conflicts_with_other (event_kept row)) (events db) = true)
  \/ (om = None /\ c = "uq_source_event"%string
      /\ existsb
           (uq_source_event_conflict
              (mapping_kept (new_mapping db (Event.id row) sn sid)))
           (event_source_mappings db) = true)
  \/ (om = None /\ c = "uq_event_id_source"%string
      /\ exists m, In m (event_source_mappings db)
                   /\ EventSourceMapping.event_id m = Event.id row).
Proof.
  assert (Hid : forall (db0 : Database) (i : nat),
             existsb
               (uq_event_id_source_conflict
                  (mapping_kept (new_mapping db0 i sn sid)))
               (event_source_mappings db) = true ->
             exists m, In m (event_source_mappings db)
                       /\ EventSourceMapping.event_id m = i).
  { intros db0 i E2. apply existsb_exists in E2.
    destruct E2 as (m & Hin & Hm). exists m. split; [exact Hin|].
    unfold uq_event_id_source_conflict in Hm.
    apply andb_true_iff in Hm. destruct Hm as [Hm _].
    apply Nat.eqb_eq in Hm. cbn in Hm. congruence. }
  unfold save_mapping_and_commit.
  destruct dirty.
  - destruct (update_event_cases row db) as [[Hu Hr] | [Hu (x & Hr & Hx)]];
      rewrite Hr.
    + destruct om as [m|]; [discriminate|].
      match goal with
      | |- context [insert_mapping ?i ?a ?b ?d] =>
          destruct (insert_mapping_cases i a b d)
            as [[Hi Hm] | [Hi (f & y & Hm & _ & _ & _ & Hy)]]; rewrite Hm
      end; [discriminate|].
      intro H. injection H as _ ->.
      destruct Hy as [[Hy _] | [[Hy _] | [[Hy E] | [Hy E]]]];
        try discriminate; injection Hy as <-.
      * right. right. left. split; [reflexivity|]. split; [reflexivity|].
        exact E.
      * right. right. right. split; [reflexivity|]. split; [reflexivity|].
        apply (Hid _ _ E).
    + intro H. injection H as _ ->.
      destruct Hx as [Hx | [Hx | [Hx | [Hx E]]]]; try discriminate;
        injection Hx as <-.
      * left. split; reflexivity.
      * right. left. repeat split. exact E.
  - destruct om as [m|]; [discriminate|].
    destruct (insert_mapping_cases (Event.id row) sn sid db)
      as [[Hi Hm] | [Hi (f & y & Hm & _ & _ & _ & Hy)]]; rewrite Hm;
      [discriminate|].
    intro H. injection H as _ ->.
    destruct Hy as [[Hy _] | [[Hy _] | [[Hy E] | [Hy E]]]];
      try discriminate; injection Hy as <-.
    + right. right. left. split; [reflexivity|]. split; [reflexivity|].
      exact E.
    + right. right. right. split; [reflexivity|]. split; [reflexivity|].
      apply (Hid _ _ E).
Qed.

Lemma overwrite_key (target : Event.t) (d : Normalized.t) (sn : string)
    (incoming : Z) (ts : datetime) (home away : string) :
  dict_get (Normalized.event_timestamp d) = Some ts ->
  dict_get (Normalized.home_team_name d) = Some home ->
  dict_get (Normalized.away_team_name d) = Some away ->
  Normalized.league_id d <> Absent ->
  let merged := overwrite target d sn incoming in
  Event.event_timestamp merged = Some ts
  /\ Event.home_team_name merged = Some home
  /\ Event.away_team_name merged = Some away
  /\ Event.league_id merged = dict_get (Normalized.league_id d).
Proof.
  intros Hts Hh Ha Hl. cbn.
  rewrite (setattr_dict_get _ _ _ Hts), (setattr_dict_get _ _ _ Hh),
    (setattr_dict_get _ _ _ Ha), (setattr_bound _ _ Hl).
  repeat split; reflexivity.
Qed.

Lemma should_update_raises (d : Normalized.t) (incoming : Z)
    (cgt : option Z) (target : Event.t) (x : Exception) :
  should_update d incoming cgt target = inl x -> x = TypeError.
Proof.
  unfold should_update.
  destruct (Event.last_updated_timestamp target) as [stored|];
    [|congruence].
  destruct (stored <? incoming); [discriminate|].
  destruct (incoming =? stored); discriminate.
Qed.

(** The dedup key of a rewritten row and of a new row, as the columns
    keep it. *)
Lemma kept_key (row : Event.t) (ts : datetime) (home away : string)
    (league : option string) :
  Event.event_timestamp row = Some ts ->
  Event.home_team_name row = Some home ->
  Event.away_team_name row = Some away ->
  Event.league_id row = league ->
  key_stored_as_is home away league ->
  Event.event_timestamp (event_kept row) = Some ts
  /\ Event.home_team_name (event_kept row) = Some home
  /\ Event.away_team_name (event_kept row) = Some away
  /\ Event.league_id (event_kept row) = league.
Proof.
  intros Hts Hh Ha Hl (Kh & Ka & Kl).
  cbn [event_kept Event.event_timestamp Event.home_team_name
       Event.away_team_name Event.league_id].
  rewrite Hts, Hh, Ha, Hl. cbn [String_kept]. rewrite Kh, Ka, Kl.
  repeat split; reflexivity.
Qed.

Lemma find_some_in {A : Type} (P : A -> bool) (l : list A) (x : A) :
  find P l = Some x -> In x l /\ P x = true.
Proof. apply find_some. Qed.

(** A violation of [uq_event_canonical] always leaves an event with the
    incoming key to be read again, whoever wrote it. *)
Lemma canonical_violation_finds_event (seen now failed : Database)
    (d : Normalized.t) (sn sid : string) (ts : datetime)
    (home away : string) (incoming : Z) :
  dict_get (Normalized.event_timestamp d) = Some ts ->
  dict_get (Normalized.home_team_name d) = Some home ->
  dict_get (Normalized.away_team_name d) = Some away ->
  Normalized.league_id d <> Absent ->
  key_stored_as_is home away (dict_get (Normalized.league_id d)) ->
  try_body seen d sn sid ts home away (dict_get (Normalized.league_id d))
    incoming (dict_get (Normalized.current_game_time d)) now
  = (failed, inl (IntegrityError "uq_event_canonical")) ->
  exists e,
    query_event_by_key now ts home away (dict_get (Normalized.league_id d))
    = Some e.
Proof.
  intros Hts Hh Ha Hl Hk. unfold try_body.
  destruct (resolve_target seen sn sid ts home away
              (dict_get (Normalized.league_id d)))
    as [x | [om [target|]]] eqn:Hres.
  - intro H. injection H as _ H.
    unfold resolve_target in Hres.
    destruct (has_nul sn || has_nul sid); [congruence|].
    destruct (query_mapping seen sn sid) as [m|].
    + destruct (mapping_event seen m); congruence.
    + destruct (has_nul home || has_nul away
                || negb (binds (dict_get (Normalized.league_id d))));
        congruence.
  - unfold merge_existing.
    destruct (should_update d incoming _ target) as [x | [|]] eqn:Es.
    + apply should_update_raises in Es. subst x. discriminate.
    + intro H. apply save_mapping_and_commit_failure in H.
      destruct H as [(_ & H) | [(_ & _ & Hex) | [(_ & H & _) | (_ & H & _)]]];
        try discriminate.
      destruct (overwrite_key target d sn incoming ts home away
                  Hts Hh Ha Hl) as (K1 & K2 & K3 & K4).
      destruct (kept_key _ ts home away _ K1 K2 K3 K4 Hk)
        as (J1 & J2 & J3 & J4).
      apply (conflict_found_by_key now _ _ ts home away _ J1 J2 J3 J4 Hex).
    + intro H. apply save_mapping_and_commit_failure in H.
      destruct H as [(H & _) | [(H & _) | [(_ & H & _) | (_ & H & _)]]];
        discriminate.
  - destruct (insert_event_cases d sn now)
      as [[Hi Hr] | [Hi (f & x & Hr & _ & _ & _ & Hx)]]; rewrite Hr.
    + intro H. apply save_mapping_and_commit_failure in H.
      destruct H as [(H & _) | [(H & _) | [(_ & H & _) | (_ & H & _)]]];
        discriminate.
    + intro H. injection H as _ ->.
      destruct Hx as [Hx | [Hx | [Hx | [_ Hex]]]]; try discriminate.
      assert (Hex' : existsb
                       (fun x => true
                                 && uq_event_canonical_conflict
                                      (event_kept
                                         (new_event (events_id_seq now) d sn))
                                      x)
                       (events now) = true) by exact Hex.
      destruct (kept_key (new_event (events_id_seq now) d sn) ts home away
                  (dict_get (Normalized.league_id d)) Hts Hh Ha eq_refl Hk)
        as (J1 & J2 & J3 & J4).
      apply (conflict_found_by_key now _ (fun _ => true) ts home away _
               J1 J2 J3 J4 Hex').
Qed.

(** Without interleaving writers, a violated uniqueness constraint
    always leaves an event with the incoming key to be read again. *)
Lemma uniqueness_violation_finds_event (db failed : Database)
    (d : Normalized.t) (sn sid : string) (ts : datetime)
    (home away : string) (incoming : Z) (c : string) :
  dict_get (Normalized.event_timestamp d) = Some ts ->
  dict_get (Normalized.home_team_name d) = Some home ->
  dict_get (Normalized.away_team_name d) = Some away ->
  Normalized.league_id d <> Absent ->
  key_stored_as_is home away (dict_get (Normalized.league_id d)) ->
  source_stored_as_is sn sid ->
  foreign_keys_hold db ->
  c <> "not-null"%string ->
  try_body db d sn sid ts home away (dict_get (Normalized.league_id d))
    incoming (dict_get (Normalized.current_game_time d)) db
  = (failed, inl (IntegrityError c)) ->
  exists e,
    query_event_by_key db ts home away (dict_get (Normalized.league_id d))
    = Some e.
Proof.
  intros Hts Hh Ha Hl Hk (_ & _ & Hsn & Hsid) Hfk Hc Htry.
  pose proof Htry as Htry0. unfold try_body in Htry.
  destruct (resolve_target db sn sid ts home away
              (dict_get (Normalized.league_id d)))
    as [x | [om [target|]]] eqn:Hres.
  - injection Htry as _ H.
    unfold resolve_target in Hres.
    destruct (has_nul sn || has_nul sid); [congruence|].
    destruct (query_mapping db sn sid) as [m|].
    + destruct (mapping_event db m); congruence.
    + destruct (has_nul home || has_nul away
                || negb (binds (dict_get (Normalized.league_id d))));
        congruence.
  - destruct (resolve_target_inv _ _ _ _ _ _ _ _ _ Hres)
      as (_ & _ & [(m & e & -> & He & Hq & Hm)
                  | (-> & Hq & _ & _ & _ & Hkey)]).
    + (* the source is mapped *)
      unfold merge_existing in Htry.
      destruct (should_update d incoming _ target) as [x | [|]] eqn:Es.
      * apply should_update_raises in Es. subst x. discriminate.
      * apply save_mapping_and_commit_failure in Htry.
        destruct Htry
          as [(_ & H) | [(_ & H & Hex) | [(H & _) | (H & _)]]];
          try discriminate; [contradiction|].
        subst c.
        apply (canonical_violation_finds_event db db failed d sn sid ts
                 home away incoming Hts Hh Ha Hl Hk Htry0).
      * apply save_mapping_and_commit_failure in Htry.
        destruct Htry as [(H & _) | [(H & _) | [(H & _) | (H & _)]]];
          discriminate.
    + (* the source is not mapped, the key is known *)
      eauto.
  - destruct (resolve_target_inv _ _ _ _ _ _ _ _ _ Hres)
      as (_ & _ & [(m & e & _ & He & _)
                  | (-> & Hq & _ & _ & _ & Hkey)]); [discriminate|].
    destruct (insert_event_cases d sn db)
      as [[Hi Hr] | [Hi (f & x & Hr & _ & _ & _ & Hx)]]; rewrite Hr in Htry.
    + apply save_mapping_and_commit_failure in Htry.
      destruct Htry
        as [(H & _) | [(H & _) | [(_ & _ & Hex) | (_ & _ & Hex)]]];
        try discriminate.
      * exfalso.
        rewrite (unmapped_source_no_conflict db (events_id_seq db) sn sid)
          in Hex; [discriminate | exact Hq | exact Hsn | exact Hsid].
      * exfalso. destruct Hex as (m & Hin & Hm).
        cbn in Hin, Hm. apply Hfk in Hin. lia.
    + injection Htry as _ ->.
      destruct Hx as [Hx | [Hx | [Hx | [Hx Hex]]]]; try discriminate.
      * injection Hx as Hx. contradiction.
      * injection Hx as Hx. subst c.
        apply (canonical_violation_finds_event db db failed d sn sid ts
                 home away incoming Hts Hh Ha Hl Hk Htry0).
Qed.

(** C9, as amended.  For every upsert that an integrity error interrupts,
    whatever another writer committed between its lookups and its writes:
    the transaction is rolled back, so that both tables are as the call
    met them, and the event carrying the incoming dedup key is read
    again; the call returns it when there is one, and the failure result
    [None] when there is none.  When the constraint violated is
    [uq_event_canonical], the record binds [league_id] and the strings of
    its key are stored as they are, there is such an event, whoever wrote
    it, and the call returns it.  When no writer interleaves, the same
    holds of every uniqueness constraint, for a source that is stored as
    it is and mappings that reference event ids already handed out. *)
Theorem integrity_error_recovery :
  forall (seen now failed : Database) (d : Normalized.t) (s : SourceData.t)
         (ts : datetime) (home away sn sid : string) (incoming : Z)
         (c : string),
    essential_data_present d s = true ->
    dict_get (Normalized.event_timestamp d) = Some ts ->
    dict_get (Normalized.home_team_name d) = Some home ->
    dict_get (Normalized.away_team_name d) = Some away ->
    SourceData.source_name s = Some sn ->
    SourceData.source_event_id s = Some sid ->
    dict_get (Normalized.last_updated_timestamp d) = Some incoming ->
    try_body seen d sn sid ts home away (dict_get (Normalized.league_id d))
      incoming (dict_get (Normalized.current_game_time d)) now
    = (failed, inl (IntegrityError c)) ->
    let league := dict_get (Normalized.league_id d) in
    let outcome := save_or_update_event_racing seen now d s in
    events (fst outcome) = events now
    /\ event_source_mappings (fst outcome) = event_source_mappings now
    /\ snd outcome = query_event_by_key now ts home away league
    /\ (c = "uq_event_canonical"%string ->
        Normalized.league_id d <> Absent ->
        key_stored_as_is home away league ->
        exists e,
          snd outcome = Some e /\ In e (events now)
          /\ event_key_matches ts home away league e = true)
    /\ (seen = now ->
        c <> "not-null"%string ->
        Normalized.league_id d <> Absent ->
        key_stored_as_is home away league ->
        source_stored_as_is sn sid ->
        foreign_keys_hold now ->
        exists e,
          snd outcome = Some e /\ In e (events now)
          /\ event_key_matches ts home away league e = true).
Proof.
  intros seen now failed d s ts home away sn sid incoming c
    Hess Hts Hh Ha Hsn Hsid Hi Htry league outcome.
  subst outcome league.
  rewrite (save_or_update_event_racing_unfold seen now d s ts home away
             sn sid incoming Hess Hts Hh Ha Hsn Hsid Hi).
  rewrite Htry. cbn [is_IntegrityError fst snd].
  rewrite query_event_by_key_rollback.
  repeat (split; [reflexivity|]).
  split.
  - intros -> Hl Hk.
    destruct (canonical_violation_finds_event seen now failed d sn sid ts
                home away incoming Hts Hh Ha Hl Hk Htry) as [e He].
    exists e. split; [exact He|]. apply find_some_in. exact He.
  - intros -> Hc Hl Hk Hsrc Hfk.
    destruct (uniqueness_violation_finds_event now failed d sn sid ts home
                away incoming c Hts Hh Ha Hl Hk Hsrc Hfk Hc Htry)
      as [e He].
    exists e. split; [exact He|]. apply find_some_in. exact He.
Qed.

Lemma integrity_error_recovery_witness :
  let outcome :=
    save_or_update_event_racing empty_database Examples.one_match
      Examples.later_report (Examples.source "thesportsdb" "9") in
  events (fst outcome) = events Examples.one_match
  /\ event_source_mappings (fst outcome)
     = event_source_mappings Examples.one_match
  /\ snd outcome = Some Examples.stored_match
  /\ exists e,
       snd outcome = Some e /\ In e (events Examples.one_match)
       /\ event_key_matches Examples.kickoff "A" "B" (Some "10"%string) e
          = true.
Proof.
  intros outcome.
  destruct (integrity_error_recovery empty_database Examples.one_match
              (fst (try_body empty_database Examples.later_report
                      "thesportsdb" "9" Examples.kickoff "A" "B"
                      (Some "10"%string) 200 (Some 12) Examples.one_match))
              Examples.later_report (Examples.source "thesportsdb" "9")
              Examples.kickoff "A" "B" "thesportsdb" "9" 200
              "uq_event_canonical"
              eq_refl eq_refl eq_refl eq_refl eq_refl eq_refl eq_refl
              eq_refl)
    as (He & Hm & Hr & Hrace & _).
  split; [exact He|]. split; [exact Hm|]. split; [exact Hr|].
  apply Hrace.
  - reflexivity.
  - discriminate.
  - repeat split; reflexivity.
Defined.

(** C9 as stated fails: while this call, for sofascore event 1 with a
    moved kick-off, has found neither mapping nor event, another writer
    commits the event and the mapping of sofascore event 1 at the
    original kick-off.  The insert of the mapping breaks
    [uq_source_event], and the event read again by the incoming key does
    not exist: the caller gets the failure result. *)
Lemma uniqueness_race_returns_failure :
  Examples.one_match
  = interleave
      {| concurrent_events := [Examples.stored_match];
         concurrent_mappings := [Examples.sofascore_1] |}
      empty_database
  /\ snd (try_body empty_database Examples.moved_report "sofascore" "1"
         Examples.moved_kickoff "A" "B" (Some "10"%string) 200 (Some 0)
         Examples.one_match)
  = inl (IntegrityError "uq_source_event")
  /\ snd (save_or_update_event_racing empty_database Examples.one_match
            Examples.moved_report (Examples.source "sofascore" "1"))
     = None.
Proof. split; [reflexivity | split; reflexivity]. Qed.

(** The same outcome without any other writer, when the record lacks the
    [league_id] key: the rewritten row keeps its league and collides with
    event 2, while the event is read again with [league_id IS NULL]. *)
Lemma uniqueness_violation_without_league_key :
  snd (try_body Examples.two_matches Examples.report_without_league_key
         "sofascore" "1" Examples.moved_kickoff "A" "B" None 300 (Some 0)
         Examples.two_matches)
  = inl (IntegrityError "uq_event_canonical")
  /\ snd (save_or_update_event Examples.two_matches
            Examples.report_without_league_key
            (Examples.source "sofascore" "1"))
     = None.
Proof. split; reflexivity. Qed.

(** ** The dedup invariant *)

(** C2 fails on the code for keys without league id: after the three
    reports of [Examples.reports_without_league], the events 1 and 2
    carry the same start, teams and (NULL) league. *)
Theorem dedup_broken_for_null_league :
  let db := save_or_update_events empty_database
              Examples.reports_without_league in
  dedup_invariant empty_database
  /\ (exists e1 e2 : Event.t,
        events db = [e1; e2]
        /\ dedup_key e1
           = (Some Examples.moved_kickoff, Some "A"%string,
              Some "B"%string, None)
        /\ dedup_key e2 = dedup_key e1
        /\ Event.id e1 = 1%nat /\ Event.id e2 = 2%nat)
  /\ ~ dedup_invariant db.
Proof.
  intro db. split; [intros e1 e2 []|].
  assert (H : exists e1 e2 : Event.t,
             events db = [e1; e2]
             /\ dedup_key e1
                = (Some Examples.moved_kickoff, Some "A"%string,
                   Some "B"%string, None)
             /\ dedup_key e2 = dedup_key e1
             /\ Event.id e1 = 1%nat /\ Event.id e2 = 2%nat).
  { eexists. eexists. vm_compute. repeat split; reflexivity. }
  split; [exact H|].
  destruct H as (e1 & e2 & He & _ & Hk & H1 & H2).
  intro Hinv.
  assert (E : Event.id e1 = Event.id e2).
  { apply Hinv;
      [rewrite He; cbn; auto | rewrite He; cbn; auto | congruence]. }
  congruence.
Qed.

(** The invariant does hold for the keys that [uq_event_canonical]
    watches over, whatever is upserted and whatever other writers insert in
    between. *)
Lemma unique_col_eqb_sym {A : Type} (eqb : A -> A -> bool) (x y : option A) :
  (forall a b, eqb a b = eqb b a) ->
  unique_col_eqb eqb x y = unique_col_eqb eqb y x.
Proof.
  intro Hsym. destruct x as [a|], y as [b|]; cbn; try reflexivity.
  apply Hsym.
Qed.

Lemma uq_event_canonical_conflict_sym (e1 e2 : Event.t) :
  uq_event_canonical_conflict e1 e2 = uq_event_canonical_conflict e2 e1.
Proof.
  unfold uq_event_canonical_conflict.
  rewrite (unique_col_eqb_sym Z.eqb (Event.event_timestamp e1)
             (Event.event_timestamp e2) Z.eqb_sym).
  rewrite (unique_col_eqb_sym String.eqb (Event.home_team_name e1)
             (Event.home_team_name e2) String.eqb_sym).
  rewrite (unique_col_eqb_sym String.eqb (Event.away_team_name e1)
             (Event.away_team_name e2) String.eqb_sym).
  rewrite (unique_col_eqb_sym String.eqb (Event.league_id e1)
             (Event.league_id e2) String.eqb_sym).
  reflexivity.
Qed.

Lemma save_mapping_and_commit_success (db db1 : Database)
    (om : option EventSourceMapping.t) (sn sid : string) (row e : Event.t)
    (dirty : bool) :
  save_mapping_and_commit om sn sid row dirty db = (db1, inr e) ->
  events db1
  = (if dirty then replace_event (event_kept row) (events db)
     else events db)
  /\ (dirty = true ->
      existsb (conflicts_with_other (event_kept row)) (events db) = false).
Proof.
  intro H.
  destruct (save_mapping_and_commit_cases db om sn sid row dirty)
    as [(Hc & Hr & He & _) | (_ & x & Hr & _)];
    rewrite H in *; cbn [fst snd] in *; [|discriminate].
  split.
  - rewrite He. destruct dirty; reflexivity.
  - intros ->. rewrite commit_succeeds_split in Hc.
    apply andb_true_iff in Hc. destruct Hc as [Hc _].
    unfold update_accepted in Hc.
    apply andb_true_iff in Hc. destruct Hc as [_ Hc].
    apply negb_true_iff in Hc. exact Hc.
Qed.

(** The table of events a successful transaction leaves. *)
Lemma try_body_events (seen now db1 : Database) (d : Normalized.t)
    (sn sid : string) (ts : datetime) (home away : string)
    (league : option string) (incoming : Z) (cgt : option Z) (e : Event.t) :
  try_body seen d sn sid ts home away league incoming cgt now
  = (db1, inr e) ->
  events db1 = events now
  \/ (exists row,
        events db1 = replace_event row (events now)
        /\ existsb (conflicts_with_other row) (events now) = false)
  \/ (exists row,
        events db1 = events now ++ [row]
        /\ existsb (uq_event_canonical_conflict row) (events now) = false).
Proof.
  unfold try_body.
  destruct (resolve_target seen sn sid ts home away league)
    as [x | [om [target|]]]; [discriminate | |].
  - destruct (merge_existing d sn incoming cgt target) as [x | [row dirty]];
      [discriminate|].
    intro H. apply save_mapping_and_commit_success in H.
    destruct H as [H Hfree]. destruct dirty.
    + right. left. exists (event_kept row).
      split; [exact H | apply Hfree; reflexivity].
    + left. exact H.
  - destruct (insert_event_cases d sn now)
      as [[Hi Hr] | [_ (f & x & Hr & _)]]; rewrite Hr; [|discriminate].
    intro H. apply save_mapping_and_commit_success in H.
    destruct H as [H _]. cbn [events] in H.
    right. right. eexists. split; [exact H|].
    unfold insert_accepted in Hi.
    apply andb_true_iff in Hi. destruct Hi as [_ Hi].
    apply negb_true_iff in Hi. exact Hi.
Qed.

Lemma dedup_without_null_replace (l : list Event.t) (row : Event.t) :
  (forall e1 e2, In e1 l -> In e2 l ->
                 uq_event_canonical_conflict e1 e2 = true ->
                 Event.id e1 = Event.id e2) ->
  existsb (conflicts_with_other row) l = false ->
  forall e1 e2,
    In e1 (replace_event row l) -> In e2 (replace_event row l) ->
    uq_event_canonical_conflict e1 e2 = true -> Event.id e1 = Event.id e2.
Proof.
  intros Hinv Hfree e1 e2 H1 H2 Hc.
  unfold replace_event in H1, H2. apply in_map_iff in H1, H2.
  destruct H1 as (x1 & E1 & Hin1), H2 as (x2 & E2 & Hin2).
  assert (Hother : forall x, In x l ->
                     Nat.eqb (Event.id x) (Event.id row) = false ->
                     uq_event_canonical_conflict row x = false).
  { intros x Hin Hne.
    destruct (uq_event_canonical_conflict row x) eqn:E; [|reflexivity].
    assert (Hex : existsb (conflicts_with_other row) l = true).
    { apply existsb_exists. exists x. split; [exact Hin|].
      unfold conflicts_with_other. rewrite Hne, E. reflexivity. }
    congruence. }
  destruct (Nat.eqb (Event.id x1) (Event.id row)) eqn:N1,
    (Nat.eqb (Event.id x2) (Event.id row)) eqn:N2; subst e1 e2.
  - reflexivity.
  - rewrite (Hother x2 Hin2 N2) in Hc. discriminate.
  - rewrite uq_event_canonical_conflict_sym, (Hother x1 Hin1 N1) in Hc.
    discriminate.
  - apply Hinv; assumption.
Qed.

Lemma dedup_without_null_append (l : list Event.t) (row : Event.t) :
  (forall e1 e2, In e1 l -> In e2 l ->
                 uq_event_canonical_conflict e1 e2 = true ->
                 Event.id e1 = Event.id e2) ->
  existsb (uq_event_canonical_conflict row) l = false ->
  forall e1 e2,
    In e1 (l ++ [row]) -> In e2 (l ++ [row]) ->
    uq_event_canonical_conflict e1 e2 = true -> Event.id e1 = Event.id e2.
Proof.
  intros Hinv Hfree e1 e2 H1 H2 Hc.
  assert (Hnone : forall x, In x l -> uq_event_canonical_conflict row x = false).
  { intros x Hin.
    destruct (uq_event_canonical_conflict row x) eqn:E; [|reflexivity].
    assert (Hex : existsb (uq_event_canonical_conflict row) l = true)
      by (apply existsb_exists; eauto).
    congruence. }
  apply in_app_or in H1, H2.
  destruct H1 as [H1 | [<- | []]], H2 as [H2 | [<- | []]].
  - apply Hinv; assumption.
  - rewrite uq_event_canonical_conflict_sym, (Hnone e1 H1) in Hc.
    discriminate.
  - rewrite (Hnone e2 H2) in Hc. discriminate.
  - reflexivity.
Qed.

Lemma dedup_without_null_preserved (seen now : Database)
    (d : Normalized.t) (s : SourceData.t) :
  dedup_invariant_without_null now ->
  dedup_invariant_without_null
    (fst (save_or_update_event_racing seen now d s)).
Proof.
  intro Hinv. unfold dedup_invariant_without_null.
  destruct (essential_data_present d s) eqn:Hess.
  - destruct (essential_data_values d s Hess)
      as (ts & home & away & sn & sid & incoming & Hts & Hh & Ha & Hsn
          & Hsid & Hi).
    rewrite (save_or_update_event_racing_unfold seen now d s ts home away sn
               sid incoming Hess Hts Hh Ha Hsn Hsid Hi).
    destruct (try_body seen d sn sid ts home away _ incoming _ now)
      as [db1 [x | e]] eqn:Et.
    + destruct (is_IntegrityError x); exact Hinv.
    + cbn [fst]. apply try_body_events in Et.
      destruct Et as [E | [(row & E & Hfree) | (row & E & Hfree)]];
        rewrite E.
      * exact Hinv.
      * apply dedup_without_null_replace; assumption.
      * apply dedup_without_null_append; assumption.
  - unfold save_or_update_event_racing. rewrite Hess. exact Hinv.
Qed.

Lemma dedup_without_null_after_calls
    (calls : list (Normalized.t * SourceData.t)) (db : Database) :
  dedup_invariant_without_null db ->
  dedup_invariant_without_null (save_or_update_events db calls).
Proof.
  revert db. induction calls as [|[d s] calls IH]; intros db Hinv;
    [exact Hinv|].
  cbn [save_or_update_events]. apply IH.
  apply (dedup_without_null_preserved db db d s Hinv).
Qed.

(** ** The monitoring query *)

Lemma insert_by_timestamp_in (e x : Event.t) (l : list Event.t) :
  In x (insert_by_timestamp e l) <-> x = e \/ In x l.
Proof.
  induction l as [|y l IH]; cbn.
  - intuition congruence.
  - destruct (timestamp_leb (Event.event_timestamp e)
                (Event.event_timestamp y)); cbn.
    + intuition congruence.
    + rewrite IH. intuition congruence.
Qed.

Lemma order_by_event_timestamp_asc_in (x : Event.t) (l : list Event.t) :
  In x (order_by_event_timestamp_asc l) <-> In x l.
Proof.
  unfold order_by_event_timestamp_asc.
  induction l as [|y l IH]; cbn; [reflexivity|].
  rewrite insert_by_timestamp_in, IH. intuition congruence.
Qed.

Lemma timestamp_leb_total (x y : option datetime) :
  timestamp_leb x y = false -> timestamp_leb y x = true.
Proof.
  destruct x as [a|], y as [b|]; cbn; try congruence.
  rewrite Z.leb_gt, Z.leb_le. lia.
Qed.

Lemma insert_by_timestamp_sorted (e : Event.t) (l : list Event.t) :
  Sorted starts_before l -> Sorted starts_before (insert_by_timestamp e l).
Proof.
  induction l as [|y l IH]; intro Hs; cbn.
  - constructor; constructor.
  - destruct (timestamp_leb (Event.event_timestamp e)
                (Event.event_timestamp y)) eqn:E.
    + constructor; [exact Hs | constructor; exact E].
    + inversion Hs as [|? ? Hs' Hhd]; subst.
      constructor; [apply IH; exact Hs'|].
      destruct l as [|z l]; cbn.
      * constructor. apply timestamp_leb_total. exact E.
      * destruct (timestamp_leb (Event.event_timestamp e)
                    (Event.event_timestamp z)).
        -- constructor. apply timestamp_leb_total. exact E.
        -- inversion Hhd; subst. constructor. assumption.
Qed.

(** What the query of [get_events_for_monitoring] selects for a given
    threshold: the events in progress and the scheduled events that start
    at the threshold or later, in ascending order of start. *)
Lemma monitoring_query_selects (db : Database) (time_threshold : datetime)
    (e : Event.t) :
  In e (monitoring_query db time_threshold)
  <-> In e (events db)
      /\ (Event.event_status e = Some "inprogress"%string
          \/ (Event.event_status e = Some "scheduled"%string
              /\ exists t, Event.event_timestamp e = Some t
                           /\ time_threshold <= t)).
Proof.
  unfold monitoring_query.
  rewrite order_by_event_timestamp_asc_in, filter_In, orb_true_iff,
    andb_true_iff, !option_eqb_string_eq.
  split; intros [Hin H]; (split; [exact Hin|]).
  - destruct H as [H | [H Ht]]; [left; exact H | right].
    split; [exact H|].
    destruct (Event.event_timestamp e) as [t|]; [|discriminate].
    exists t. split; [reflexivity | apply Z.leb_le; exact Ht].
  - destruct H as [H | (H & t & Ht & Hle)]; [left; exact H | right].
    split; [exact H|]. rewrite Ht. apply Z.leb_le. exact Hle.
Qed.

Lemma monitoring_query_sorted (db : Database) (time_threshold : datetime) :
  Sorted starts_before (monitoring_query db time_threshold).
Proof.
  unfold monitoring_query, order_by_event_timestamp_asc.
  induction (filter _ (events db)) as [|y l IH]; cbn.
  - constructor.
  - apply insert_by_timestamp_sorted. exact IH.
Qed.

(** C4 fails on the code: [timedelta] is not bound in
    [data_access.py], so every call raises [NameError]; and the query
    that follows has no upper bound on the start of a scheduled event: a
    match ten days ahead is selected with a buffer of thirty minutes. *)
Theorem get_events_for_monitoring_raises :
  (forall (db : Database) (now : datetime) (buffer : Z),
      get_events_for_monitoring db now buffer
      = inl (NameError "timedelta"))
  /\ (let now := Examples.kickoff in
      let buffer := 30 * microseconds_per_minute in
      exists e : Event.t,
        In e (monitoring_query Examples.with_far_future_match
                (now - buffer))
        /\ Event.event_timestamp e = Some (now + 864000000000)
        /\ ~ needs_attention now buffer e).
Proof.
  split; [reflexivity|].
  intros now buffer.
  exists (new_event 2 Examples.far_future_report "sofascore").
  split; [vm_compute; auto|]. split; [reflexivity|].
  intros [H | (_ & t & Ht & _ & Hle)]; [discriminate|].
  injection Ht as <-. vm_compute in Hle. apply Hle. reflexivity.
Qed.

(** ** Merge monotonicity *)

(** ** Rows, mappings and their lookups *)

Lemma find_replace_event (l : list Event.t) (row t : Event.t) (i : nat) :
  find (fun e => Nat.eqb (Event.id e) i) l = Some t ->
  Event.id row = i ->
  find (fun e => Nat.eqb (Event.id e) i) (replace_event row l) = Some row.
Proof.
  intros Hfind Hid. subst i. unfold replace_event.
  induction l as [|x l IH]; [discriminate|].
  cbn [map find] in Hfind |- *.
  destruct (Nat.eqb (Event.id x) (Event.id row)) eqn:E.
  - rewrite Nat.eqb_refl. reflexivity.
  - rewrite E. apply IH. exact Hfind.
Qed.

Lemma existsb_conflicts_replace (l : list Event.t) (row r : Event.t) :
  Event.id r = Event.id row ->
  existsb (conflicts_with_other row) (replace_event r l)
  = existsb (conflicts_with_other row) l.
Proof.
  intro Hid. unfold replace_event.
  induction l as [|x l IH]; [reflexivity|].
  cbn [map existsb]. rewrite IH. f_equal. rewrite Hid.
  destruct (Nat.eqb (Event.id x) (Event.id row)) eqn:E; [|reflexivity].
  unfold conflicts_with_other. rewrite E, Hid, Nat.eqb_refl. reflexivity.
Qed.

Lemma replace_replace (l : list Event.t) (r1 r2 : Event.t) :
  Event.id r1 = Event.id r2 ->
  replace_event r2 (replace_event r1 l) = replace_event r2 l.
Proof.
  intro Hid. unfold replace_event. rewrite map_map. apply map_ext.
  intro x. rewrite Hid.
  destruct (Nat.eqb (Event.id x) (Event.id r2)) eqn:E.
  - rewrite <- Hid at 1. rewrite Hid, Nat.eqb_refl. reflexivity.
  - rewrite E. reflexivity.
Qed.

(** A fully normalized record leaves nothing of the row it overwrites
    but its id. *)
Lemma overwrite_fully_normalized (t : Event.t) (d : Normalized.t)
    (sn : string) (incoming : Z) :
  fully_normalized d ->
  dict_get (Normalized.last_updated_timestamp d) = Some incoming ->
  overwrite t d sn incoming = new_event (Event.id t) d sn.
Proof.
  intros (H1 & H2 & H3 & H4 & H5 & H6 & H7 & H8 & H9 & H10 & H11 & H12
          & H13 & H14) Hi.
  destruct d; cbn in *.
  destruct H1 as [? ->], H2 as [? ->], H3 as [? ->], H5 as [? ->],
    H6 as [? ->], H7 as [? ->], H8 as [? ->], H11 as [? ->],
    H13 as [? ->], H14 as [? ->].
  cbn in Hi. injection Hi as ->.
  unfold overwrite, new_event. cbn.
  destruct current_game_time, league_name, league_id, last_data_source;
    try contradiction; reflexivity.
Qed.

Lemma new_event_not_null (i : nat) (d : Normalized.t) (sn : string) :
  fully_normalized d -> event_not_null (new_event i d sn) = true.
Proof.
  intros (H1 & H2 & H3 & _ & H5 & H6 & _ & _ & _ & _ & H11 & _).
  destruct H1 as [? E1], H2 as [? E2], H3 as [? E3], H5 as [? E5],
    H6 as [? E6], H11 as [? E11].
  unfold event_not_null, new_event. cbn.
  rewrite E1, E2, E3, E5, E6, E11. reflexivity.
Qed.

Lemma resolve_mapped (db : Database) (sn sid : string) (ts : datetime)
    (home away : string) (league : option string)
    (m : EventSourceMapping.t) (t : Event.t) :
  has_nul sn = false -> has_nul sid = false ->
  query_mapping db sn sid = Some m ->
  mapping_event db m = Some t ->
  resolve_target db sn sid ts home away league = inr (Some m, Some t).
Proof.
  intros H1 H2 Hq Hm. unfold resolve_target.
  rewrite H1, H2, Hq, Hm. reflexivity.
Qed.

Lemma query_mapping_ext (db db' : Database) (sn sid : string) :
  event_source_mappings db' = event_source_mappings db ->
  query_mapping db' sn sid = query_mapping db sn sid.
Proof. intro H. unfold query_mapping. rewrite H. reflexivity. Qed.

Lemma mapping_event_id (db : Database) (m : EventSourceMapping.t)
    (t : Event.t) :
  mapping_event db m = Some t -> Event.id t = EventSourceMapping.event_id m.
Proof.
  intro H. unfold mapping_event in H. apply find_some in H.
  destruct H as [_ H]. apply Nat.eqb_eq in H. exact H.
Qed.

Lemma mapping_event_replaced (db db' : Database)
    (m : EventSourceMapping.t) (t row : Event.t) :
  mapping_event db m = Some t ->
  Event.id row = Event.id t ->
  events db' = replace_event row (events db) ->
  mapping_event db' m = Some row.
Proof.
  intros Hm Hid He. unfold mapping_event. rewrite He.
  apply (find_replace_event _ row t); [exact Hm|].
  rewrite Hid. apply (mapping_event_id db). exact Hm.
Qed.

Lemma mapping_event_ext (db db' : Database) (m : EventSourceMapping.t) :
  events db' = events db -> mapping_event db' m = mapping_event db m.
Proof. intro H. unfold mapping_event. rewrite H. reflexivity. Qed.

(** ** The first report of a match *)

Lemma no_key_no_conflict (db : Database) (row : Event.t) (ts : datetime)
    (home away : string) (league : option string) :
  query_event_by_key db ts home away league = None ->
  Event.event_timestamp row = Some ts ->
  Event.home_team_name row = Some home ->
  Event.away_team_name row = Some away ->
  Event.league_id row = league ->
  existsb (uq_event_canonical_conflict row) (events db) = false.
Proof.
  intros Hq Hts Hh Ha Hl.
  destruct (existsb (uq_event_canonical_conflict row) (events db)) eqn:E;
    [|reflexivity].
  assert (Hex : existsb
                  (fun x => true && uq_event_canonical_conflict row x)
                  (events db) = true) by exact E.
  destruct (conflict_found_by_key db row (fun _ => true) ts home away league
              Hts Hh Ha Hl Hex) as [e He].
  congruence.
Qed.

Lemma fresh_event_id_unmapped (db : Database) (m : EventSourceMapping.t) :
  foreign_keys_hold db ->
  EventSourceMapping.event_id m = events_id_seq db ->
  existsb (uq_event_id_source_conflict m) (event_source_mappings db) = false.
Proof.
  intros Hfk Hid.
  destruct (existsb (uq_event_id_source_conflict m)
              (event_source_mappings db)) eqn:E; [|reflexivity].
  apply existsb_exists in E. destruct E as (x & Hin & Hx).
  unfold uq_event_id_source_conflict in Hx.
  apply andb_true_iff in Hx. destruct Hx as [Hx _].
  apply Nat.eqb_eq in Hx. apply Hfk in Hin. lia.
Qed.

Lemma find_app_last {A : Type} (P : A -> bool) (l : list A) (x : A) :
  find P l = None -> P x = true -> find P (l ++ [x]) = Some x.
Proof.
  intros Hnone Hx. induction l as [|y l IH]; cbn in *.
  - rewrite Hx. reflexivity.
  - destruct (P y); [discriminate | apply IH; exact Hnone].
Qed.

Lemma find_fresh_id (db : Database) :
  event_ids_below_seq db ->
  find (fun e => Nat.eqb (Event.id e) (events_id_seq db)) (events db) = None.
Proof.
  intro Hids.
  destruct (find (fun e => Nat.eqb (Event.id e) (events_id_seq db))
              (events db)) as [e|] eqn:E; [|reflexivity].
  apply find_some in E. destruct E as [Hin He].
  apply Nat.eqb_eq in He. apply Hids in Hin. lia.
Qed.

Lemma replace_event_fresh (db : Database) (row r : Event.t) :
  event_ids_below_seq db ->
  Event.id row = events_id_seq db ->
  Event.id r = events_id_seq db ->
  replace_event row (events db ++ [r]) = events db ++ [row].
Proof.
  intros Hids Hrow Hr. unfold replace_event. rewrite map_app. cbn [map].
  rewrite Hrow, Hr, Nat.eqb_refl. f_equal.
  rewrite <- (map_id (events db)) at 2. apply map_ext_in.
  intros e Hin. apply Hids in Hin.
  destruct (Nat.eqb (Event.id e) (events_id_seq db)) eqn:E; [|reflexivity].
  apply Nat.eqb_eq in E. lia.
Qed.

Lemma no_conflict_with_fresh (db : Database) (row r : Event.t)
    (ts : datetime) (home away : string) (league : option string) :
  query_event_by_key db ts home away league = None ->
  Event.event_timestamp row = Some ts ->
  Event.home_team_name row = Some home ->
  Event.away_team_name row = Some away ->
  Event.league_id row = league ->
  Event.id r = Event.id row ->
  existsb (conflicts_with_other row) (events db ++ [r]) = false.
Proof.
  intros Hq Hts Hh Ha Hl Hid.
  pose proof (no_key_no_conflict db row ts home away league Hq Hts Hh Ha Hl)
    as Hfree.
  rewrite existsb_app. cbn [existsb]. unfold conflicts_with_other at 2.
  rewrite Hid, Nat.eqb_refl. cbn [negb andb orb]. rewrite orb_false_r.
  destruct (existsb (conflicts_with_other row) (events db)) eqn:E;
    [|reflexivity].
  apply existsb_exists in E. destruct E as (x & Hin & Hx).
  unfold conflicts_with_other in Hx. apply andb_true_iff in Hx.
  destruct Hx as [_ Hx].
  assert (Hex : existsb (uq_event_canonical_conflict row) (events db) = true)
    by (apply existsb_exists; eauto).
  congruence.
Qed.


Lemma first_report_fully_normalized :
  fully_normalized Examples.first_report.
Proof.
  unfold fully_normalized. cbn.
  repeat split; try (eexists; reflexivity); discriminate.
Defined.

Lemma later_report_fully_normalized :
  fully_normalized Examples.later_report.
Proof.
  unfold fully_normalized. cbn.
  repeat split; try (eexists; reflexivity); discriminate.
Defined.


End DataAccessFacts.

(* ===================================================================== *)
(** * Properties of the live monitor                                       *)
(* ===================================================================== *)

Section LiveMonitorFacts.

Import DataAccess Spec LiveMonitor.
Open Scope Z_scope.





End LiveMonitorFacts.


(* ===================================================================== *)
(** * Further properties of the admission controller                       *)
(* ===================================================================== *)

Section AntiBlockInvariants.

Import AntiBlock.
Open Scope Q_scope.

Lemma refill_at_most_capacity (w : World)
    (self : TokenBucketAntiBlockStrategy) :
  tokens (_refill_tokens w self) <= inject_Z (capacity self).
Proof. cbn. apply Q.le_min_l. Qed.

Lemma refill_at_most_gain (w : World) (self : TokenBucketAntiBlockStrategy) :
  tokens (_refill_tokens w self)
  <= tokens self + (clock w - last_refill_time self) * fill_rate self.
Proof. cbn. apply Q.le_min_r. Qed.

(** The sleeps of a call extend those made before it. *)
Lemma wait_loop_sleeps (fuel : nat) (w : World)
    (self : TokenBucketAntiBlockStrategy) (slept : list Q) (a : Acquired) :
  wait_loop fuel w self slept = Some a ->
  exists l, sleeps a = (slept ++ l)%list.
Proof.
  revert w self slept. induction fuel as [|fuel IH]; intros w self slept;
    cbn [wait_loop]; [discriminate|].
  destruct (Qle_bool 1 (tokens (_refill_tokens w self))).
  - intro H. injection H as <-. exists []%list. cbn. symmetry.
    apply app_nil_r.
  - intro H. apply IH in H. destruct H as [l Hl].
    exists (((1 - tokens (_refill_tokens w self))
             / fill_rate (_refill_tokens w self) + (1 # 100)) :: l)%list.
    rewrite Hl, <- app_assoc. reflexivity.
Qed.

(** A call that did not sleep found its token at the first refill. *)
Lemma immediate_grant (fuel : nat) (w : World)
    (self : TokenBucketAntiBlockStrategy) (a : Acquired) :
  wait_before_request fuel w self = Some a ->
  sleeps a = []%list ->
  1 <= tokens (_refill_tokens w self)
  /\ a = {| bucket := consume (_refill_tokens w self);
            world := w; sleeps := [] |}.
Proof.
  unfold wait_before_request. destruct fuel as [|fuel]; cbn [wait_loop];
    [discriminate|].
  destruct (Qle_bool 1 (tokens (_refill_tokens w self))) eqn:E.
  - intros H _. injection H as <-. split; [|reflexivity].
    apply Qle_bool_iff. exact E.
  - intros H Hs. apply wait_loop_sleeps in H. destruct H as [l Hl].
    rewrite Hs in Hl. cbn in Hl. discriminate.
Qed.


(** X1.  Whenever a call of [wait_before_request] returns, it leaves
    between 0 and [capacity - 1] tokens, the capacity and the fill rate as
    they were, and [last_refill_time] at the clock of its return,
    whatever the bucket held before, however long the call slept and
    however often it went round its loop. *)
Theorem acquire_leaves_bucket_in_range :
  forall (fuel : nat) (w : World) (self : TokenBucketAntiBlockStrategy)
         (a : Acquired),
    wait_before_request fuel w self = Some a ->
    0 <= tokens (bucket a)
    /\ tokens (bucket a) <= inject_Z (capacity self) - 1
    /\ capacity (bucket a) = capacity self
    /\ fill_rate (bucket a) = fill_rate self
    /\ last_refill_time (bucket a) = clock (world a).
Proof.
  intros fuel w self a. unfold wait_before_request.
  generalize (@nil Q) as slept. revert w self.
  induction fuel as [|fuel IH]; intros w self slept;
    cbn [wait_loop]; [discriminate|].
  destruct (Qle_bool 1 (tokens (_refill_tokens w self))) eqn:E.
  - intro H. injection H as <-. cbn [bucket world].
    apply Qle_bool_iff in E.
    pose proof (refill_at_most_capacity w self) as Hcap.
    cbn [consume tokens capacity fill_rate last_refill_time] in *.
    repeat split; try reflexivity; lra.
  - intro H. apply IH in H. exact H.
Qed.

Lemma acquire_leaves_bucket_in_range_witness :
  exists a : Acquired,
    wait_before_request 2 {| clock := 10; overshoot := [1 # 2] |}
      {| capacity := 5; fill_rate := 1 # 5; tokens := 0;
         last_refill_time := 9 |} = Some a
    /\ sleeps a <> []
    /\ 0 <= tokens (bucket a)
    /\ tokens (bucket a) <= inject_Z 5 - 1
    /\ capacity (bucket a) = 5%Z
    /\ fill_rate (bucket a) = 1 # 5
    /\ last_refill_time (bucket a) = clock (world a).
Proof.
  eexists. split; [reflexivity|]. split; [discriminate|].
  apply (acquire_leaves_bucket_in_range 2
           {| clock := 10; overshoot := [1 # 2] |}
           {| capacity := 5; fill_rate := 1 # 5; tokens := 0;
              last_refill_time := 9 |}).
  reflexivity.
Defined.

Lemma inject_Z_succ (n : nat) :
  inject_Z (Z.of_nat (S n)) == inject_Z (Z.of_nat n) + 1.
Proof.
  rewrite Nat2Z.inj_succ. unfold Z.succ. rewrite inject_Z_plus. reflexivity.
Qed.

(** X2. A burst: with at least [n] tokens in the bucket and a capacity of
    at least [n], [n] calls in a row are granted without any sleep. *)
Theorem burst_without_sleep :
  forall (n fuel : nat) (w : World) (self : TokenBucketAntiBlockStrategy),
    well_formed self ->
    (1 <= fuel)%nat ->
    last_refill_time self <= clock w ->
    inject_Z (Z.of_nat n) <= tokens self ->
    (Z.of_nat n <= capacity self)%Z ->
    acquire_many fuel n w self = Some (repeat [] n).
Proof.
  induction n as [|n IH]; intros fuel w self Hwf Hfuel Hclock Htok Hcap;
    [reflexivity|].
  destruct fuel as [|fuel]; [lia|].
  assert (H1 : inject_Z (Z.of_nat (S n)) <= tokens (_refill_tokens w self)).
  { cbn [_refill_tokens tokens]. unfold time_time. apply Q.min_glb.
    - rewrite <- Zle_Qle. exact Hcap.
    - destruct Hwf as [_ Hrate].
      apply Qle_trans with (y := tokens self); [exact Htok|].
      assert (Hgain : 0 <= (clock w - last_refill_time self)
                           * fill_rate self).
      { apply Qmult_le_0_compat; [lra | apply Qlt_le_weak; exact Hrate]. }
      set (gain := (clock w - last_refill_time self) * fill_rate self) in *.
      lra. }
  rewrite inject_Z_succ in H1.
  assert (Hn : 0 <= inject_Z (Z.of_nat n)).
  { change 0 with (inject_Z 0). rewrite <- Zle_Qle. lia. }
  assert (Hgo : Qle_bool 1 (tokens (_refill_tokens w self)) = true).
  { apply Qle_bool_iff. lra. }
  cbn [acquire_many]. unfold wait_before_request. cbn [wait_loop].
  rewrite Hgo. cbn [world bucket sleeps].
  rewrite (IH (S fuel) w (consume (_refill_tokens w self))).
  - reflexivity.
  - exact Hwf.
  - lia.
  - cbn. apply Qle_refl.
  - change (inject_Z (Z.of_nat n) <= tokens (_refill_tokens w self) - 1).
    clear - H1. lra.
  - cbn [consume _refill_tokens capacity]. lia.
Qed.

Lemma burst_without_sleep_witness :
  acquire_many 1 3 {| clock := 7; overshoot := [] |}
    {| capacity := 5; fill_rate := 1 # 5; tokens := 7 # 2;
       last_refill_time := 7 |}
  = Some [[]; []; []].
Proof.
  apply (burst_without_sleep 3 1 {| clock := 7; overshoot := [] |}
           {| capacity := 5; fill_rate := 1 # 5; tokens := 7 # 2;
              last_refill_time := 7 |}).
  - split; reflexivity.
  - apply le_n.
  - vm_compute. discriminate.
  - vm_compute. discriminate.
  - vm_compute. discriminate.
Defined.

(** X3.  The wait is bounded: on a bucket with positive capacity and
    fill rate and no debt, read by a clock that has not run backwards,
    with sleeps that do not return early, every sleep of a call of
    [wait_before_request] that returns lasts at least 0.01 s and at most
    [1 / fill_rate + 0.01] s, however many of them the call makes. *)
Theorem wait_is_bounded :
  forall (fuel : nat) (w : World) (self : TokenBucketAntiBlockStrategy)
         (a : Acquired),
    well_formed self ->
    Forall (fun o => 0 <= o) (overshoot w) ->
    0 <= tokens self ->
    last_refill_time self <= clock w ->
    wait_before_request fuel w self = Some a ->
    Forall (fun d => 1 # 100 <= d /\ d <= 1 / fill_rate self + (1 # 100))
      (sleeps a).
Proof.
  intros fuel w self a Hwf Hover Htok Hclock. unfold wait_before_request.
  assert (Hnil : Forall (fun d => 1 # 100 <= d
                                  /\ d <= 1 / fill_rate self + (1 # 100))
                   []) by constructor.
  revert Hnil. generalize (@nil Q) as slept.
  revert w self Hwf Hover Htok Hclock.
  induction fuel as [|fuel IH]; intros w self Hwf Hover Htok Hclock slept
    Hslept; cbn [wait_loop]; [discriminate|].
  destruct (Qle_bool 1 (tokens (_refill_tokens w self))) eqn:E1.
  - intro H. injection H as <-. exact Hslept.
  - set (refilled := _refill_tokens w self) in *.
    set (d := (1 - tokens refilled) / fill_rate refilled + (1 # 100)).
    apply Qle_bool_false_lt in E1.
    pose proof Hwf as [Hcap Hrate].
    assert (H0 : 0 <= tokens refilled).
    { unfold refilled. cbn [_refill_tokens tokens]. unfold time_time.
      apply Q.min_glb.
      - change 0 with (inject_Z 0). rewrite <- Zle_Qle. lia.
      - assert (Hgain : 0 <= (clock w - last_refill_time self)
                             * fill_rate self).
        { apply Qmult_le_0_compat; [lra | apply Qlt_le_weak; exact Hrate]. }
        set (gain := (clock w - last_refill_time self) * fill_rate self)
          in *.
        lra. }
    assert (Hd : 1 # 100 <= d /\ d <= 1 / fill_rate self + (1 # 100)).
    { change (fill_rate refilled) with (fill_rate self) in d.
      unfold d. split.
      - assert (0 <= (1 - tokens refilled) / fill_rate self).
        { apply Qle_shift_div_l; [exact Hrate|]. lra. }
        lra.
      - assert ((1 - tokens refilled) / fill_rate self
                <= 1 / fill_rate self).
        { unfold Qdiv. apply Qmult_le_compat_r; [lra|].
          apply Qlt_le_weak. apply Qinv_lt_0_compat. exact Hrate. }
        lra. }
    assert (Hhd : 0 <= hd 0 (overshoot w)).
    { destruct Hover as [|o l Ho _]; [apply Qle_refl | exact Ho]. }
    intro H.
    apply (IH (time_sleep d w) refilled) in H.
    + exact H.
    + exact Hwf.
    + cbn [time_sleep overshoot].
      destruct Hover as [|o l _ Hl]; [constructor | exact Hl].
    + exact H0.
    + unfold refilled. cbn [_refill_tokens last_refill_time time_sleep clock].
      unfold time_time. destruct Hd as [Hd _].
      set (o := hd 0 (overshoot w)) in *. clearbody d o. clear - Hd Hhd.
      lra.
    + apply Forall_app. split; [exact Hslept|].
      constructor; [exact Hd | constructor].
Qed.

Lemma wait_is_bounded_witness :
  exists a : Acquired,
    wait_before_request 2 {| clock := 10; overshoot := [1 # 2] |}
      {| capacity := 5; fill_rate := 1 # 5; tokens := 0;
         last_refill_time := 9 |} = Some a
    /\ List.length (sleeps a) = 1%nat
    /\ Forall (fun d => 1 # 100 <= d /\ d <= 1 / (1 # 5) + (1 # 100))
         (sleeps a).
Proof.
  eexists. split; [reflexivity|]. split; [reflexivity|].
  apply (wait_is_bounded 2 {| clock := 10; overshoot := [1 # 2] |}
           {| capacity := 5; fill_rate := 1 # 5; tokens := 0;
              last_refill_time := 9 |}).
  - split; reflexivity.
  - constructor; [vm_compute; discriminate | constructor].
  - vm_compute. discriminate.
  - vm_compute. discriminate.
  - reflexivity.
Defined.

Lemma acquire_spaced_balance (gaps : list Q) :
  forall (fuel : nat) (w w' : World)
         (self b : TokenBucketAntiBlockStrategy) (ss : list (list Q)),
    last_refill_time self == clock w ->
    acquire_spaced fuel gaps w self = Some (ss, (b, w')) ->
    Forall (fun l => l = []) ss ->
    fill_rate b = fill_rate self
    /\ capacity b = capacity self
    /\ (gaps <> [] -> 0 <= tokens b)
    /\ inject_Z (Z.of_nat (List.length gaps)) + tokens b
       <= tokens self + fill_rate self * total gaps.
Proof.
  induction gaps as [|g gaps IH]; intros fuel w w' self b ss Hlast Hrun Himm.
  - cbn in Hrun. injection Hrun as <- <- <-.
    split; [reflexivity|]. split; [reflexivity|].
    split; [intro H; contradiction|].
    cbn [List.length total fold_right Z.of_nat].
    change (inject_Z 0) with 0. lra.
  - cbn [acquire_spaced] in Hrun.
    destruct (wait_before_request fuel (elapse g w) self) as [a|] eqn:Ea;
      [|discriminate].
    destruct (acquire_spaced fuel gaps (world a) (bucket a))
      as [[r final]|] eqn:Er; [|discriminate].
    injection Hrun as <- ->.
    inversion Himm as [|? ? Ha Hr]; subst.
    destruct (immediate_grant fuel (elapse g w) self a Ea Ha) as [H1 ->].
    cbn [world bucket] in Er.
    assert (Hlast' : last_refill_time
                       (consume (_refill_tokens (elapse g w) self))
                     == clock (elapse g w)) by apply Qeq_refl.
    destruct (IH fuel (elapse g w) w'
                (consume (_refill_tokens (elapse g w) self)) b r
                Hlast' Er Hr)
      as (Hrate & Hcap & Hpos & Hbal).
    cbn [consume _refill_tokens fill_rate capacity] in Hrate, Hcap.
    split; [exact Hrate|]. split; [exact Hcap|].
    split.
    + intros _. destruct gaps as [|g' gaps'].
      * cbn in Er. injection Er as _ <- _. cbn [consume tokens].
        clear - H1. lra.
      * apply Hpos. discriminate.
    + pose proof (refill_at_most_gain (elapse g w) self) as Hgain.
      cbn [elapse clock] in Hgain.
      change (tokens (consume (_refill_tokens (elapse g w) self)))
        with (tokens (_refill_tokens (elapse g w) self) - 1) in Hbal.
      change (fill_rate (consume (_refill_tokens (elapse g w) self)))
        with (fill_rate self) in Hbal.
      change (total (g :: gaps)) with (g + total gaps).
      change (List.length (g :: gaps)) with (S (List.length gaps)).
      rewrite inject_Z_succ.
      set (count := inject_Z (Z.of_nat (List.length gaps))) in *.
      set (t1 := tokens (_refill_tokens (elapse g w) self)) in *.
      clear - Hbal Hgain Hlast.
      rewrite Hlast in Hgain. lra.
Qed.

(** X4. Conservation: however the calls are spaced, as long as each is
    granted without sleeping, the number of grants never exceeds the tokens
    the bucket started with plus [fill_rate] times the time gone by, and
    thus never exceeds [capacity + fill_rate * window] on a bucket that
    held no more than its capacity. *)
Theorem immediate_grants_are_bounded :
  forall (gaps : list Q) (fuel : nat) (w w' : World)
         (self b : TokenBucketAntiBlockStrategy) (ss : list (list Q)),
    last_refill_time self == clock w ->
    0 <= tokens self ->
    tokens self <= inject_Z (capacity self) ->
    acquire_spaced fuel gaps w self = Some (ss, (b, w')) ->
    Forall (fun l => l = []) ss ->
    inject_Z (Z.of_nat (List.length gaps)) + tokens b
    <= tokens self + fill_rate self * total gaps
    /\ 0 <= tokens b
    /\ inject_Z (Z.of_nat (List.length gaps))
       <= inject_Z (capacity self) + fill_rate self * total gaps.
Proof.
  intros gaps fuel w w' self b ss Hlast Hpos Hcap Hrun Himm.
  destruct (acquire_spaced_balance gaps fuel w w' self b ss Hlast Hrun Himm)
    as (_ & _ & Hb & Hbal).
  assert (Hb' : 0 <= tokens b).
  { destruct gaps as [|g gaps].
    - cbn in Hrun. injection Hrun as _ <- _. exact Hpos.
    - apply Hb. discriminate. }
  split; [exact Hbal|]. split; [exact Hb'|].
  set (count := inject_Z (Z.of_nat (List.length gaps))) in *.
  set (gain := fill_rate self * total gaps) in *.
  clear - Hbal Hb' Hcap. lra.
Qed.

Lemma immediate_grants_are_bounded_witness :
  let self := {| capacity := 2; fill_rate := 1; tokens := 2;
                 last_refill_time := 0 |} in
  let w := {| clock := 0; overshoot := [] |} in
  exists (b : TokenBucketAntiBlockStrategy) (w' : World),
    acquire_spaced 1 [0; 0; 1] w self = Some ([[]; []; []], (b, w'))
    /\ inject_Z 3 + tokens b <= 2 + 1 * total [0; 0; 1]
    /\ 0 <= tokens b
    /\ inject_Z 3 <= inject_Z 2 + 1 * total [0; 0; 1].
Proof.
  intros self w.
  destruct (acquire_spaced 1 [0; 0; 1] w self) as [[ss [b w']]|] eqn:E;
    [|vm_compute in E; discriminate].
  assert (Hss : ss = [[]; []; []]).
  { vm_compute in E. injection E as <- _ _. reflexivity. }
  subst ss. exists b, w'. split; [reflexivity|].
  apply (immediate_grants_are_bounded [0; 0; 1] 1 w w' self b
           [[]; []; []]).
  - reflexivity.
  - vm_compute. discriminate.
  - vm_compute. discriminate.
  - exact E.
  - repeat constructor.
Defined.

End AntiBlockInvariants.

(* ===================================================================== *)
(** * Further properties of the canonical store                            *)
(* ===================================================================== *)

Section DataAccessInvariants.

Import DataAccess Spec.
Open Scope Z_scope.

(** ** What a committed call has written *)

Lemma save_mapping_and_commit_committed (db db1 : Database)
    (om : option EventSourceMapping.t) (sn sid : string) (row e : Event.t)
    (dirty : bool) :
  save_mapping_and_commit om sn sid row dirty db = (db1, inr e) ->
  e = (if dirty then event_kept row else row)
  /\ events db1 = (if dirty then replace_event e (events db) else events db)
  /\ events_id_seq db1 = events_id_seq db
  /\ (dirty = true ->
      update_accepted db row = true
      /\ event_not_null e = true
      /\ existsb (conflicts_with_other e) (events db) = false)
  /\ mapping_recorded db db1 om (Event.id row) sn sid.
Proof.
  unfold save_mapping_and_commit, mapping_recorded.
  assert (Hins : forall (db0 : Database) (i : nat) (r : Event.t),
             event_source_mappings db0 = event_source_mappings db ->
             event_source_mappings_id_seq db0
             = event_source_mappings_id_seq db ->
             (let (db2, r2) := insert_mapping i sn sid db0 in
              match r2 with
              | inl x => (db2, inl x)
              | inr _ => (db2, inr r)
              end) = (db1, inr e) ->
             e = r /\ events db1 = events db0
             /\ events_id_seq db1 = events_id_seq db0
             /\ (let m := mapping_kept (new_mapping db i sn sid) in
                 event_source_mappings db1 = event_source_mappings db ++ [m]
                 /\ event_source_mappings_id_seq db1
                    = S (event_source_mappings_id_seq db)
                 /\ existsb (uq_source_event_conflict m)
                      (event_source_mappings db) = false
                 /\ existsb (uq_event_id_source_conflict m)
                      (event_source_mappings db) = false)).
  { intros db0 i r Hm0 Hs0.
    destruct (insert_mapping_cases i sn sid db0)
      as [[Hi Hr] | [_ (f & y & Hr & _)]]; rewrite Hr; [|discriminate].
    intro H. injection H as <- <-.
    cbn [events events_id_seq event_source_mappings
         event_source_mappings_id_seq].
    unfold mapping_insert_accepted in Hi.
    assert (En : new_mapping db0 i sn sid = new_mapping db i sn sid)
      by (unfold new_mapping; rewrite Hs0; reflexivity).
    rewrite En, Hm0 in Hi. rewrite En, Hm0, Hs0.
    apply andb_true_iff in Hi. destruct Hi as [Hi H2].
    apply andb_true_iff in Hi. destruct Hi as [_ H1].
    apply negb_true_iff in H1, H2.
    repeat split; first [reflexivity | assumption]. }
  destruct dirty.
  - destruct (update_event_cases row db) as [[Hu Hr] | [_ (x & Hr & _)]];
      rewrite Hr; [|discriminate].
    assert (Hacc : update_accepted db row = true
                   /\ event_not_null (event_kept row) = true
                   /\ existsb (conflicts_with_other (event_kept row))
                        (events db) = false).
    { split; [exact Hu|]. unfold update_accepted in Hu.
      apply andb_true_iff in Hu. destruct Hu as [Hu H2].
      apply andb_true_iff in Hu. destruct Hu as [_ H1].
      apply negb_true_iff in H2. split; assumption. }
    destruct om as [m|].
    + intro H. injection H as <- <-. cbn.
      split; [reflexivity|]. split; [reflexivity|]. split; [reflexivity|].
      split; [intros _; exact Hacc|]. split; reflexivity.
    + intro H.
      match type of H with
      | context [insert_mapping _ _ _ ?d0] =>
          apply (Hins d0 _ _ eq_refl eq_refl) in H
      end.
      destruct H as (-> & He & Hs & Hmap).
      cbn [events events_id_seq] in He, Hs.
      split; [reflexivity|]. split; [exact He|]. split; [exact Hs|].
      split; [intros _; exact Hacc|]. exact Hmap.
  - destruct om as [m|].
    + intro H. injection H as <- <-.
      split; [reflexivity|]. split; [reflexivity|]. split; [reflexivity|].
      split; [discriminate|]. split; reflexivity.
    + intro H.
      match type of H with
      | context [insert_mapping _ _ _ ?d0] =>
          apply (Hins d0 _ _ eq_refl eq_refl) in H
      end.
      destruct H as (-> & He & Hs & Hmap).
      split; [reflexivity|]. split; [exact He|]. split; [exact Hs|].
      split; [discriminate|]. exact Hmap.
Qed.

Lemma resolve_target_cases (db : Database) (sn sid : string) (ts : datetime)
    (home away : string) (league : option string)
    (om : option EventSourceMapping.t) (ot : option Event.t) :
  resolve_target db sn sid ts home away league = inr (om, ot) ->
  (exists m target,
      om = Some m /\ ot = Some target
      /\ query_mapping db sn sid = Some m
      /\ mapping_event db m = Some target)
  \/ (om = None
      /\ query_mapping db sn sid = None
      /\ query_event_by_key db ts home away league = ot).
Proof.
  intro H. apply resolve_target_inv in H.
  destruct H as (_ & _ & [(m & e & H1 & H2 & H3 & H4)
                         | (H1 & H2 & _ & _ & _ & H3)]).
  - left. exists m, e. repeat split; assumption.
  - right. repeat split; [assumption | assumption | symmetry; assumption].
Qed.

(** The target of a call is a row of the table. *)
Lemma resolve_target_in (db : Database) (sn sid : string) (ts : datetime)
    (home away : string) (league : option string)
    (om : option EventSourceMapping.t) (target : Event.t) :
  resolve_target db sn sid ts home away league = inr (om, Some target) ->
  In target (events db).
Proof.
  intro H. apply resolve_target_cases in H.
  destruct H as [(m & t & _ & Ht & _ & Hm) | (_ & _ & Hk)].
  - injection Ht as <-. unfold mapping_event in Hm.
    apply find_some in Hm. tauto.
  - unfold query_event_by_key in Hk. apply find_some in Hk. tauto.
Qed.

Lemma merge_existing_cases (d : Normalized.t) (sn : string) (incoming : Z)
    (cgt : option Z) (target e : Event.t) (dirty : bool) :
  merge_existing d sn incoming cgt target = inr (e, dirty) ->
  (dirty = false /\ e = target
   /\ should_update d incoming cgt target = inr false)
  \/ (dirty = true /\ e = overwrite target d sn incoming
      /\ should_update d incoming cgt target = inr true).
Proof.
  unfold merge_existing.
  destruct (should_update d incoming cgt target) as [x | [|]];
    [discriminate | |]; intro H; injection H as <- <-.
  - right. repeat split.
  - left. repeat split.
Qed.

(** The three ways the [try] block commits: the target is kept, the
    target is rewritten, a new event is created. *)
Lemma try_body_committed (db db1 : Database) (d : Normalized.t)
    (sn sid : string) (ts : datetime) (home away : string)
    (league : option string) (incoming : Z) (cgt : option Z) (e : Event.t) :
  try_body db d sn sid ts home away league incoming cgt db = (db1, inr e) ->
  (exists om target,
      resolve_target db sn sid ts home away league = inr (om, Some target)
      /\ should_update d incoming cgt target = inr false
      /\ e = target
      /\ events db1 = events db
      /\ events_id_seq db1 = events_id_seq db
      /\ mapping_recorded db db1 om (Event.id e) sn sid)
  \/ (exists om target,
         resolve_target db sn sid ts home away league = inr (om, Some target)
         /\ should_update d incoming cgt target = inr true
         /\ e = event_kept (overwrite target d sn incoming)
         /\ events db1 = replace_event e (events db)
         /\ events_id_seq db1 = events_id_seq db
         /\ event_not_null e = true
         /\ existsb (conflicts_with_other e) (events db) = false
         /\ mapping_recorded db db1 om (Event.id e) sn sid)
  \/ (resolve_target db sn sid ts home away league = inr (None, None)
      /\ e = event_kept (new_event (events_id_seq db) d sn)
      /\ events db1 = events db ++ [e]
      /\ events_id_seq db1 = S (events_id_seq db)
      /\ event_not_null e = true
      /\ existsb (uq_event_canonical_conflict e) (events db) = false
      /\ mapping_recorded db db1 None (Event.id e) sn sid).
Proof.
  unfold try_body.
  destruct (resolve_target db sn sid ts home away league)
    as [x | [om [target|]]] eqn:Er; [discriminate | |].
  - destruct (merge_existing d sn incoming cgt target) as [x | [row dirty]]
      eqn:Em; [discriminate|].
    intro H. apply save_mapping_and_commit_committed in H.
    destruct H as (He & Hev & Hseq & Hdirty & Hmap).
    apply merge_existing_cases in Em.
    destruct Em as [(-> & -> & Hs) | (-> & -> & Hs)]; subst e.
    + left. exists om, target. repeat split; assumption.
    + right. left. exists om, target.
      destruct (Hdirty eq_refl) as (_ & Hnn & Hfree).
      repeat split; assumption.
  - assert (Hom : om = None).
    { apply resolve_target_cases in Er.
      destruct Er as [(m & t & _ & Ht & _) | (Hom & _)];
        [discriminate | exact Hom]. }
    subst om.
    destruct (insert_event_cases d sn db)
      as [[Hi Hr] | [_ (f & x & Hr & _)]]; rewrite Hr; [|discriminate].
    intro H. apply save_mapping_and_commit_committed in H.
    destruct H as (-> & Hev & Hseq & _ & Hmap).
    right. right. cbn [events events_id_seq] in Hev, Hseq.
    unfold insert_accepted in Hi.
    apply andb_true_iff in Hi. destruct Hi as [Hi H2].
    apply andb_true_iff in Hi. destruct Hi as [_ H1].
    apply negb_true_iff in H2.
    cbn [Event.id new_event event_kept] in Hmap |- *.
    unfold mapping_recorded in *. cbn [event_source_mappings
      event_source_mappings_id_seq] in Hmap.
    repeat split; first [reflexivity | assumption | apply Hmap].
Qed.

(** The sequences only move forward, whatever the outcome. *)
Lemma try_body_sequences (seen now db1 : Database) (d : Normalized.t)
    (sn sid : string) (ts : datetime) (home away : string)
    (league : option string) (incoming : Z) (cgt : option Z)
    (r : Exception + Event.t) :
  try_body seen d sn sid ts home away league incoming cgt now = (db1, r) ->
  (events_id_seq now <= events_id_seq db1)%nat
  /\ (event_source_mappings_id_seq now
      <= event_source_mappings_id_seq db1)%nat.
Proof.
  assert (Hsmc : forall om row dirty db db' r',
             save_mapping_and_commit om sn sid row dirty db = (db', r') ->
             (events_id_seq db <= events_id_seq db')%nat
             /\ (event_source_mappings_id_seq db
                 <= event_source_mappings_id_seq db')%nat).
  { intros om row dirty db db' r'.
    unfold save_mapping_and_commit, update_event, insert_mapping.
    destruct dirty, om;
      repeat match goal with
             | |- context [if ?c then _ else _] => destruct c
             end;
      cbn; intro H; injection H as <- _; cbn; lia. }
  unfold try_body.
  destruct (resolve_target seen sn sid ts home away league)
    as [x | [om [target|]]].
  - intro H. injection H as <- _. lia.
  - destruct (merge_existing d sn incoming cgt target) as [x | [row dirty]].
    + intro H. injection H as <- _. lia.
    + apply Hsmc.
  - unfold insert_event.
    repeat match goal with
           | |- context [if ?c then _ else _] => destruct c
           end;
      try (intro H; injection H as <- _; cbn; lia).
    intro H. apply Hsmc in H. cbn in H. lia.
Qed.

(** ** The constraints of the tables are kept *)

Lemma NoDup_snoc_fresh (l : list nat) (n : nat) :
  NoDup l -> (forall i, In i l -> (i < n)%nat) -> NoDup (l ++ [n]).
Proof.
  intros Hl Hlt. induction Hl as [|x l Hx Hl IH]; cbn.
  - constructor; [intros [] | constructor].
  - constructor.
    + intro Hin. apply in_app_or in Hin. destruct Hin as [Hin | [<- | []]].
      * exact (Hx Hin).
      * specialize (Hlt n (or_introl eq_refl)). lia.
    + apply IH. intros i Hi. apply Hlt. right. exact Hi.
Qed.

Lemma unique_snoc {A : Type} (c : A -> A -> bool) (key : A -> nat)
    (l : list A) (x : A) :
  (forall a b, c a b = c b a) ->
  (forall a b, In a l -> In b l -> c a b = true -> key a = key b) ->
  existsb (c x) l = false ->
  forall a b, In a (l ++ [x]) -> In b (l ++ [x]) -> c a b = true ->
              key a = key b.
Proof.
  intros Hsym Hinv Hfree a b Ha Hb Hc.
  assert (Hnone : forall y, In y l -> c x y = false).
  { intros y Hin. destruct (c x y) eqn:E; [|reflexivity].
    assert (Hex : existsb (c x) l = true)
      by (apply existsb_exists; eauto).
    congruence. }
  apply in_app_or in Ha, Hb.
  destruct Ha as [Ha | [<- | []]], Hb as [Hb | [<- | []]].
  - apply Hinv; assumption.
  - rewrite Hsym, (Hnone a Ha) in Hc. discriminate.
  - rewrite (Hnone b Hb) in Hc. discriminate.
  - reflexivity.
Qed.

Lemma uq_source_event_conflict_sym (m1 m2 : EventSourceMapping.t) :
  uq_source_event_conflict m1 m2 = uq_source_event_conflict m2 m1.
Proof.
  unfold uq_source_event_conflict.
  rewrite (String.eqb_sym (EventSourceMapping.source_name m1)).
  rewrite (String.eqb_sym (EventSourceMapping.source_event_id m1)).
  reflexivity.
Qed.

Lemma uq_event_id_source_conflict_sym (m1 m2 : EventSourceMapping.t) :
  uq_event_id_source_conflict m1 m2 = uq_event_id_source_conflict m2 m1.
Proof.
  unfold uq_event_id_source_conflict.
  rewrite (Nat.eqb_sym (EventSourceMapping.event_id m1)).
  rewrite (String.eqb_sym (EventSourceMapping.source_name m1)).
  reflexivity.
Qed.

Lemma map_id_replace_event (row : Event.t) (l : list Event.t) :
  map Event.id (replace_event row l) = map Event.id l.
Proof.
  unfold replace_event. induction l as [|x l IH]; cbn; [reflexivity|].
  rewrite IH. destruct (Nat.eqb (Event.id x) (Event.id row)) eqn:E.
  - apply Nat.eqb_eq in E. rewrite E. reflexivity.
  - reflexivity.
Qed.

Lemma in_replace_event (row x : Event.t) (l : list Event.t) :
  In x (replace_event row l) -> x = row \/ In x l.
Proof.
  unfold replace_event. intro H. apply in_map_iff in H.
  destruct H as (y & E & Hin).
  destruct (Nat.eqb (Event.id y) (Event.id row)).
  - left. symmetry. exact E.
  - right. subst x. exact Hin.
Qed.

Lemma replace_event_in (row t : Event.t) (l : list Event.t) :
  In t l -> Event.id t = Event.id row -> In row (replace_event row l).
Proof.
  intros Hin Hid. unfold replace_event. apply in_map_iff.
  exists t. split; [|exact Hin].
  rewrite Hid, Nat.eqb_refl. reflexivity.
Qed.

Lemma overwrite_id (t : Event.t) (d : Normalized.t) (sn : string)
    (incoming : Z) :
  Event.id (overwrite t d sn incoming) = Event.id t.
Proof. reflexivity. Qed.

(** The mapping side of the constraints after a committed call. *)
Lemma mapping_recorded_valid (db db1 : Database)
    (om : option EventSourceMapping.t) (eid : nat) (sn sid : string) :
  store_valid db ->
  mapping_recorded db db1 om eid sn sid ->
  (forall m, In m (event_source_mappings db1) ->
             (EventSourceMapping.id m < event_source_mappings_id_seq db1)%nat)
  /\ NoDup (map EventSourceMapping.id (event_source_mappings db1))
  /\ (forall m1 m2,
         In m1 (event_source_mappings db1) ->
         In m2 (event_source_mappings db1) ->
         uq_source_event_conflict m1 m2 = true ->
         EventSourceMapping.id m1 = EventSourceMapping.id m2)
  /\ (forall m1 m2,
         In m1 (event_source_mappings db1) ->
         In m2 (event_source_mappings db1) ->
         uq_event_id_source_conflict m1 m2 = true ->
         EventSourceMapping.id m1 = EventSourceMapping.id m2)
  /\ (forall m, In m (event_source_mappings db1) ->
                In m (event_source_mappings db)
                \/ EventSourceMapping.event_id m = eid).
Proof.
  intros Hv Hrec. unfold mapping_recorded in Hrec.
  destruct om as [m0|].
  - destruct Hrec as [-> ->].
    split; [exact (valid_mapping_ids db Hv)|].
    split; [exact (valid_mapping_ids_distinct db Hv)|].
    split; [exact (valid_uq_source_event db Hv)|].
    split; [exact (valid_uq_event_id_source db Hv)|].
    intros m Hin. left. exact Hin.
  - cbv zeta in Hrec. destruct Hrec as (-> & -> & Hs & Hi).
    split; [|split; [|split; [|split]]].
    + intros m Hin. apply in_app_or in Hin.
      destruct Hin as [Hin | [<- | []]].
      * pose proof (valid_mapping_ids db Hv m Hin). lia.
      * cbn. lia.
    + rewrite map_app. cbn [map new_mapping EventSourceMapping.id].
      apply NoDup_snoc_fresh; [exact (valid_mapping_ids_distinct db Hv)|].
      intros i Hin. apply in_map_iff in Hin.
      destruct Hin as (m & <- & Hin). exact (valid_mapping_ids db Hv m Hin).
    + apply unique_snoc.
      * exact uq_source_event_conflict_sym.
      * exact (valid_uq_source_event db Hv).
      * exact Hs.
    + apply unique_snoc.
      * exact uq_event_id_source_conflict_sym.
      * exact (valid_uq_event_id_source db Hv).
      * exact Hi.
    + intros m Hin. apply in_app_or in Hin.
      destruct Hin as [Hin | [<- | []]]; [left; exact Hin | right].
      reflexivity.
Qed.

(** A committed call leaves tables that satisfy their constraints. *)
Lemma store_valid_committed (db db1 : Database) (d : Normalized.t)
    (sn sid : string) (ts : datetime) (home away : string)
    (league : option string) (incoming : Z) (cgt : option Z) (e : Event.t) :
  store_valid db ->
  try_body db d sn sid ts home away league incoming cgt db = (db1, inr e) ->
  store_valid db1.
Proof.
  intros Hv Ht. apply try_body_committed in Ht.
  destruct Ht as
    [(om & target & Hr & _ & -> & Hev & Hseq & Hmap)
    | [(om & target & Hr & _ & He & Hev & Hseq & Hnn & Hfree & Hmap)
      | (_ & He & Hev & Hseq & Hnn & Hfree & Hmap)]].
  - (* the target is kept *)
    pose proof (resolve_target_in _ _ _ _ _ _ _ _ _ Hr) as Hin.
    destruct (mapping_recorded_valid _ _ _ _ _ _ Hv Hmap)
      as (M1 & M2 & M3 & M4 & M5).
    constructor; try assumption.
    + intros x Hx. rewrite Hev in Hx. rewrite Hseq.
      exact (valid_event_ids db Hv x Hx).
    + rewrite Hev. exact (valid_event_ids_distinct db Hv).
    + intros m Hm. rewrite Hev. destruct (M5 m Hm) as [Hold | Hnew].
      * exact (valid_foreign_keys db Hv m Hold).
      * exists target. split; [exact Hin | symmetry; exact Hnew].
    + intros x Hx. rewrite Hev in Hx. exact (valid_not_null db Hv x Hx).
    + unfold dedup_invariant_without_null. rewrite Hev.
      exact (valid_uq_event_canonical db Hv).
  - (* the target is rewritten *)
    pose proof (resolve_target_in _ _ _ _ _ _ _ _ _ Hr) as Hin.
    assert (Hid : Event.id e = Event.id target) by (subst e; reflexivity).
    destruct (mapping_recorded_valid _ _ _ _ _ _ Hv Hmap)
      as (M1 & M2 & M3 & M4 & M5).
    constructor; try assumption.
    + intros x Hx. rewrite Hev in Hx. rewrite Hseq.
      apply in_replace_event in Hx. destruct Hx as [-> | Hx].
      * rewrite Hid. exact (valid_event_ids db Hv target Hin).
      * exact (valid_event_ids db Hv x Hx).
    + rewrite Hev, map_id_replace_event.
      exact (valid_event_ids_distinct db Hv).
    + intros m Hm. rewrite Hev.
      assert (Hkept : forall x, In x (events db) ->
                exists y, In y (replace_event e (events db))
                          /\ Event.id y = Event.id x).
      { intros x Hx.
        assert (Hi : In (Event.id x) (map Event.id (events db)))
          by (apply in_map; exact Hx).
        rewrite <- (map_id_replace_event e) in Hi.
        apply in_map_iff in Hi. destruct Hi as (y & Hy & Hiny).
        exists y. split; assumption. }
      destruct (M5 m Hm) as [Hold | Hnew].
      * destruct (valid_foreign_keys db Hv m Hold) as (x & Hx & Hxid).
        destruct (Hkept x Hx) as (y & Hy & Hyid).
        exists y. split; [exact Hy | congruence].
      * exists e. split; [|symmetry; exact Hnew].
        apply (replace_event_in e target); [exact Hin | congruence].
    + intros x Hx. rewrite Hev in Hx.
      apply in_replace_event in Hx. destruct Hx as [-> | Hx].
      * exact Hnn.
      * exact (valid_not_null db Hv x Hx).
    + unfold dedup_invariant_without_null. rewrite Hev.
      apply dedup_without_null_replace;
        [exact (valid_uq_event_canonical db Hv) | exact Hfree].
  - (* a new event is created *)
    assert (Hid : Event.id e = events_id_seq db) by (subst e; reflexivity).
    destruct (mapping_recorded_valid _ _ _ _ _ _ Hv Hmap)
      as (M1 & M2 & M3 & M4 & M5).
    constructor; try assumption.
    + intros x Hx. rewrite Hev in Hx. rewrite Hseq.
      apply in_app_or in Hx. destruct Hx as [Hx | [<- | []]].
      * pose proof (valid_event_ids db Hv x Hx). lia.
      * lia.
    + rewrite Hev, map_app. cbn [map]. rewrite Hid.
      apply NoDup_snoc_fresh; [exact (valid_event_ids_distinct db Hv)|].
      intros i Hi. apply in_map_iff in Hi.
      destruct Hi as (x & <- & Hx). exact (valid_event_ids db Hv x Hx).
    + intros m Hm. rewrite Hev. destruct (M5 m Hm) as [Hold | Hnew].
      * destruct (valid_foreign_keys db Hv m Hold) as (x & Hx & Hxid).
        exists x. split; [apply in_or_app; left; exact Hx | exact Hxid].
      * exists e. split; [|symmetry; exact Hnew].
        apply in_or_app. right. left. reflexivity.
    + intros x Hx. rewrite Hev in Hx.
      apply in_app_or in Hx. destruct Hx as [Hx | [<- | []]].
      * exact (valid_not_null db Hv x Hx).
      * exact Hnn.
    + unfold dedup_invariant_without_null. rewrite Hev.
      apply dedup_without_null_append;
        [exact (valid_uq_event_canonical db Hv) | exact Hfree].
Qed.

(** After a rollback: the rows of the last commit, the sequences moved
    on. *)
Lemma store_valid_rollback (db failed : Database) :
  store_valid db ->
  (events_id_seq db <= events_id_seq failed)%nat ->
  (event_source_mappings_id_seq db
   <= event_source_mappings_id_seq failed)%nat ->
  store_valid (rollback db failed).
Proof.
  intros Hv H1 H2. constructor; cbn.
  - intros x Hx. cbn in *. pose proof (valid_event_ids db Hv x Hx). lia.
  - exact (valid_event_ids_distinct db Hv).
  - intros m Hm. pose proof (valid_mapping_ids db Hv m Hm). lia.
  - exact (valid_mapping_ids_distinct db Hv).
  - exact (valid_foreign_keys db Hv).
  - exact (valid_not_null db Hv).
  - exact (valid_uq_event_canonical db Hv).
  - exact (valid_uq_source_event db Hv).
  - exact (valid_uq_event_id_source db Hv).
Qed.

Lemma store_valid_step (db : Database) (d : Normalized.t)
    (s : SourceData.t) :
  store_valid db -> store_valid (fst (save_or_update_event db d s)).
Proof.
  intro Hv. unfold save_or_update_event.
  destruct (essential_data_present d s) eqn:Hess.
  - destruct (essential_data_values d s Hess)
      as (ts & home & away & sn & sid & incoming & Hts & Hh & Ha & Hsn
          & Hsid & Hi).
    rewrite (save_or_update_event_racing_unfold db db d s ts home away sn
               sid incoming Hess Hts Hh Ha Hsn Hsid Hi).
    destruct (try_body db d sn sid ts home away _ incoming _ db)
      as [db1 [x | e]] eqn:Et.
    + pose proof (try_body_sequences _ _ _ _ _ _ _ _ _ _ _ _ _ Et)
        as [S1 S2].
      destruct (is_IntegrityError x); cbn [fst];
        apply store_valid_rollback; assumption.
    + cbn [fst]. exact (store_valid_committed _ _ _ _ _ _ _ _ _ _ _ _ Hv Et).
  - unfold save_or_update_event_racing. rewrite Hess. exact Hv.
Qed.

Lemma store_valid_empty : store_valid empty_database.
Proof.
  constructor; cbn.
  - intros e [].
  - constructor.
  - intros m [].
  - constructor.
  - intros m [].
  - intros e [].
  - intros e1 e2 [].
  - intros m1 m2 [].
  - intros m1 m2 [].
Qed.

Lemma store_valid_after_calls
    (calls : list (Normalized.t * SourceData.t)) (db : Database) :
  store_valid db -> store_valid (save_or_update_events db calls).
Proof.
  revert db. induction calls as [|[d s] calls IH]; intros db Hv; [exact Hv|].
  cbn [save_or_update_events]. apply IH. apply store_valid_step. exact Hv.
Qed.

(** X6.  The constraints of the two tables (primary keys drawn from the
    sequences and distinct, the foreign key of a mapping, the NOT NULL
    columns, [uq_event_canonical], [uq_source_event] and
    [uq_event_id_source]) hold after any sequence of calls of
    [save_or_update_event] on a store in which they hold. *)
Theorem store_constraints_preserved :
  forall (calls : list (Normalized.t * SourceData.t)) (db : Database),
    store_valid db -> store_valid (save_or_update_events db calls).
Proof.
  induction calls as [|[d s] calls IH]; intros db Hv; [exact Hv|].
  cbn [save_or_update_events]. apply IH. apply store_valid_step. exact Hv.
Qed.

Lemma store_constraints_preserved_witness :
  store_valid
    (save_or_update_events empty_database
       [ (Examples.first_report, Examples.source "sofascore" "1");
         (Examples.later_report, Examples.source "thesportsdb" "77");
         (Examples.moved_report, Examples.source "sofascore" "1") ]).
Proof.
  apply (store_constraints_preserved
           [ (Examples.first_report, Examples.source "sofascore" "1");
             (Examples.later_report, Examples.source "thesportsdb" "77");
             (Examples.moved_report, Examples.source "sofascore" "1") ]
           empty_database).
  exact store_valid_empty.
Defined.

(** ** Lookups after a call *)


Lemma find_by_id_nodup (l : list Event.t) (e : Event.t) :
  NoDup (map Event.id l) -> In e l ->
  find (fun x => Nat.eqb (Event.id x) (Event.id e)) l = Some e.
Proof.
  induction l as [|y l IH]; cbn; intros Hnd Hin; [contradiction|].
  inversion Hnd as [|i l' Hnotin Hnd']; subst.
  destruct Hin as [-> | Hin].
  - rewrite Nat.eqb_refl. reflexivity.
  - destruct (Nat.eqb (Event.id y) (Event.id e)) eqn:E.
    + exfalso. apply Hnotin. apply Nat.eqb_eq in E. rewrite E.
      apply in_map. exact Hin.
    + apply IH; assumption.
Qed.

(** After a committed call the source is mapped to the returned event,
    and the returned event is a row of the table. *)
Lemma clip_length (n : nat) (s : string) :
  (String.length s <= n)%nat -> clip n s = s.
Proof.
  revert s. induction n as [|n IH]; intros [|c s] H; cbn in *;
    try reflexivity; [lia|].
  f_equal. apply IH. lia.
Qed.

(** The event of a committed call is a row of the table. *)
Lemma committed_in_table (db db1 : Database) (d : Normalized.t)
    (sn sid : string) (ts : datetime) (home away : string)
    (league : option string) (incoming : Z) (cgt : option Z) (e : Event.t) :
  try_body db d sn sid ts home away league incoming cgt db = (db1, inr e) ->
  In e (events db1).
Proof.
  intro Ht. apply try_body_committed in Ht.
  destruct Ht as
    [(om & target & Hr & _ & -> & Hev & _ & Hmap)
    | [(om & target & Hr & _ & He & Hev & _ & _ & _ & Hmap)
      | (Hr & He & Hev & _ & _ & _ & Hmap)]].
  - rewrite Hev. exact (resolve_target_in _ _ _ _ _ _ _ _ _ Hr).
  - assert (Hid : Event.id e = Event.id target) by (subst e; reflexivity).
    rewrite Hev. apply (replace_event_in e target).
    + exact (resolve_target_in _ _ _ _ _ _ _ _ _ Hr).
    + symmetry. exact Hid.
  - rewrite Hev. apply in_or_app. right. left. reflexivity.
Qed.

(** After a committed call, a source that its columns store as it is
    is mapped to the event of the call. *)
Lemma committed_lookup (db db1 : Database) (d : Normalized.t)
    (sn sid : string) (ts : datetime) (home away : string)
    (league : option string) (incoming : Z) (cgt : option Z) (e : Event.t) :
  clip 50 sn = sn -> clip 255 sid = sid ->
  try_body db d sn sid ts home away league incoming cgt db = (db1, inr e) ->
  has_nul sn = false /\ has_nul sid = false
  /\ exists m, query_mapping db1 sn sid = Some m
               /\ EventSourceMapping.event_id m = Event.id e.
Proof.
  intros Hcn Hcs Ht.
  assert (Hmapped :
            forall om eid,
              mapping_recorded db db1 om eid sn sid ->
              (forall m, om = Some m ->
                         query_mapping db sn sid = Some m
                         /\ EventSourceMapping.event_id m = eid) ->
              (om = None -> query_mapping db sn sid = None) ->
              exists m, query_mapping db1 sn sid = Some m
                        /\ EventSourceMapping.event_id m = eid).
  { intros om eid Hrec Hsome Hnone. unfold mapping_recorded in Hrec.
    destruct om as [m|].
    - destruct Hrec as [Hm _]. destruct (Hsome m eq_refl) as [Hq Hid].
      exists m. split; [|exact Hid].
      rewrite (query_mapping_ext db db1 sn sid Hm). exact Hq.
    - cbv zeta in Hrec. destruct Hrec as (Hm & _).
      exists (mapping_kept (new_mapping db eid sn sid)).
      split; [|reflexivity].
      unfold query_mapping. rewrite Hm. apply find_app_last.
      + exact (Hnone eq_refl).
      + cbn [mapping_kept new_mapping EventSourceMapping.source_name
             EventSourceMapping.source_event_id].
        rewrite Hcn, Hcs, !String.eqb_refl. reflexivity. }
  assert (Hres : forall om ot,
            resolve_target db sn sid ts home away league = inr (om, ot) ->
            has_nul sn = false /\ has_nul sid = false
            /\ (forall m target, om = Some m -> ot = Some target ->
                   query_mapping db sn sid = Some m
                   /\ EventSourceMapping.event_id m = Event.id target)
            /\ (om = None -> query_mapping db sn sid = None)).
  { intros om ot Hr.
    destruct (resolve_target_inv _ _ _ _ _ _ _ _ _ Hr) as (N1 & N2 & _).
    split; [exact N1|]. split; [exact N2|].
    apply resolve_target_cases in Hr.
    destruct Hr as [(m & t & -> & -> & Hq & Hm) | (-> & Hq & _)].
    - split; [|discriminate].
      intros m' t' Hm' Ht'. injection Hm' as <-. injection Ht' as <-.
      split; [exact Hq|].
      symmetry. exact (mapping_event_id db m _ Hm).
    - split; [discriminate | intros _; exact Hq]. }
  apply try_body_committed in Ht.
  destruct Ht as
    [(om & target & Hr & _ & -> & Hev & _ & Hmap)
    | [(om & target & Hr & _ & He & Hev & _ & _ & _ & Hmap)
      | (Hr & He & Hev & _ & _ & _ & Hmap)]].
  - destruct (Hres om _ Hr) as (N1 & N2 & Hs & Hn).
    split; [exact N1|]. split; [exact N2|].
    apply (Hmapped om (Event.id target) Hmap); [|exact Hn].
    intros m Hm. exact (Hs m target Hm eq_refl).
  - destruct (Hres om _ Hr) as (N1 & N2 & Hs & Hn).
    assert (Hid : Event.id e = Event.id target) by (subst e; reflexivity).
    split; [exact N1|]. split; [exact N2|].
    apply (Hmapped om (Event.id e) Hmap); [|exact Hn].
    intros m Hm. destruct (Hs m target Hm eq_refl) as [Hq Hi].
    split; [exact Hq | congruence].
  - destruct (Hres None _ Hr) as (N1 & N2 & _ & Hn).
    split; [exact N1|]. split; [exact N2|].
    apply (Hmapped None (Event.id e) Hmap); [discriminate | exact Hn].
Qed.

(** The event a call returns is a row of the table the call leaves. *)
Lemma returned_event_in_table (db db' : Database) (d : Normalized.t)
    (s : SourceData.t) (e : Event.t) :
  save_or_update_event db d s = (db', Some e) -> In e (events db').
Proof.
  unfold save_or_update_event.
  destruct (essential_data_present d s) eqn:Hess.
  - destruct (essential_data_values d s Hess)
      as (ts & home & away & sn & sid & incoming & Hts & Hh & Ha & Hsn
          & Hsid & Hi).
    rewrite (save_or_update_event_racing_unfold db db d s ts home away sn
               sid incoming Hess Hts Hh Ha Hsn Hsid Hi).
    destruct (try_body db d sn sid ts home away _ incoming _ db)
      as [db1 [x | e1]] eqn:Et.
    + destruct (is_IntegrityError x); [|discriminate].
      intro H. injection H as <- Hq.
      unfold query_event_by_key in Hq. apply find_some in Hq. tauto.
    + intro H. injection H as <- <-.
      exact (committed_in_table _ _ _ _ _ _ _ _ _ _ _ _ Et).
  - unfold save_or_update_event_racing. rewrite Hess. discriminate.
Qed.

(** X7.  The event [save_or_update_event] returns is the row stored under
    its id once the call is over: [get_event_by_id] on the resulting store
    gives it back, whether the call committed or recovered from an
    integrity error. *)
Theorem returned_event_is_stored :
  forall (db db' : Database) (d : Normalized.t) (s : SourceData.t)
         (e : Event.t),
    store_valid db ->
    save_or_update_event db d s = (db', Some e) ->
    In e (events db') /\ get_event_by_id db' (Event.id e) = Some e.
Proof.
  intros db db' d s e Hv Hcall.
  pose proof (returned_event_in_table db db' d s e Hcall) as Hin.
  split; [exact Hin|].
  pose proof (store_valid_step db d s Hv) as Hv'.
  rewrite Hcall in Hv'. cbn [fst] in Hv'.
  unfold get_event_by_id.
  apply find_by_id_nodup; [exact (valid_event_ids_distinct db' Hv') | exact Hin].
Qed.

Lemma returned_event_is_stored_witness :
  let outcome :=
    save_or_update_event Examples.one_match Examples.later_report
      (Examples.source "thesportsdb" "77") in
  exists e : Event.t,
    snd outcome = Some e
    /\ In e (events (fst outcome))
    /\ get_event_by_id (fst outcome) (Event.id e) = Some e.
Proof.
  cbv zeta.
  exists (overwrite Examples.stored_match Examples.later_report
            "thesportsdb" 200).
  split; [reflexivity|].
  apply (returned_event_is_stored Examples.one_match _ Examples.later_report
           (Examples.source "thesportsdb" "77")).
  - exact (store_valid_step empty_database Examples.first_report
             (Examples.source "sofascore" "1") store_valid_empty).
  - reflexivity.
Defined.

(** X8.  When [save_or_update_event] returns an event for a provider
    name of at most 50 characters and a provider event id of at most 255,
    so that [event_source_mappings] stores both as they are, either
    [get_event_by_source_id] resolves the provider's identifier to that
    very event in the resulting store, or the call has written no row
    (the transaction was rolled back and the event was recovered by its
    key). *)
Theorem source_lookup_after_upsert :
  forall (db db' : Database) (d : Normalized.t) (s : SourceData.t)
         (sn sid : string) (e : Event.t),
    store_valid db ->
    SourceData.source_name s = Some sn ->
    SourceData.source_event_id s = Some sid ->
    (String.length sn <= 50)%nat ->
    (String.length sid <= 255)%nat ->
    save_or_update_event db d s = (db', Some e) ->
    get_event_by_source_id db' sn sid = inr (Some e)
    \/ (events db' = events db
        /\ event_source_mappings db' = event_source_mappings db).
Proof.
  intros db db' d s sn0 sid0 e Hv Hsn0 Hsid0 Hln Hls Hcall.
  pose proof (store_valid_step db d s Hv) as Hv'.
  rewrite Hcall in Hv'. cbn [fst] in Hv'.
  revert Hcall. unfold save_or_update_event.
  destruct (essential_data_present d s) eqn:Hess.
  - destruct (essential_data_values d s Hess)
      as (ts & home & away & sn & sid & incoming & Hts & Hh & Ha & Hsn
          & Hsid & Hi).
    rewrite (save_or_update_event_racing_unfold db db d s ts home away sn
               sid incoming Hess Hts Hh Ha Hsn Hsid Hi).
    assert (sn = sn0) by congruence. assert (sid = sid0) by congruence.
    subst sn0 sid0.
    destruct (try_body db d sn sid ts home away _ incoming _ db)
      as [db1 [x | e1]] eqn:Et.
    + destruct (is_IntegrityError x); [|discriminate].
      intro H. injection H as <- _. right. split; reflexivity.
    + intro H. injection H as <- <-. left.
      destruct (committed_lookup _ _ _ _ _ _ _ _ _ _ _ _
                  (clip_length 50 sn Hln) (clip_length 255 sid Hls) Et)
        as (N1 & N2 & m & Hq & Hid).
      pose proof (committed_in_table _ _ _ _ _ _ _ _ _ _ _ _ Et) as Hin.
      unfold get_event_by_source_id. rewrite N1, N2, Hq. cbn [orb].
      unfold mapping_event. rewrite Hid. f_equal.
      apply find_by_id_nodup;
        [exact (valid_event_ids_distinct db1 Hv') | exact Hin].
  - unfold save_or_update_event_racing. rewrite Hess. discriminate.
Qed.

Lemma source_lookup_after_upsert_witness :
  let outcome :=
    save_or_update_event Examples.one_match Examples.later_report
      (Examples.source "thesportsdb" "77") in
  get_event_by_source_id Examples.one_match "thesportsdb" "77" = inr None
  /\ (get_event_by_source_id (fst outcome) "thesportsdb" "77"
      = inr (Some (overwrite Examples.stored_match Examples.later_report
                     "thesportsdb" 200))
      \/ (events (fst outcome) = events Examples.one_match
          /\ event_source_mappings (fst outcome)
             = event_source_mappings Examples.one_match)).
Proof.
  cbv zeta. split; [reflexivity|].
  apply (source_lookup_after_upsert Examples.one_match _
           Examples.later_report (Examples.source "thesportsdb" "77")
           "thesportsdb" "77").
  - exact (store_valid_step empty_database Examples.first_report
             (Examples.source "sofascore" "1") store_valid_empty).
  - reflexivity.
  - reflexivity.
  - cbn. lia.
  - cbn. lia.
  - reflexivity.
Defined.

(** A provider name of more than 50 characters whose excess is spaces is
    stored shortened: the call creates the event and its mapping, and the
    lookup by the name as the caller wrote it finds nothing. *)
Lemma padded_source_is_not_found :
  let outcome :=
    save_or_update_event empty_database Examples.first_report
      (Examples.source Examples.padded_provider "1") in
  String.length Examples.padded_provider = 51%nat
  /\ (exists e, snd outcome = Some e /\ events (fst outcome) = [e])
  /\ get_event_by_source_id (fst outcome) Examples.padded_provider "1"
     = inr None
  /\ (exists e,
        get_event_by_source_id (fst outcome)
          (clip 50 Examples.padded_provider) "1" = inr (Some e)).
Proof.
  cbv zeta. split; [reflexivity|].
  split; [eexists; split; reflexivity|].
  split; [reflexivity|]. eexists. reflexivity.
Qed.

(** ** The same report delivered twice *)

(** Once a report is committed, the same report is turned down. *)
Lemma committed_not_updated_again (db db1 : Database) (d : Normalized.t)
    (sn sid : string) (ts : datetime) (home away : string)
    (league : option string) (incoming : Z) (e : Event.t) :
  dict_get (Normalized.last_updated_timestamp d) = Some incoming ->
  try_body db d sn sid ts home away league incoming
    (dict_get (Normalized.current_game_time d)) db = (db1, inr e) ->
  should_update d incoming (dict_get (Normalized.current_game_time d)) e
  = inr false.
Proof.
  intros Hi Ht.
  assert (Hsame : forall row : Event.t,
            Event.last_updated_timestamp row = Some incoming ->
            (forall g, dict_get (Normalized.current_game_time d) = Some g ->
                       Event.current_game_time row = Some g) ->
            should_update d incoming
              (dict_get (Normalized.current_game_time d)) row = inr false).
  { intros row Hl Hg. unfold should_update. rewrite Hl.
    rewrite Z.ltb_irrefl, Z.eqb_refl.
    destruct (dict_get (Normalized.current_game_time d)) as [g|].
    - rewrite (Hg g eq_refl), Z.ltb_irrefl, andb_false_r. reflexivity.
    - rewrite andb_false_r. reflexivity. }
  apply try_body_committed in Ht.
  destruct Ht as
    [(om & target & _ & Hs & -> & _)
    | [(om & target & _ & _ & -> & _) | (_ & -> & _)]].
  - exact Hs.
  - apply Hsame; [reflexivity|].
    intros g Hg. cbn [event_kept overwrite Event.current_game_time].
    apply setattr_dict_get. exact Hg.
  - apply Hsame; [exact Hi|].
    intros g Hg. exact Hg.
Qed.

Lemma id_fits_le (n m : nat) :
  (n <= m)%nat -> id_fits m -> id_fits n.
Proof.
  unfold id_fits, Integer_fits. intros Hle H.
  apply andb_true_iff in H. destruct H as [H1 H2].
  apply Z.leb_le in H1, H2. apply andb_true_iff.
  split; apply Z.leb_le; lia.
Qed.

(** The outcome of a write depends on the rows of the tables and on
    whether the sequences still have an id. *)
Lemma update_event_outcome_ext (db db' : Database) (row : Event.t) :
  events db' = events db ->
  snd (update_event row db') = snd (update_event row db).
Proof.
  intro Hev. unfold update_event. rewrite Hev.
  repeat match goal with
         | |- context [if ?c then _ else _] => destruct c
         end; reflexivity.
Qed.

Lemma insert_mapping_outcome_ext (db db' : Database) (i : nat)
    (sn sid : string) :
  event_source_mappings db' = event_source_mappings db ->
  id_fits (event_source_mappings_id_seq db) ->
  id_fits (event_source_mappings_id_seq db') ->
  snd (insert_mapping i sn sid db') = snd (insert_mapping i sn sid db).
Proof.
  intros Hm Hf Hf'. unfold id_fits in Hf, Hf'.
  unfold insert_mapping, mapping_binds, mapping_fits, new_mapping.
  cbn [EventSourceMapping.source_name EventSourceMapping.source_event_id
       EventSourceMapping.event_id].
  rewrite Hm, Hf, Hf'.
  unfold uq_source_event_conflict, uq_event_id_source_conflict,
    mapping_kept.
  cbn [EventSourceMapping.source_name EventSourceMapping.source_event_id
       EventSourceMapping.event_id].
  repeat match goal with
         | |- context [if ?c then _ else _] => destruct c
         end; reflexivity.
Qed.

Lemma save_mapping_and_commit_outcome_ext (db db' : Database)
    (om : option EventSourceMapping.t) (sn sid : string) (row : Event.t)
    (dirty : bool) :
  events db' = events db ->
  event_source_mappings db' = event_source_mappings db ->
  id_fits (event_source_mappings_id_seq db) ->
  id_fits (event_source_mappings_id_seq db') ->
  snd (save_mapping_and_commit om sn sid row dirty db')
  = snd (save_mapping_and_commit om sn sid row dirty db).
Proof.
  intros Hev Hm Hf Hf'.
  unfold save_mapping_and_commit.
  destruct dirty.
  - pose proof (update_event_outcome_ext db db' row Hev) as Hu.
    destruct (update_event_cases row db) as [[_ Hr] | [_ (x & Hr & _)]];
      destruct (update_event_cases row db')
        as [[_ Hr'] | [_ (x' & Hr' & _)]];
      rewrite Hr, Hr' in Hu; rewrite Hr, Hr'; cbn [snd] in Hu;
      try discriminate.
    + destruct om as [m|]; [reflexivity|].
      match goal with
      | |- snd (let (_, _) := insert_mapping ?i _ _ ?a in _)
           = snd (let (_, _) := insert_mapping _ _ _ ?b in _) =>
          pose proof (insert_mapping_outcome_ext b a i sn sid Hm Hf Hf')
            as Hi;
          destruct (insert_mapping i sn sid a) as [a1 [y1|u1]];
          destruct (insert_mapping i sn sid b) as [b1 [y2|u2]]
      end; cbn [snd] in Hi |- *; congruence.
    + cbn [snd]. congruence.
  - destruct om as [m|]; [reflexivity|].
    pose proof (insert_mapping_outcome_ext db db' (Event.id row) sn sid
                  Hm Hf Hf') as Hi.
    destruct (insert_mapping (Event.id row) sn sid db') as [a1 [y1|u1]];
      destruct (insert_mapping (Event.id row) sn sid db) as [b1 [y2|u2]];
      cbn [snd] in Hi |- *; congruence.
Qed.

Lemma resolve_target_ext (db db' : Database) (sn sid : string)
    (ts : datetime) (home away : string) (league : option string) :
  events db' = events db ->
  event_source_mappings db' = event_source_mappings db ->
  resolve_target db' sn sid ts home away league
  = resolve_target db sn sid ts home away league.
Proof.
  intros Hev Hm.
  unfold resolve_target, query_mapping, mapping_event, query_event_by_key.
  rewrite Hev, Hm. reflexivity.
Qed.

Lemma store_valid_foreign_keys (db : Database) :
  store_valid db -> foreign_keys_hold db.
Proof.
  intros Hv m Hm.
  destruct (valid_foreign_keys db Hv m Hm) as (e & He & <-).
  exact (valid_event_ids db Hv e He).
Qed.

(** A call advances each sequence by one at most. *)
Lemma try_body_sequences_bound (seen now db1 : Database) (d : Normalized.t)
    (sn sid : string) (ts : datetime) (home away : string)
    (league : option string) (incoming : Z) (cgt : option Z)
    (r : Exception + Event.t) :
  try_body seen d sn sid ts home away league incoming cgt now = (db1, r) ->
  (events_id_seq db1 <= S (events_id_seq now))%nat
  /\ (event_source_mappings_id_seq db1
      <= S (event_source_mappings_id_seq now))%nat.
Proof.
  assert (Hsmc : forall om row dirty db db' r',
             save_mapping_and_commit om sn sid row dirty db = (db', r') ->
             (events_id_seq db' <= events_id_seq db)%nat
             /\ (event_source_mappings_id_seq db'
                 <= S (event_source_mappings_id_seq db))%nat).
  { intros om row dirty db db' r'.
    unfold save_mapping_and_commit, update_event, insert_mapping.
    destruct dirty, om;
      repeat match goal with
             | |- context [if ?c then _ else _] => destruct c
             end;
      cbn; intro H; injection H as <- _; cbn; lia. }
  unfold try_body.
  destruct (resolve_target seen sn sid ts home away league)
    as [x | [om [target|]]].
  - intro H. injection H as <- _. lia.
  - destruct (merge_existing d sn incoming cgt target) as [x | [row dirty]].
    + intro H. injection H as <- _. lia.
    + intro H. apply Hsmc in H. lia.
  - unfold insert_event.
    repeat match goal with
           | |- context [if ?c then _ else _] => destruct c
           end;
      try (intro H; injection H as <- _; cbn; lia).
    intro H. apply Hsmc in H. cbn in H. lia.
Qed.

(** The INSERT of an event does not look at the id it draws, as long as
    the sequence has one. *)
Lemma insert_event_fails_again (db db' failed : Database)
    (d : Normalized.t) (sn : string) (x : Exception) :
  events db' = events db ->
  id_fits (events_id_seq db) ->
  id_fits (events_id_seq db') ->
  insert_event d sn db = (failed, inl x) ->
  snd (insert_event d sn db') = inl x.
Proof.
  intros Hev Hf Hf'. unfold id_fits in Hf, Hf'.
  unfold insert_event. rewrite Hev, Hf, Hf'.
  change (event_binds (new_event (events_id_seq db') d sn))
    with (event_binds (new_event (events_id_seq db) d sn)).
  change (event_fits (new_event (events_id_seq db') d sn))
    with (event_fits (new_event (events_id_seq db) d sn)).
  change (event_not_null (event_kept (new_event (events_id_seq db') d sn)))
    with (event_not_null (event_kept (new_event (events_id_seq db) d sn))).
  change (uq_event_canonical_conflict
            (event_kept (new_event (events_id_seq db') d sn)))
    with (uq_event_canonical_conflict
            (event_kept (new_event (events_id_seq db) d sn))).
  repeat match goal with
         | |- context [if ?c then _ else _] => destruct c
         end;
    intro H; try discriminate; injection H as _ <-; reflexivity.
Qed.

(** A call that failed fails again, with the same exception, on a store
    that holds the same rows, for a source that is stored as it is and
    sequences that have ids left. *)
Lemma try_body_fails_again (db db' failed : Database) (d : Normalized.t)
    (sn sid : string) (ts : datetime) (home away : string)
    (league : option string) (incoming : Z) (cgt : option Z)
    (x : Exception) :
  foreign_keys_hold db ->
  events db' = events db ->
  event_source_mappings db' = event_source_mappings db ->
  clip 50 sn = sn -> clip 255 sid = sid ->
  id_fits (events_id_seq db) -> id_fits (events_id_seq db') ->
  id_fits (event_source_mappings_id_seq db) ->
  id_fits (event_source_mappings_id_seq db') ->
  try_body db d sn sid ts home away league incoming cgt db
  = (failed, inl x) ->
  snd (try_body db' d sn sid ts home away league incoming cgt db') = inl x.
Proof.
  intros Hfk Hev Hm Hcn Hcs He He' Hms Hms'. unfold try_body.
  rewrite (resolve_target_ext db db' sn sid ts home away league Hev Hm).
  destruct (resolve_target db sn sid ts home away league)
    as [x0 | [om [target|]]] eqn:Er.
  - intro H. injection H as _ <-. reflexivity.
  - destruct (merge_existing d sn incoming cgt target) as [x0 | [row dirty]].
    + intro H. injection H as _ <-. reflexivity.
    + intro H.
      rewrite (save_mapping_and_commit_outcome_ext db db' om sn sid row
                 dirty Hev Hm Hms Hms').
      rewrite H. reflexivity.
  - destruct (insert_event_cases d sn db)
      as [[Hi Hr] | [_ (f & y & Hr & _)]]; rewrite Hr.
    + intro H. exfalso.
      destruct (resolve_target_inv _ _ _ _ _ _ _ _ _ Er)
        as (N1 & N2 & [(m & t & _ & Ht & _) | (-> & Hq & _)]);
        [discriminate|].
      revert H. unfold save_mapping_and_commit.
      match goal with
      | |- context [insert_mapping ?i sn sid ?a] =>
          destruct (insert_mapping_cases i sn sid a)
            as [[_ Hr2] | [Hacc _]]; [rewrite Hr2; discriminate|]
      end.
      exfalso. revert Hacc.
      unfold mapping_insert_accepted, mapping_accepted, mapping_fits,
        mapping_binds, new_mapping.
      cbn [events event_source_mappings event_source_mappings_id_seq
           events_id_seq Event.id new_event event_kept mapping_kept
           EventSourceMapping.source_name EventSourceMapping.source_event_id
           EventSourceMapping.event_id EventSourceMapping.id].
      rewrite N1, N2, (clip_fits 50 sn Hcn), (clip_fits 255 sid Hcs).
      unfold id_fits in He, Hms. rewrite He, Hms. cbn [negb andb].
      rewrite (unmapped_source_no_conflict db (events_id_seq db) sn sid);
        [|exact Hq | cbn; exact Hcn | cbn; exact Hcs].
      rewrite (fresh_event_id_unmapped db); [|exact Hfk | reflexivity].
      discriminate.
    + intro H. injection H as _ <-.
      pose proof (insert_event_fails_again db db' f d sn y Hev He He' Hr)
        as Hagain.
      destruct (insert_event d sn db') as [a [z|u]];
        cbn [snd] in *; [exact Hagain | discriminate].
Qed.


(** X9.  Delivering the same report twice is harmless, for a provider
    name of at most 50 characters and a provider event id of at most 255,
    which [event_source_mappings] stores as they are, and as long as each
    of the two sequences has two ids left: the second call of
    [save_or_update_event] with the same two arguments leaves the rows of
    both tables as the first call left them and returns what the first
    call returned. *)
Theorem redelivery_is_idempotent :
  forall (db : Database) (d : Normalized.t) (s : SourceData.t),
    store_valid db ->
    (forall sn, SourceData.source_name s = Some sn ->
                (String.length sn <= 50)%nat) ->
    (forall sid, SourceData.source_event_id s = Some sid ->
                 (String.length sid <= 255)%nat) ->
    id_fits (S (events_id_seq db)) ->
    id_fits (S (event_source_mappings_id_seq db)) ->
    let first := save_or_update_event db d s in
    let second := save_or_update_event (fst first) d s in
    events (fst second) = events (fst first)
    /\ event_source_mappings (fst second) = event_source_mappings (fst first)
    /\ snd second = snd first.
Proof.
  intros db d s Hv Hln Hls Hfe Hfm. cbv zeta.
  pose proof (store_valid_step db d s Hv) as Hv1.
  revert Hv1. unfold save_or_update_event.
  destruct (essential_data_present d s) eqn:Hess.
  - destruct (essential_data_values d s Hess)
      as (ts & home & away & sn & sid & incoming & Hts & Hh & Ha & Hsn
          & Hsid & Hi).
    pose proof (clip_length 50 sn (Hln sn Hsn)) as Hcn.
    pose proof (clip_length 255 sid (Hls sid Hsid)) as Hcs.
    rewrite (save_or_update_event_racing_unfold db db d s ts home away sn
               sid incoming Hess Hts Hh Ha Hsn Hsid Hi).
    destruct (try_body db d sn sid ts home away _ incoming _ db)
      as [db1 [x | e]] eqn:Et.
    + (* the first call failed *)
      set (db2 := rollback db db1).
      assert (Hfst : forall (b : bool) (r : option Event.t),
                fst (if b then (db2, r) else (db2, None)) = db2)
        by (intros [] r; reflexivity).
      rewrite Hfst. intros _.
      rewrite (save_or_update_event_racing_unfold db2 db2 d s ts home away
                 sn sid incoming Hess Hts Hh Ha Hsn Hsid Hi).
      destruct (try_body_sequences_bound _ _ _ _ _ _ _ _ _ _ _ _ _ Et)
        as [Hb1 Hb2].
      pose proof (try_body_fails_again db db2 db1 d sn sid ts home away
                    (dict_get (Normalized.league_id d)) incoming
                    (dict_get (Normalized.current_game_time d)) x
                    (store_valid_foreign_keys db Hv) eq_refl eq_refl
                    Hcn Hcs
                    (id_fits_le _ _ (Nat.le_succ_diag_r _) Hfe)
                    (id_fits_le _ _ Hb1 Hfe)
                    (id_fits_le _ _ (Nat.le_succ_diag_r _) Hfm)
                    (id_fits_le _ _ Hb2 Hfm) Et)
        as Hagain.
      destruct (try_body db2 d sn sid ts home away _ incoming _ db2)
        as [db3 r3]. cbn [snd] in Hagain. subst r3.
      destruct (is_IntegrityError x); cbn [fst snd].
      * split; [reflexivity|]. split; [reflexivity|].
        rewrite !query_event_by_key_rollback. reflexivity.
      * split; [reflexivity|]. split; reflexivity.
    + (* the first call committed *)
      cbn [fst snd]. intro Hv1.
      rewrite (save_or_update_event_racing_unfold db1 db1 d s ts home away
                 sn sid incoming Hess Hts Hh Ha Hsn Hsid Hi).
      destruct (committed_lookup _ _ _ _ _ _ _ _ _ _ _ _ Hcn Hcs Et)
        as (N1 & N2 & m & Hq & Hid).
      pose proof (committed_in_table _ _ _ _ _ _ _ _ _ _ _ _ Et) as Hin.
      assert (Hme : mapping_event db1 m = Some e).
      { unfold mapping_event. rewrite Hid.
        apply find_by_id_nodup;
          [exact (valid_event_ids_distinct db1 Hv1) | exact Hin]. }
      pose proof (committed_not_updated_again _ _ _ _ _ _ _ _ _ _ _ Hi Et)
        as Hno.
      unfold try_body.
      rewrite (resolve_mapped db1 sn sid ts home away
                 (dict_get (Normalized.league_id d)) m e N1 N2 Hq Hme).
      unfold merge_existing. rewrite Hno.
      cbn. split; [reflexivity|]. split; reflexivity.
  - unfold save_or_update_event_racing. rewrite Hess. cbn [negb fst snd].
    intros _. split; [reflexivity|]. split; reflexivity.
Qed.

Lemma redelivery_is_idempotent_witness :
  let first :=
    save_or_update_event Examples.one_match Examples.later_report
      (Examples.source "sofascore" "1") in
  let second :=
    save_or_update_event (fst first) Examples.later_report
      (Examples.source "sofascore" "1") in
  events (fst first) <> events Examples.one_match
  /\ events (fst second) = events (fst first)
  /\ event_source_mappings (fst second) = event_source_mappings (fst first)
  /\ snd second = snd first.
Proof.
  cbv zeta. split; [discriminate|].
  apply (redelivery_is_idempotent Examples.one_match Examples.later_report
           (Examples.source "sofascore" "1")).
  - exact (store_valid_step empty_database Examples.first_report
             (Examples.source "sofascore" "1") store_valid_empty).
  - intros sn H. injection H as <-. cbn. lia.
  - intros sid H. injection H as <-. cbn. lia.
  - reflexivity.
  - reflexivity.
Defined.

(** A report whose provider name and home team name are longer than
    their columns, the excess being spaces, is stored shortened: the
    first call creates the event and returns it; the second finds
    neither the mapping nor the key as the caller wrote them, its INSERT
    breaks [uq_event_canonical], and the event read again by the key as
    the caller wrote it does not exist. *)
Lemma redelivery_of_padded_report :
  let first :=
    save_or_update_event empty_database Examples.padded_report
      (Examples.source Examples.padded_provider "1") in
  let second :=
    save_or_update_event (fst first) Examples.padded_report
      (Examples.source Examples.padded_provider "1") in
  String.length Examples.padded_home = 256%nat
  /\ (exists e, snd first = Some e)
  /\ events (fst second) = events (fst first)
  /\ snd second = None.
Proof.
  cbv zeta. split; [reflexivity|].
  split; [eexists; reflexivity|]. split; reflexivity.
Qed.

Lemma find_replace_other (l : list Event.t) (row : Event.t) (i : nat) :
  Event.id row <> i ->
  find (fun e => Nat.eqb (Event.id e) i) (replace_event row l)
  = find (fun e => Nat.eqb (Event.id e) i) l.
Proof.
  intro Hne. unfold replace_event.
  induction l as [|x l IH]; cbn; [reflexivity|].
  destruct (Nat.eqb (Event.id x) (Event.id row)) eqn:E.
  - apply Nat.eqb_eq in E.
    assert (H1 : Nat.eqb (Event.id row) i = false)
      by (apply Nat.eqb_neq; exact Hne).
    assert (H2 : Nat.eqb (Event.id x) i = false)
      by (apply Nat.eqb_neq; congruence).
    rewrite H1, H2. exact IH.
  - destruct (Nat.eqb (Event.id x) i); [reflexivity | exact IH].
Qed.

Lemma find_app_found {A : Type} (P : A -> bool) (l l' : list A) (x : A) :
  find P l = Some x -> find P (l ++ l') = Some x.
Proof.
  induction l as [|y l IH]; cbn; [discriminate|].
  destruct (P y); [intro H; exact H | exact IH].
Qed.

Lemma not_fresher_refl (e : Event.t) (t : Z) :
  Event.last_updated_timestamp e = Some t -> not_fresher e e.
Proof.
  intro H. unfold not_fresher. rewrite H. right. split; [reflexivity|].
  destruct (Event.current_game_time e); [lia | exact I].
Qed.

Lemma not_fresher_trans (a b c : Event.t) :
  not_fresher a b -> not_fresher b c -> not_fresher a c.
Proof.
  unfold not_fresher.
  destruct (Event.last_updated_timestamp a) as [ta|]; [|contradiction].
  destruct (Event.last_updated_timestamp b) as [tb|]; [|contradiction].
  destruct (Event.last_updated_timestamp c) as [tc|]; [|intros _ []].
  intros [Hab | [Hab Gab]] [Hbc | [Hbc Gbc]]; try (left; lia).
  right. split; [lia|].
  destruct (Event.current_game_time a) as [ga|]; [|exact I].
  destruct (Event.current_game_time b) as [gb|]; [|contradiction].
  destruct (Event.current_game_time c) as [gc|]; [lia | contradiction].
Qed.

(** An accepted merge writes a version that is not older. *)
Lemma accepted_merge_not_older (d : Normalized.t) (sn : string)
    (incoming : Z) (target : Event.t) :
  should_update d incoming (dict_get (Normalized.current_game_time d)) target
  = inr true ->
  not_fresher target (overwrite target d sn incoming).
Proof.
  unfold should_update, not_fresher.
  cbn [overwrite Event.last_updated_timestamp Event.current_game_time].
  destruct (Event.last_updated_timestamp target) as [stored|];
    [|discriminate].
  destruct (stored <? incoming) eqn:Hlt.
  - intros _. left. apply Z.ltb_lt. exact Hlt.
  - destruct (incoming =? stored) eqn:Heq; [|discriminate].
    apply Z.eqb_eq in Heq. intro H. injection H as H.
    apply andb_true_iff in H. destruct H as [_ H].
    right. split; [symmetry; exact Heq|].
    destruct (dict_get (Normalized.current_game_time d)) as [g|] eqn:Hg;
      [|discriminate].
    rewrite (setattr_dict_get (Event.current_game_time target) _ g Hg).
    destruct (Event.current_game_time target) as [g0|]; [|exact I].
    apply Z.ltb_lt in H. lia.
Qed.

Lemma get_event_by_id_step (db : Database) (d : Normalized.t)
    (s : SourceData.t) (i : nat) (e : Event.t) (t : Z) :
  store_valid db ->
  get_event_by_id db i = Some e ->
  Event.last_updated_timestamp e = Some t ->
  exists e',
    get_event_by_id (fst (save_or_update_event db d s)) i = Some e'
    /\ not_fresher e e'.
Proof.
  intros Hv Hget Ht.
  assert (Hsame : forall db', events db' = events db ->
            exists e', get_event_by_id db' i = Some e' /\ not_fresher e e').
  { intros db' Hev. exists e. split; [|exact (not_fresher_refl e t Ht)].
    unfold get_event_by_id. rewrite Hev. exact Hget. }
  unfold save_or_update_event.
  destruct (essential_data_present d s) eqn:Hess.
  - destruct (essential_data_values d s Hess)
      as (ts & home & away & sn & sid & incoming & Hts & Hh & Ha & Hsn
          & Hsid & Hi).
    rewrite (save_or_update_event_racing_unfold db db d s ts home away sn
               sid incoming Hess Hts Hh Ha Hsn Hsid Hi).
    destruct (try_body db d sn sid ts home away _ incoming _ db)
      as [db1 [x | e1]] eqn:Et.
    + destruct (is_IntegrityError x); cbn [fst]; apply Hsame; reflexivity.
    + cbn [fst]. apply try_body_committed in Et.
      destruct Et as
        [(om & target & _ & _ & _ & Hev & _)
        | [(om & target & Hr & Hs & He & Hev & _) | (_ & _ & Hev & _)]].
      * apply Hsame. exact Hev.
      * pose proof (resolve_target_in _ _ _ _ _ _ _ _ _ Hr) as Hin.
        assert (Hid : Event.id e1 = Event.id target)
          by (subst e1; reflexivity).
        destruct (Nat.eq_dec (Event.id target) i) as [Hi' | Hi'].
        -- assert (Htarget : e = target).
           { pose proof (find_by_id_nodup (events db) target
                           (valid_event_ids_distinct db Hv) Hin) as Hf.
             unfold get_event_by_id in Hget. rewrite Hi' in Hf.
             congruence. }
           subst e. exists e1. split.
           ++ unfold get_event_by_id. rewrite Hev.
              apply (find_replace_event (events db) e1 target i);
                [exact Hget | congruence].
           ++ subst e1. apply accepted_merge_not_older. exact Hs.
        -- exists e. split; [|exact (not_fresher_refl e t Ht)].
           unfold get_event_by_id. rewrite Hev.
           rewrite find_replace_other; [exact Hget | congruence].
      * exists e. split; [|exact (not_fresher_refl e t Ht)].
        unfold get_event_by_id. rewrite Hev.
        apply find_app_found. exact Hget.
  - unfold save_or_update_event_racing. rewrite Hess. cbn [negb fst].
    apply Hsame. reflexivity.
Qed.

(** X10.  A stored event never gets older and is never removed: after any
    sequence of calls of [save_or_update_event], the row of a given id is
    still there, and its update time is not lower than before; when the
    update time is the same the game time is not lower either. *)
Theorem stored_event_never_gets_older :
  forall (calls : list (Normalized.t * SourceData.t)) (db : Database)
         (i : nat) (e : Event.t) (t : Z),
    store_valid db ->
    get_event_by_id db i = Some e ->
    Event.last_updated_timestamp e = Some t ->
    exists e',
      get_event_by_id (save_or_update_events db calls) i = Some e'
      /\ not_fresher e e'.
Proof.
  induction calls as [|[d s] calls IH]; intros db i e t Hv Hget Ht.
  - exists e. split; [exact Hget | exact (not_fresher_refl e t Ht)].
  - cbn [save_or_update_events].
    destruct (get_event_by_id_step db d s i e t Hv Hget Ht)
      as (e1 & Hget1 & Hf1).
    assert (Ht1 : exists t1, Event.last_updated_timestamp e1 = Some t1).
    { unfold not_fresher in Hf1. rewrite Ht in Hf1.
      destruct (Event.last_updated_timestamp e1) as [t1|];
        [exists t1; reflexivity | contradiction]. }
    destruct Ht1 as [t1 Ht1].
    destruct (IH (fst (save_or_update_event db d s)) i e1 t1
                (store_valid_step db d s Hv) Hget1 Ht1)
      as (e2 & Hget2 & Hf2).
    exists e2. split; [exact Hget2|].
    exact (not_fresher_trans e e1 e2 Hf1 Hf2).
Qed.

Lemma stored_event_never_gets_older_witness :
  exists e',
    get_event_by_id
      (save_or_update_events Examples.one_match
         [ (Examples.newest_report, Examples.source "sofascore" "1");
           (Examples.middle_report, Examples.source "sofascore" "1");
           (Examples.later_report, Examples.source "thesportsdb" "77") ])
      1 = Some e'
    /\ not_fresher Examples.stored_match e'.
Proof.
  apply (stored_event_never_gets_older
           [ (Examples.newest_report, Examples.source "sofascore" "1");
             (Examples.middle_report, Examples.source "sofascore" "1");
             (Examples.later_report, Examples.source "thesportsdb" "77") ]
           Examples.one_match 1 Examples.stored_match 100).
  - exact (store_valid_step empty_database Examples.first_report
             (Examples.source "sofascore" "1") store_valid_empty).
  - reflexivity.
  - reflexivity.
Defined.

(** ** Rows are never deleted *)

Lemma rows_kept_step (db : Database) (d : Normalized.t) (s : SourceData.t) :
  exists (more : list nat) (added : list EventSourceMapping.t),
    map Event.id (events (fst (save_or_update_event db d s)))
    = map Event.id (events db) ++ more
    /\ event_source_mappings (fst (save_or_update_event db d s))
       = event_source_mappings db ++ added.
Proof.
  assert (Hsame : forall db',
            events db' = events db ->
            event_source_mappings db' = event_source_mappings db ->
            exists more added,
              map Event.id (events db') = map Event.id (events db) ++ more
              /\ event_source_mappings db'
                 = event_source_mappings db ++ added).
  { intros db' -> ->. exists [], []. rewrite !app_nil_r. split; reflexivity. }
  assert (Hmapped : forall db1 om eid sn sid,
            mapping_recorded db db1 om eid sn sid ->
            exists added, event_source_mappings db1
                          = event_source_mappings db ++ added).
  { intros db1 om eid sn sid Hrec. unfold mapping_recorded in Hrec.
    destruct om as [m|].
    - destruct Hrec as [-> _]. exists []. rewrite app_nil_r. reflexivity.
    - cbv zeta in Hrec. destruct Hrec as (-> & _). eexists. reflexivity. }
  unfold save_or_update_event.
  destruct (essential_data_present d s) eqn:Hess.
  - destruct (essential_data_values d s Hess)
      as (ts & home & away & sn & sid & incoming & Hts & Hh & Ha & Hsn
          & Hsid & Hi).
    rewrite (save_or_update_event_racing_unfold db db d s ts home away sn
               sid incoming Hess Hts Hh Ha Hsn Hsid Hi).
    destruct (try_body db d sn sid ts home away _ incoming _ db)
      as [db1 [x | e1]] eqn:Et.
    + destruct (is_IntegrityError x); cbn [fst]; apply Hsame; reflexivity.
    + cbn [fst]. apply try_body_committed in Et.
      destruct Et as
        [(om & target & _ & _ & _ & Hev & _ & Hmap)
        | [(om & target & _ & _ & _ & Hev & _ & _ & _ & Hmap)
          | (_ & _ & Hev & _ & _ & _ & Hmap)]];
        destruct (Hmapped _ _ _ _ _ Hmap) as [added Hadded];
        rewrite Hev, Hadded.
      * exists [], added. rewrite app_nil_r. split; reflexivity.
      * exists [], added. rewrite map_id_replace_event, app_nil_r.
        split; reflexivity.
      * exists [Event.id e1], added. rewrite map_app. split; reflexivity.
  - unfold save_or_update_event_racing. rewrite Hess. cbn [negb fst].
    apply Hsame; reflexivity.
Qed.

(** X11.  [save_or_update_event] never deletes or reorders a row: after
    any sequence of calls the ids of the stored events are the former ids
    followed by new ones, and the mapping rows are the former rows,
    unchanged, followed by new ones. *)
Theorem rows_are_never_deleted :
  forall (calls : list (Normalized.t * SourceData.t)) (db : Database),
    exists (more : list nat) (added : list EventSourceMapping.t),
      map Event.id (events (save_or_update_events db calls))
      = map Event.id (events db) ++ more
      /\ event_source_mappings (save_or_update_events db calls)
         = event_source_mappings db ++ added.
Proof.
  induction calls as [|[d s] calls IH]; intro db.
  - exists [], []. cbn. rewrite !app_nil_r. split; reflexivity.
  - cbn [save_or_update_events].
    destruct (rows_kept_step db d s) as (more1 & added1 & E1 & M1).
    destruct (IH (fst (save_or_update_event db d s)))
      as (more2 & added2 & E2 & M2).
    exists (more1 ++ more2), (added1 ++ added2).
    rewrite E2, M2, E1, M1, !app_assoc. split; reflexivity.
Qed.

(** ** A second provider reports a stored event *)

Lemma option_eqb_Z_eq (x y : option Z) :
  option_eqb Z.eqb x y = true <-> x = y.
Proof.
  destruct x as [a|], y as [b|]; cbn; split; intro H;
    try discriminate; try reflexivity.
  - apply Z.eqb_eq in H. congruence.
  - injection H as ->. apply Z.eqb_refl.
Qed.

Lemma event_key_matches_fields (ts : datetime) (home away : string)
    (league : option string) (e : Event.t) :
  event_key_matches ts home away league e = true ->
  Event.event_timestamp e = Some ts
  /\ Event.home_team_name e = Some home
  /\ Event.away_team_name e = Some away
  /\ Event.league_id e = league.
Proof.
  unfold event_key_matches. intro H.
  apply andb_true_iff in H. destruct H as [H Hl].
  apply andb_true_iff in H. destruct H as [H Ha].
  apply andb_true_iff in H. destruct H as [Ht Hh].
  split; [apply option_eqb_Z_eq; exact Ht|].
  split; [apply option_eqb_string_eq; exact Hh|].
  split; apply option_eqb_string_eq; assumption.
Qed.


Lemma other_source_no_conflict (db : Database) (eid : nat) (sn sid : string)
    (m0 : EventSourceMapping.t) :
  EventSourceMapping.event_id m0 = eid ->
  EventSourceMapping.source_name m0 = sn ->
  (forall m, In m (event_source_mappings db) ->
             EventSourceMapping.event_id m = eid ->
             EventSourceMapping.source_name m <> sn) ->
  existsb (uq_event_id_source_conflict m0) (event_source_mappings db)
  = false.
Proof.
  intros Hid0 Hsn0 Hfree.
  destruct (existsb _ _) eqn:E; [|reflexivity].
  apply existsb_exists in E. destruct E as (m & Hin & Hc).
  unfold uq_event_id_source_conflict in Hc.
  apply andb_true_iff in Hc. destruct Hc as [Hid Hs].
  apply Nat.eqb_eq in Hid. apply String.eqb_eq in Hs.
  exfalso. apply (Hfree m Hin); congruence.
Qed.

(** ** Sources and rows that are stored as they are *)

Lemma source_stored_as_is_kept (db : Database) (eid : nat)
    (sn sid : string) :
  source_stored_as_is sn sid ->
  mapping_kept (new_mapping db eid sn sid) = new_mapping db eid sn sid.
Proof.
  intros (_ & _ & Hcn & Hcs). unfold mapping_kept, new_mapping.
  cbn [EventSourceMapping.id EventSourceMapping.event_id
       EventSourceMapping.source_name EventSourceMapping.source_event_id].
  rewrite Hcn, Hcs. reflexivity.
Qed.

(** The INSERT of the mapping of a source that is stored as it is goes
    through when the source is not mapped, its provider is not mapped to
    the event, and the ids fit. *)
Lemma mapping_insert_accepted_plain (db : Database) (eid : nat)
    (sn sid : string) :
  source_stored_as_is sn sid ->
  id_fits eid ->
  id_fits (event_source_mappings_id_seq db) ->
  query_mapping db sn sid = None ->
  (forall m, In m (event_source_mappings db) ->
             EventSourceMapping.event_id m = eid ->
             EventSourceMapping.source_name m <> sn) ->
  mapping_insert_accepted db eid sn sid = true.
Proof.
  intros Hsrc Hfe Hfm Hq Hfree.
  pose proof (source_stored_as_is_kept db eid sn sid Hsrc) as Hk.
  destruct Hsrc as (N1 & N2 & Hcn & Hcs).
  assert (Hmf : mapping_fits (new_mapping db eid sn sid) = true).
  { unfold mapping_fits, new_mapping.
    cbn [EventSourceMapping.event_id EventSourceMapping.source_name
         EventSourceMapping.source_event_id].
    unfold id_fits in Hfe.
    rewrite Hfe, (clip_fits 50 sn Hcn), (clip_fits 255 sid Hcs).
    reflexivity. }
  unfold mapping_insert_accepted, mapping_accepted. rewrite Hk, Hmf.
  rewrite (mapping_binds_new db eid sn sid N1 N2).
  unfold id_fits in Hfm. rewrite Hfm.
  rewrite (unmapped_source_no_conflict db eid sn sid
             (new_mapping db eid sn sid) Hq eq_refl eq_refl).
  rewrite (other_source_no_conflict db eid sn sid
             (new_mapping db eid sn sid) eq_refl eq_refl Hfree).
  reflexivity.
Qed.

(** A commit that goes through, in full. *)
Lemma commit_succeeds_committed (db : Database)
    (om : option EventSourceMapping.t) (sn sid : string) (row : Event.t)
    (dirty : bool) :
  commit_succeeds db om sn sid row dirty = true ->
  let kept := if dirty then event_kept row else row in
  exists db1,
    save_mapping_and_commit om sn sid row dirty db = (db1, inr kept)
    /\ events db1
       = (if dirty then replace_event kept (events db) else events db)
    /\ events_id_seq db1 = events_id_seq db
    /\ mapping_recorded db db1 om (Event.id row) sn sid.
Proof.
  intros Hc kept.
  destruct (save_mapping_and_commit_cases db om sn sid row dirty)
    as [(_ & Hr & _) | (Hc' & _)]; [|congruence].
  destruct (save_mapping_and_commit om sn sid row dirty db) as [db1 r] eqn:E.
  cbn [snd] in Hr. subst r. exists db1. split; [reflexivity|].
  apply save_mapping_and_commit_committed in E.
  destruct E as (_ & He & Hs & _ & Hm).
  split; [|split; assumption].
  rewrite He. destruct dirty; reflexivity.
Qed.

Lemma resolve_unmapped (db : Database) (sn sid : string) (ts : datetime)
    (home away : string) (league : option string) :
  has_nul sn = false -> has_nul sid = false ->
  has_nul home = false -> has_nul away = false -> binds league = true ->
  query_mapping db sn sid = None ->
  resolve_target db sn sid ts home away league
  = inr (None, query_event_by_key db ts home away league).
Proof.
  intros N1 N2 N3 N4 N5 Hq. unfold resolve_target.
  rewrite N1, N2, Hq, N3, N4, N5. reflexivity.
Qed.

(** The strings of the key of a row that the driver binds. *)
Lemma event_binds_key (e : Event.t) (home away : string) :
  event_binds e = true ->
  Event.home_team_name e = Some home ->
  Event.away_team_name e = Some away ->
  has_nul home = false /\ has_nul away = false
  /\ binds (Event.league_id e) = true
  /\ binds (Event.last_data_source e) = true.
Proof.
  unfold event_binds. intros H Hh Ha.
  repeat (apply andb_true_iff in H; destruct H as [H ?]).
  rewrite Hh in *. rewrite Ha in *. cbn [binds] in *.
  repeat split; try assumption; apply negb_true_iff; assumption.
Qed.

(** ** A second provider of a stored event *)



(** ** The first sighting of an event *)

(** An upsert that finds neither mapping nor event inserts one of each,
    when the new row and the source are stored as they are and both
    sequences have an id. *)
Lemma create_step (db : Database) (d : Normalized.t) (s : SourceData.t)
    (ts : datetime) (home away sn sid : string) (incoming : Z) :
  essential_data_present d s = true ->
  dict_get (Normalized.event_timestamp d) = Some ts ->
  dict_get (Normalized.home_team_name d) = Some home ->
  dict_get (Normalized.away_team_name d) = Some away ->
  SourceData.source_name s = Some sn ->
  SourceData.source_event_id s = Some sid ->
  dict_get (Normalized.last_updated_timestamp d) = Some incoming ->
  event_not_null (new_event (events_id_seq db) d sn) = true ->
  stored_as_is (new_event (events_id_seq db) d sn) ->
  source_stored_as_is sn sid ->
  id_fits (events_id_seq db) ->
  id_fits (event_source_mappings_id_seq db) ->
  query_mapping db sn sid = None ->
  query_event_by_key db ts home away (dict_get (Normalized.league_id d))
  = None ->
  foreign_keys_hold db ->
  save_or_update_event db d s
  = ({| events := events db ++ [new_event (events_id_seq db) d sn];
        event_source_mappings :=
          event_source_mappings db
          ++ [new_mapping db (events_id_seq db) sn sid];
        events_id_seq := S (events_id_seq db);
        event_source_mappings_id_seq :=
          S (event_source_mappings_id_seq db) |},
     Some (new_event (events_id_seq db) d sn)).
Proof.
  intros Hess Hts Hh Ha Hsn Hsid Hi Hnn (Hb & Hf & Hkept) Hsrc Hfe Hfm Hq Hk
    Hfk.
  set (created := new_event (events_id_seq db) d sn) in *.
  destruct (event_binds_key created home away Hb)
    as (N3 & N4 & N5 & _);
    [cbn; exact Hh | cbn; exact Ha |].
  pose proof Hsrc as (N1 & N2 & _ & _).
  unfold save_or_update_event.
  rewrite (save_or_update_event_racing_unfold db db d s ts home away sn sid
             incoming Hess Hts Hh Ha Hsn Hsid Hi).
  unfold try_body.
  rewrite (resolve_unmapped db sn sid ts home away
             (dict_get (Normalized.league_id d)) N1 N2 N3 N4 N5 Hq), Hk.
  destruct (insert_event_cases d sn db) as [[_ Hr] | [Hacc _]].
  - rewrite Hr. fold created. rewrite Hkept.
    match goal with
    | |- context [save_mapping_and_commit None sn sid created false ?a] =>
        set (db1 := a)
    end.
    assert (Hmi : mapping_insert_accepted db1 (Event.id created) sn sid
                  = true).
    { apply mapping_insert_accepted_plain;
        [exact Hsrc | exact Hfe | exact Hfm | exact Hq |].
      intros m Hin Hid. exfalso. apply Hfk in Hin.
      cbn in Hid. lia. }
    unfold save_mapping_and_commit.
    destruct (insert_mapping_cases (Event.id created) sn sid db1)
      as [[_ Hr2] | [Hacc _]]; [|congruence].
    rewrite Hr2.
    rewrite (source_stored_as_is_kept db1 _ sn sid Hsrc).
    reflexivity.
  - exfalso. revert Hacc. unfold insert_accepted. fold created.
    unfold id_fits in Hfe.
    rewrite Hb, Hf, Hfe, Hkept, Hnn.
    rewrite (no_key_no_conflict db created ts home away _ Hk Hts Hh Ha
               eq_refl).
    discriminate.
Qed.



(** A report with a home score of 2^31 is not stored: the INSERT raises
    [DataError], the call returns [None] and leaves the tables alone. *)
Lemma first_sighting_out_of_range :
  save_or_update_event empty_database Examples.report_out_of_range
    (Examples.source "sofascore" "1")
  = (empty_database, None).
Proof. reflexivity. Qed.


(** ** A call that returns the failure result *)

(** X14.  A call of [save_or_update_event] that returns [None] has written
    no row, whatever other writers committed between its lookups and its
    writes: both tables are as its writes met them, also when the
    exception came after the new event was flushed. *)
Theorem failed_call_writes_nothing :
  forall (seen now : Database) (d : Normalized.t) (s : SourceData.t),
    snd (save_or_update_event_racing seen now d s) = None ->
    events (fst (save_or_update_event_racing seen now d s)) = events now
    /\ event_source_mappings (fst (save_or_update_event_racing seen now d s))
       = event_source_mappings now.
Proof.
  intros seen now d s.
  destruct (essential_data_present d s) eqn:Hess.
  - destruct (essential_data_values d s Hess)
      as (ts & home & away & sn & sid & incoming & Hts & Hh & Ha & Hsn
          & Hsid & Hi).
    rewrite (save_or_update_event_racing_unfold seen now d s ts home away sn
               sid incoming Hess Hts Hh Ha Hsn Hsid Hi).
    destruct (try_body seen d sn sid ts home away _ incoming _ now)
      as [db1 [x | e]].
    + destruct (is_IntegrityError x); intros _; split; reflexivity.
    + discriminate.
  - unfold save_or_update_event_racing. rewrite Hess. cbn [negb].
    intros _. split; reflexivity.
Qed.

Lemma failed_call_writes_nothing_witness :
  let outcome :=
    save_or_update_event_racing empty_database Examples.one_match
      Examples.moved_report (Examples.source "sofascore" "1") in
  snd outcome = None
  /\ events (fst outcome) = events Examples.one_match
  /\ event_source_mappings (fst outcome)
     = event_source_mappings Examples.one_match.
Proof.
  cbv zeta. split; [reflexivity|].
  apply (failed_call_writes_nothing empty_database Examples.one_match
           Examples.moved_report (Examples.source "sofascore" "1")).
  reflexivity.
Defined.

(** ** [get_next_scheduled_event_start_time] *)






(** ** Provenance *)

(** ** Provenance *)

Lemma essential_data_nonzero (d : Normalized.t) (s : SourceData.t)
    (sn : string) (incoming : Z) :
  essential_data_present d s = true ->
  SourceData.source_name s = Some sn ->
  dict_get (Normalized.last_updated_timestamp d) = Some incoming ->
  sn <> EmptyString /\ incoming <> 0.
Proof.
  unfold essential_data_present. intros H Hsn Hi.
  rewrite Hsn, Hi in H.
  apply andb_true_iff in H. destruct H as [H Hinc].
  apply andb_true_iff in H. destruct H as [H _].
  apply andb_true_iff in H. destruct H as [_ Hs].
  cbn in Hs, Hinc. split.
  - intros ->. discriminate.
  - intros ->. discriminate.
Qed.


(** A row that a call of the method wrote: it carries the name of the
    provider of the call, as the column keeps it, and the update time of
    its record. *)
Lemma provenance_step (db : Database) (d : Normalized.t) (s : SourceData.t)
    (e : Event.t) :
  In e (events (fst (save_or_update_event db d s))) ->
  In e (events db)
  \/ exists (sn : string) (t : Z),
       SourceData.source_name s = Some sn
       /\ dict_get (Normalized.last_updated_timestamp d) = Some t
       /\ sn <> EmptyString /\ t <> 0
       /\ Event.last_data_source e = Some (clip 50 sn)
       /\ Event.last_updated_timestamp e = Some t.
Proof.
  unfold save_or_update_event.
  destruct (essential_data_present d s) eqn:Hess.
  - destruct (essential_data_values d s Hess)
      as (ts & home & away & sn & sid & incoming & Hts & Hh & Ha & Hsn
          & Hsid & Hi).
    destruct (essential_data_nonzero d s sn incoming Hess Hsn Hi)
      as [Hsn0 Hinc0].
    rewrite (save_or_update_event_racing_unfold db db d s ts home away sn
               sid incoming Hess Hts Hh Ha Hsn Hsid Hi).
    destruct (try_body db d sn sid ts home away _ incoming _ db)
      as [db1 [x | e1]] eqn:Et.
    + destruct (is_IntegrityError x); intro Hin; left; exact Hin.
    + cbn [fst]. apply try_body_committed in Et.
      destruct Et as
        [(om & target & _ & _ & _ & Hev & _)
        | [(om & target & _ & _ & He & Hev & _) | (_ & He & Hev & _)]];
        rewrite Hev; intros Hin.
      * left. exact Hin.
      * apply in_replace_event in Hin. destruct Hin as [-> | Hin];
          [|left; exact Hin].
        right. exists sn, incoming. subst e1. cbn [event_kept overwrite
          Event.last_data_source Event.last_updated_timestamp String_kept].
        repeat split; assumption.
      * apply in_app_or in Hin. destruct Hin as [Hin | [<- | []]];
          [left; exact Hin|].
        right. exists sn, incoming. subst e1. cbn [event_kept new_event
          Event.last_data_source Event.last_updated_timestamp String_kept].
        repeat split; assumption.
  - unfold save_or_update_event_racing. rewrite Hess. intro Hin.
    left. exact Hin.
Qed.

Lemma provenance_after_calls (db : Database)
    (calls : list (Normalized.t * SourceData.t)) (e : Event.t) :
  In e (events (save_or_update_events db calls)) ->
  In e (events db)
  \/ exists (d : Normalized.t) (s : SourceData.t) (sn : string) (t : Z),
       In (d, s) calls
       /\ SourceData.source_name s = Some sn
       /\ dict_get (Normalized.last_updated_timestamp d) = Some t
       /\ sn <> EmptyString /\ t <> 0
       /\ Event.last_data_source e = Some (clip 50 sn)
       /\ Event.last_updated_timestamp e = Some t.
Proof.
  revert db. induction calls as [|[d s] calls IH]; intros db Hin.
  - left. exact Hin.
  - cbn [save_or_update_events] in Hin. apply IH in Hin.
    destruct Hin as [Hin | (d' & s' & sn & t & Hc & H)].
    + apply provenance_step in Hin.
      destruct Hin as [Hin | (sn & t & H)]; [left; exact Hin|].
      right. exists d, s, sn, t. split; [left; reflexivity | exact H].
    + right. exists d', s', sn, t. split; [right; exact Hc | exact H].
Qed.

(** X16.  Every row [save_or_update_event] writes records its provenance:
    after any sequence of calls of the method, each event of the store
    either was there before the calls, or carries the provider name and
    the update time of one and the same call of the sequence: its
    [last_data_source] is the [source_name] of that call, a non-empty
    string, as the [String(50)] column keeps it, and its
    [last_updated_timestamp] is the non-zero [last_updated_timestamp] of
    the record of that call. *)
Theorem provenance_is_recorded :
  forall (db : Database) (calls : list (Normalized.t * SourceData.t))
         (e : Event.t),
    In e (events (save_or_update_events db calls)) ->
    In e (events db)
    \/ exists (d : Normalized.t) (s : SourceData.t) (sn : string) (t : Z),
         In (d, s) calls
         /\ SourceData.source_name s = Some sn
         /\ dict_get (Normalized.last_updated_timestamp d) = Some t
         /\ sn <> EmptyString /\ t <> 0
         /\ Event.last_data_source e = Some (clip 50 sn)
         /\ Event.last_updated_timestamp e = Some t.
Proof.
  intros db calls. revert db.
  induction calls as [|[d s] calls IH]; intros db e Hin.
  - left. exact Hin.
  - cbn [save_or_update_events] in Hin. apply IH in Hin.
    destruct Hin as [Hin | (d' & s' & sn & t & Hc & H)].
    + apply provenance_step in Hin.
      destruct Hin as [Hin | (sn & t & H)]; [left; exact Hin|].
      right. exists d, s, sn, t. split; [left; reflexivity | exact H].
    + right. exists d', s', sn, t. split; [right; exact Hc | exact H].
Qed.

Lemma provenance_is_recorded_witness :
  let calls :=
    [ (Examples.first_report, Examples.source "sofascore" "1");
      (Examples.later_report, Examples.source "thesportsdb" "77") ] in
  let e := new_event 1 Examples.later_report "thesportsdb" in
  events (save_or_update_events empty_database calls) = [e]
  /\ exists (d : Normalized.t) (s : SourceData.t) (sn : string) (t : Z),
       In (d, s) calls
       /\ SourceData.source_name s = Some sn
       /\ dict_get (Normalized.last_updated_timestamp d) = Some t
       /\ sn <> EmptyString /\ t <> 0
       /\ Event.last_data_source e = Some (clip 50 sn)
       /\ Event.last_updated_timestamp e = Some t.
Proof.
  cbv zeta. split; [reflexivity|].
  destruct (provenance_is_recorded empty_database
              [ (Examples.first_report, Examples.source "sofascore" "1");
                (Examples.later_report, Examples.source "thesportsdb" "77") ]
              (new_event 1 Examples.later_report "thesportsdb")
              (or_introl eq_refl)) as [[] | H].
  exact H.
Defined.

(** ** The exceptions of the [try] block *)

Lemma find_in_not_none {A : Type} (P : A -> bool) (l : list A) (x : A) :
  In x l -> P x = true -> find P l <> None.
Proof.
  intros Hin HP Hnone.
  pose proof (find_none P l Hnone x Hin) as H. congruence.
Qed.

(** The exceptions of the second step are those of the database. *)
Lemma save_mapping_and_commit_raises (db failed : Database)
    (om : option EventSourceMapping.t) (sn sid : string) (row : Event.t)
    (dirty : bool) (x : Exception) :
  save_mapping_and_commit om sn sid row dirty db = (failed, inl x) ->
  x = ValueError \/ x = DataError \/ exists c, x = IntegrityError c.
Proof.
  assert (Hins : forall (i : nat) (db0 db2 : Database) (r : Event.t),
             (let (db1, r2) := insert_mapping i sn sid db0 in
              match r2 with
              | inl y => (db1, inl y)
              | inr _ => (db1, inr r)
              end) = (db2, inl x) ->
             x = ValueError \/ x = DataError
             \/ exists c, x = IntegrityError c).
  { intros i db0 db2 r.
    destruct (insert_mapping_cases i sn sid db0)
      as [[_ Hr] | [_ (f & y & Hr & _ & _ & _ & Hy)]]; rewrite Hr;
      [discriminate|].
    intro H. injection H as _ <-.
    destruct Hy as [[-> _] | [[-> _] | [[-> _] | [-> _]]]]; eauto. }
  unfold save_mapping_and_commit.
  destruct dirty.
  - destruct (update_event_cases row db) as [[_ Hr] | [_ (y & Hr & Hy)]];
      rewrite Hr.
    + destruct om as [m|]; [discriminate|]. apply Hins.
    + intro H. injection H as _ <-.
      destruct Hy as [-> | [-> | [-> | [-> _]]]]; eauto.
  - destruct om as [m|]; [discriminate|]. apply Hins.
Qed.

(** X17.  On a store built by calls of [save_or_update_event] alone, the
    [try] block of a further call raises neither the [TypeError] of a
    comparison with a missing update time nor the [AttributeError] of a
    mapping without event: an exception it raises comes from the
    database layer, and is the [ValueError] of the driver for a string
    with a NUL character, a [DataError] for a value that the type of its
    column refuses, or an [IntegrityError]. *)
Theorem only_database_errors :
  forall (calls : list (Normalized.t * SourceData.t)) (d : Normalized.t)
         (sn sid : string) (ts : datetime) (home away : string)
         (league : option string) (incoming : Z) (cgt : option Z)
         (failed : Database) (x : Exception),
    let db := save_or_update_events empty_database calls in
    try_body db d sn sid ts home away league incoming cgt db
    = (failed, inl x) ->
    (x <> TypeError /\ x <> AttributeError)
    /\ (x = ValueError \/ x = DataError \/ exists c, x = IntegrityError c).
Proof.
  intros calls d sn sid ts home away league incoming cgt failed x db Htry.
  assert (Hgoal : x = ValueError \/ x = DataError
                  \/ exists c, x = IntegrityError c);
    [|split; [|exact Hgoal];
      destruct Hgoal as [-> | [-> | [c ->]]]; split; discriminate].
  revert Htry.
  assert (Hv : store_valid db)
    by (apply store_valid_after_calls; exact store_valid_empty).
  assert (Hp : forall e, In e (events db) ->
                 exists t, Event.last_updated_timestamp e = Some t).
  { intros e Hin.
    destruct (provenance_after_calls empty_database calls e Hin)
      as [[] | (_ & _ & _ & t & _ & _ & _ & _ & _ & _ & Ht)].
    exists t. exact Ht. }
  clearbody db. unfold try_body.
  destruct (resolve_target db sn sid ts home away league)
    as [x0 | [om [target|]]] eqn:Er.
  - intro H. injection H as _ <-.
    unfold resolve_target in Er.
    destruct (has_nul sn || has_nul sid);
      [injection Er as <-; left; reflexivity|].
    destruct (query_mapping db sn sid) as [m|] eqn:Eq.
    + (* a mapping without event *)
      exfalso.
      destruct (mapping_event db m) as [t|] eqn:Em; [discriminate|].
      unfold query_mapping in Eq. apply find_some in Eq.
      destruct Eq as [Hm _].
      destruct (valid_foreign_keys db Hv m Hm) as (e & He & Hid).
      apply (find_in_not_none
               (fun e => Nat.eqb (Event.id e) (EventSourceMapping.event_id m))
               (events db) e He); [|exact Em].
      apply Nat.eqb_eq. exact Hid.
    + destruct (has_nul home || has_nul away || negb (binds league));
        [injection Er as <-; left; reflexivity | discriminate].
  - pose proof (resolve_target_in _ _ _ _ _ _ _ _ _ Er) as Hin.
    destruct (Hp target Hin) as [stored Hstored].
    destruct (merge_existing d sn incoming cgt target) as [x0 | [row dirty]]
      eqn:Em.
    + (* a comparison with a missing update time *)
      intro H. injection H as _ <-. exfalso.
      assert (Hs : exists b, should_update d incoming cgt target = inr b).
      { unfold should_update. rewrite Hstored.
        destruct (stored <? incoming); [eexists; reflexivity|].
        destruct (incoming =? stored); eexists; reflexivity. }
      destruct Hs as [b Hs]. unfold merge_existing in Em. rewrite Hs in Em.
      destruct b; discriminate.
    + apply save_mapping_and_commit_raises.
  - destruct (insert_event_cases d sn db)
      as [[_ Hr] | [_ (f & y & Hr & _ & _ & _ & Hy)]]; rewrite Hr.
    + apply save_mapping_and_commit_raises.
    + intro H. injection H as _ <-.
      destruct Hy as [-> | [-> | [-> | [-> _]]]]; eauto.
Qed.

Lemma only_database_errors_witness :
  exists (failed : Database) (x : Exception),
    try_body Examples.one_match Examples.report_out_of_range "sofascore" "1"
      Examples.kickoff "A" "B" (Some "10"%string) 200 (Some 12)
      Examples.one_match = (failed, inl x)
    /\ (x <> TypeError /\ x <> AttributeError)
    /\ (x = ValueError \/ x = DataError \/ exists c, x = IntegrityError c).
Proof.
  eexists. eexists. split; [reflexivity|].
  eapply (only_database_errors
           [ (Examples.first_report, Examples.source "sofascore" "1") ]
           Examples.report_out_of_range "sofascore" "1" Examples.kickoff
           "A" "B" (Some "10"%string) 200 (Some 12)).
  reflexivity.
Defined.

(** ** Two live reports of the same second *)

(** Whatever a mapped source reports, its mapping stays and the table of
    events is either untouched or has the target overwritten. *)
Lemma mapped_any_step (db : Database) (d : Normalized.t)
    (s : SourceData.t) (sn sid : string) (incoming : Z)
    (m : EventSourceMapping.t) (t : Event.t) (stored : Z) :
  essential_data_present d s = true ->
  SourceData.source_name s = Some sn ->
  SourceData.source_event_id s = Some sid ->
  dict_get (Normalized.last_updated_timestamp d) = Some incoming ->
  has_nul sn = false -> has_nul sid = false ->
  query_mapping db sn sid = Some m ->
  mapping_event db m = Some t ->
  Event.last_updated_timestamp t = Some stored ->
  (events (fst (save_or_update_event db d s)) = events db
   \/ events (fst (save_or_update_event db d s))
      = replace_event (event_kept (overwrite t d sn incoming)) (events db))
  /\ event_source_mappings (fst (save_or_update_event db d s))
     = event_source_mappings db.
Proof.
  intros Hess Hsn Hsid Hi N1 N2 Hq Hm Hstored.
  destruct (essential_data_values d s Hess)
    as (ts & home & away & sn' & sid' & incoming' & Hts & Hh & Ha & Hsn'
        & Hsid' & Hi').
  assert (sn' = sn) by congruence. assert (sid' = sid) by congruence.
  assert (incoming' = incoming) by congruence. subst sn' sid' incoming'.
  destruct (existing_target_outcome db d s ts home away sn sid incoming
              (Some m) t stored Hess Hts Hh Ha Hsn Hsid Hi
              (resolve_mapped db sn sid ts home away _ m t N1 N2 Hq Hm)
              Hstored)
    as (Hacc & Hrej & _ & Hmap).
  split; [|apply Hmap; discriminate].
  destruct (should_update_accepts d incoming t stored Hstored)
    as [b [_ Hiff]].
  destruct b.
  - destruct (commit_succeeds db (Some m) sn sid
                (overwrite t d sn incoming) true) eqn:Ec.
    + right. apply Hacc. split; [apply Hiff; reflexivity | reflexivity].
    + left. apply Hrej. intros [_ H]. discriminate.
  - left. apply Hrej. intros [H _]. apply Hiff in H. discriminate.
Qed.

(** A mapped source reporting a record the policy accepts. *)
Lemma mapped_policy_accepts_step (db : Database) (d : Normalized.t)
    (s : SourceData.t) (sn sid : string) (incoming : Z)
    (m : EventSourceMapping.t) (t : Event.t) (stored : Z) :
  essential_data_present d s = true ->
  SourceData.source_name s = Some sn ->
  SourceData.source_event_id s = Some sid ->
  dict_get (Normalized.last_updated_timestamp d) = Some incoming ->
  has_nul sn = false -> has_nul sid = false ->
  fully_normalized d ->
  stored_as_is (new_event (Event.id t) d sn) ->
  query_mapping db sn sid = Some m ->
  mapping_event db m = Some t ->
  Event.last_updated_timestamp t = Some stored ->
  accepts d incoming t stored ->
  existsb (conflicts_with_other (new_event (Event.id t) d sn)) (events db)
  = false ->
  events (fst (save_or_update_event db d s))
  = replace_event (new_event (Event.id t) d sn) (events db)
  /\ event_source_mappings (fst (save_or_update_event db d s))
     = event_source_mappings db.
Proof.
  intros Hess Hsn Hsid Hi N1 N2 Hfull (Hb & Hf & Hkept) Hq Hm Hstored Hacc'
    Hfree.
  destruct (essential_data_values d s Hess)
    as (ts & home & away & sn' & sid' & incoming' & Hts & Hh & Ha & Hsn'
        & Hsid' & Hi').
  assert (sn' = sn) by congruence. assert (sid' = sid) by congruence.
  assert (incoming' = incoming) by congruence. subst sn' sid' incoming'.
  destruct (existing_target_outcome db d s ts home away sn sid incoming
              (Some m) t stored Hess Hts Hh Ha Hsn Hsid Hi
              (resolve_mapped db sn sid ts home away _ m t N1 N2 Hq Hm)
              Hstored)
    as (Hacc & _ & _ & Hmap).
  rewrite (overwrite_fully_normalized t d sn incoming Hfull Hi) in Hacc.
  rewrite Hkept in Hacc.
  split.
  - apply Hacc. split; [exact Hacc'|].
    rewrite commit_succeeds_split. unfold update_accepted.
    rewrite Hb, Hf, Hkept, (new_event_not_null (Event.id t) d sn Hfull),
      Hfree.
    reflexivity.
  - apply Hmap. discriminate.
Qed.

(** A mapped source reporting a record the policy turns down. *)
Lemma mapped_policy_rejects_step (db : Database) (d : Normalized.t)
    (s : SourceData.t) (sn sid : string) (incoming : Z)
    (m : EventSourceMapping.t) (t : Event.t) (stored : Z) :
  essential_data_present d s = true ->
  SourceData.source_name s = Some sn ->
  SourceData.source_event_id s = Some sid ->
  dict_get (Normalized.last_updated_timestamp d) = Some incoming ->
  has_nul sn = false -> has_nul sid = false ->
  query_mapping db sn sid = Some m ->
  mapping_event db m = Some t ->
  Event.last_updated_timestamp t = Some stored ->
  ~ accepts d incoming t stored ->
  events (fst (save_or_update_event db d s)) = events db
  /\ event_source_mappings (fst (save_or_update_event db d s))
     = event_source_mappings db.
Proof.
  intros Hess Hsn Hsid Hi N1 N2 Hq Hm Hstored Hno.
  destruct (essential_data_values d s Hess)
    as (ts & home & away & sn' & sid' & incoming' & Hts & Hh & Ha & Hsn'
        & Hsid' & Hi').
  assert (sn' = sn) by congruence. assert (sid' = sid) by congruence.
  assert (incoming' = incoming) by congruence. subst sn' sid' incoming'.
  destruct (existing_target_outcome db d s ts home away sn sid incoming
              (Some m) t stored Hess Hts Hh Ha Hsn Hsid Hi
              (resolve_mapped db sn sid ts home away _ m t N1 N2 Hq Hm)
              Hstored)
    as (_ & Hrej & _ & Hmap).
  split.
  - apply Hrej. intros [H _]. exact (Hno H).
  - apply Hmap. discriminate.
Qed.

(** X18.  The tie-break on the game time makes two live reports of the
    same second converge.  A source that is mapped to a stored event, and
    whose name and identifier hold no NUL character, sends A and B with
    the same update time, newer than the stored one; B is fully
    normalized, in progress and further into the game than A; the values
    of B are stored by their columns as they are, and no other event
    holds the key of B.  Then the store holds the row made of the values
    of B whichever of the two arrives first, and the mappings are as they
    were. *)
Theorem live_tie_break_order_independent :
  forall (db : Database) (A B : Normalized.t) (s : SourceData.t)
         (sn sid : string) (incoming : Z) (m : EventSourceMapping.t)
         (target : Event.t) (stored gA gB : Z),
    essential_data_present A s = true ->
    essential_data_present B s = true ->
    SourceData.source_name s = Some sn ->
    SourceData.source_event_id s = Some sid ->
    has_nul sn = false -> has_nul sid = false ->
    dict_get (Normalized.last_updated_timestamp A) = Some incoming ->
    dict_get (Normalized.last_updated_timestamp B) = Some incoming ->
    fully_normalized B ->
    stored_as_is (new_event (Event.id target) B sn) ->
    query_mapping db sn sid = Some m ->
    mapping_event db m = Some target ->
    Event.last_updated_timestamp target = Some stored ->
    stored < incoming ->
    dict_get (Normalized.event_status B) = Some "inprogress"%string ->
    dict_get (Normalized.current_game_time A) = Some gA ->
    dict_get (Normalized.current_game_time B) = Some gB ->
    gA < gB ->
    existsb (conflicts_with_other (new_event (Event.id target) B sn))
      (events db) = false ->
    let held := new_event (Event.id target) B sn in
    let a_then_b :=
      fst (save_or_update_event (fst (save_or_update_event db A s)) B s) in
    let b_then_a :=
      fst (save_or_update_event (fst (save_or_update_event db B s)) A s) in
    events a_then_b = replace_event held (events db)
    /\ events b_then_a = replace_event held (events db)
    /\ event_source_mappings a_then_b = event_source_mappings db
    /\ event_source_mappings b_then_a = event_source_mappings db.
Proof.
  intros db A B s sn sid incoming m target stored gA gB HessA HessB Hsn Hsid
    N1 N2 HiA HiB Hfull Hplain Hq Hm Hstored Hnew HstB HgA HgB Hg Hfree held
    a_then_b b_then_a.
  (* A then B *)
  assert (Hab : events a_then_b = replace_event held (events db)
                /\ event_source_mappings a_then_b
                   = event_source_mappings db).
  { subst a_then_b.
    destruct (mapped_any_step db A s sn sid incoming m target stored
                HessA Hsn Hsid HiA N1 N2 Hq Hm Hstored) as [HevA HmapA].
    set (dbA := fst (save_or_update_event db A s)) in *.
    assert (HqA : query_mapping dbA sn sid = Some m)
      by (rewrite (query_mapping_ext db dbA sn sid HmapA); exact Hq).
    destruct HevA as [HevA | HevA].
    - assert (HmA : mapping_event dbA m = Some target)
        by (rewrite (mapping_event_ext db dbA m HevA); exact Hm).
      destruct (mapped_policy_accepts_step dbA B s sn sid incoming m target
                  stored HessB Hsn Hsid HiB N1 N2 Hfull Hplain HqA HmA
                  Hstored)
        as [He Hmp].
      + left. exact Hnew.
      + rewrite HevA. exact Hfree.
      + rewrite He, Hmp, HevA, HmapA. split; reflexivity.
    - set (mA := event_kept (overwrite target A sn incoming)) in *.
      assert (HmA : mapping_event dbA m = Some mA)
        by (apply (mapping_event_replaced db dbA m target mA Hm eq_refl
                     HevA)).
      destruct (mapped_policy_accepts_step dbA B s sn sid incoming m mA
                  incoming HessB Hsn Hsid HiB N1 N2 Hfull Hplain HqA HmA
                  eq_refl)
        as [He Hmp].
      + right. split; [reflexivity|]. split; [left; exact HstB|].
        exists gB. split; [exact HgB|].
        unfold mA. cbn [event_kept overwrite Event.current_game_time].
        rewrite (setattr_dict_get _ _ gA HgA). exact Hg.
      + rewrite HevA. change (Event.id mA) with (Event.id target).
        rewrite existsb_conflicts_replace; [exact Hfree | reflexivity].
      + rewrite He, Hmp, HevA, HmapA.
        change (Event.id mA) with (Event.id target). fold held.
        split; [|reflexivity].
        apply replace_replace. reflexivity. }
  (* B then A *)
  assert (Hba : events b_then_a = replace_event held (events db)
                /\ event_source_mappings b_then_a
                   = event_source_mappings db).
  { subst b_then_a.
    destruct (mapped_policy_accepts_step db B s sn sid incoming m target
                stored HessB Hsn Hsid HiB N1 N2 Hfull Hplain Hq Hm Hstored
                (or_introl Hnew) Hfree)
      as [HevB HmapB].
    set (dbB := fst (save_or_update_event db B s)) in *.
    assert (HqB : query_mapping dbB sn sid = Some m)
      by (rewrite (query_mapping_ext db dbB sn sid HmapB); exact Hq).
    assert (HmB : mapping_event dbB m = Some held)
      by (apply (mapping_event_replaced db dbB m target held Hm eq_refl
                   HevB)).
    destruct (mapped_policy_rejects_step dbB A s sn sid incoming m held
                incoming HessA Hsn Hsid HiA N1 N2 HqB HmB HiB) as [He Hmp].
    - intros [Hlt | (_ & _ & g & Hg1 & Hg2)]; [lia|].
      unfold held in Hg2. cbn [new_event Event.current_game_time] in Hg2.
      rewrite HgB in Hg2. rewrite HgA in Hg1. injection Hg1 as <-. lia.
    - rewrite He, Hmp, HevB, HmapB. split; reflexivity. }
  destruct Hab as [Hab1 Hab2], Hba as [Hba1 Hba2].
  repeat (split; [assumption|]). assumption.
Qed.

Lemma live_tie_break_order_independent_witness :
  let s := Examples.source "sofascore" "1" in
  let A :=
    Examples.observation Examples.kickoff "A" "B" (Value "10"%string) 200
      "inprogress" (Value 5) 0 0 in
  let B := Examples.later_report in
  let held := new_event 1 B "sofascore" in
  let a_then_b :=
    fst (save_or_update_event
           (fst (save_or_update_event Examples.one_match A s)) B s) in
  let b_then_a :=
    fst (save_or_update_event
           (fst (save_or_update_event Examples.one_match B s)) A s) in
  events a_then_b = [held]
  /\ events b_then_a = [held]
  /\ event_source_mappings a_then_b = [Examples.sofascore_1]
  /\ event_source_mappings b_then_a = [Examples.sofascore_1].
Proof.
  cbv zeta.
  exact (live_tie_break_order_independent Examples.one_match
           (Examples.observation Examples.kickoff "A" "B"
              (Value "10"%string) 200 "inprogress" (Value 5) 0 0)
           Examples.later_report (Examples.source "sofascore" "1")
           "sofascore"%string "1"%string 200 Examples.sofascore_1
           Examples.stored_match 100 5 12
           eq_refl eq_refl eq_refl eq_refl eq_refl eq_refl eq_refl eq_refl
           later_report_fully_normalized
           (conj eq_refl (conj eq_refl eq_refl))
           eq_refl eq_refl eq_refl
           eq_refl eq_refl eq_refl eq_refl eq_refl eq_refl).
Defined.

(** Without the condition on the key of B the two orders agree on
    another outcome: on [Examples.two_matches], a report that moves
    event 1 to the kick-off of event 2 breaks [uq_event_canonical] and is
    rolled back, first or second. *)
Lemma tie_break_with_a_taken_key :
  let s := Examples.source "sofascore" "1" in
  let A :=
    Examples.observation Examples.moved_kickoff "A" "B" (Value "10"%string)
      300 "inprogress" (Value 5) 0 0 in
  let B :=
    Examples.observation Examples.moved_kickoff "A" "B" (Value "10"%string)
      300 "inprogress" (Value 12) 1 0 in
  events (fst (save_or_update_event
                 (fst (save_or_update_event Examples.two_matches A s)) B s))
  = events Examples.two_matches
  /\ events (fst (save_or_update_event
                    (fst (save_or_update_event Examples.two_matches B s))
                    A s))
     = events Examples.two_matches.
Proof. split; reflexivity. Qed.

End DataAccessInvariants.

(* ===================================================================== *)
(** * Merge monotonicity                                                   *)
(* ===================================================================== *)

Section MergeMonotonicity.

Import DataAccess Spec.
Open Scope Z_scope.

(** ** Lookups after a row has been rewritten *)

Lemma replace_event_same (l : list Event.t) (t : Event.t) :
  NoDup (map Event.id l) -> In t l -> replace_event t l = l.
Proof.
  intros Hnd Hin. unfold replace_event.
  rewrite <- (map_id l) at 2. apply map_ext_in.
  intros x Hx.
  destruct (Nat.eqb (Event.id x) (Event.id t)) eqn:E; [|reflexivity].
  apply Nat.eqb_eq in E.
  pose proof (find_by_id_nodup l x Hnd Hx) as F1.
  pose proof (find_by_id_nodup l t Hnd Hin) as F2.
  rewrite E in F1. congruence.
Qed.

Lemma find_key_replace (P : Event.t -> bool) (l : list Event.t)
    (target r : Event.t) :
  NoDup (map Event.id l) ->
  find P l = Some target ->
  P r = true ->
  Event.id r = Event.id target ->
  find P (replace_event r l) = Some r.
Proof.
  intros Hnd Hfind Hr Hid. unfold replace_event.
  induction l as [|x l IH]; [discriminate|].
  cbn [map find] in Hfind |- *.
  inversion Hnd as [|i l' Hnotin Hnd']; subst.
  destruct (P x) eqn:Ex.
  - injection Hfind as ->. rewrite Hid, Nat.eqb_refl, Hr. reflexivity.
  - destruct (Nat.eqb (Event.id x) (Event.id r)) eqn:E.
    + exfalso. apply Hnotin. apply Nat.eqb_eq in E.
      rewrite E, Hid. apply in_map.
      apply find_some in Hfind. tauto.
    + rewrite Ex. apply IH; assumption.
Qed.

Lemma query_mapping_snoc (db db1 : Database) (sn sid : string)
    (km : EventSourceMapping.t) :
  event_source_mappings db1 = event_source_mappings db ++ [km] ->
  query_mapping db sn sid = None ->
  query_mapping db1 sn sid = None
  \/ (query_mapping db1 sn sid = Some km
      /\ EventSourceMapping.source_name km = sn
      /\ EventSourceMapping.source_event_id km = sid).
Proof.
  intros Hm Hq. unfold query_mapping in *. rewrite Hm.
  destruct (String.eqb (EventSourceMapping.source_name km) sn
            && String.eqb (EventSourceMapping.source_event_id km) sid)
    eqn:E.
  - right. split.
    + apply find_app_last; assumption.
    + apply andb_true_iff in E. destruct E as [E1 E2].
      apply String.eqb_eq in E1, E2. split; assumption.
  - left. clear Hm.
    induction (event_source_mappings db) as [|x l IH]; cbn in *.
    + rewrite E. reflexivity.
    + destruct (String.eqb (EventSourceMapping.source_name x) sn
                && String.eqb (EventSourceMapping.source_event_id x) sid);
        [discriminate | apply IH; exact Hq].
Qed.

(** The target of a source once the row of the target has become [r]
    and a mapping to the target may have been added. *)
Lemma resolve_target_after (db db1 : Database) (sn sid : string)
    (ts : datetime) (home away : string) (league : option string)
    (om : option EventSourceMapping.t) (target r : Event.t)
    (km : EventSourceMapping.t) :
  NoDup (map Event.id (events db)) ->
  resolve_target db sn sid ts home away league = inr (om, Some target) ->
  events db1 = replace_event r (events db) ->
  Event.id r = Event.id target ->
  (event_source_mappings db1 = event_source_mappings db
   \/ event_source_mappings db1 = event_source_mappings db ++ [km]) ->
  EventSourceMapping.event_id km = Event.id target ->
  (om = None -> event_key_matches ts home away league r = true) ->
  exists om',
    resolve_target db1 sn sid ts home away league = inr (om', Some r)
    /\ (om' = None -> om = None /\ query_mapping db1 sn sid = None).
Proof.
  intros Hnd Hres Hev Hid Hmap Hkm Hkey.
  pose proof (resolve_target_in _ _ _ _ _ _ _ _ _ Hres) as Hin.
  assert (Hbyid : find (fun e => Nat.eqb (Event.id e) (Event.id target))
                    (replace_event r (events db)) = Some r).
  { apply (find_replace_event _ r target); [|exact Hid].
    apply find_by_id_nodup; assumption. }
  destruct (resolve_target_inv _ _ _ _ _ _ _ _ _ Hres)
    as (N1 & N2 & [(m & e & -> & He & Hq & Hm)
                  | (-> & Hq & N3 & N4 & N5 & Hk)]).
  - (* the source was mapped *)
    injection He as <-.
    exists (Some m). split; [|discriminate].
    apply resolve_mapped; [exact N1 | exact N2 | |].
    + destruct Hmap as [Hmap | Hmap].
      * rewrite (query_mapping_ext db db1 sn sid Hmap). exact Hq.
      * unfold query_mapping in *. rewrite Hmap.
        apply find_app_found. exact Hq.
    + unfold mapping_event. rewrite Hev.
      rewrite <- (mapping_event_id db m target Hm). exact Hbyid.
  - (* the source was not mapped *)
    assert (Hnone : query_mapping db1 sn sid = None ->
                    exists om',
                      resolve_target db1 sn sid ts home away league
                      = inr (om', Some r)
                      /\ (om' = None ->
                          @None EventSourceMapping.t = None
                          /\ query_mapping db1 sn sid = None)).
    { intro Hq1. exists None. split.
      - rewrite (resolve_unmapped db1 sn sid ts home away league
                   N1 N2 N3 N4 N5 Hq1).
        unfold query_event_by_key. rewrite Hev.
        rewrite (find_key_replace _ (events db) target r Hnd);
          [reflexivity | symmetry; exact Hk | exact (Hkey eq_refl)
          | exact Hid].
      - intros _. split; [reflexivity | exact Hq1]. }
    destruct Hmap as [Hmap | Hmap].
    + apply Hnone.
      rewrite (query_mapping_ext db db1 sn sid Hmap). exact Hq.
    + destruct (query_mapping_snoc db db1 sn sid km Hmap Hq)
        as [Hq1 | (Hq1 & _)]; [apply Hnone; exact Hq1|].
      exists (Some km). split; [|discriminate].
      apply resolve_mapped; [exact N1 | exact N2 | exact Hq1 |].
      unfold mapping_event. rewrite Hev, Hkm. exact Hbyid.
Qed.

(** ** One upsert on an existing target *)

(** What it leaves, whatever its outcome: the row of the target is the
    target or the target overwritten, and at most one mapping to the
    target is added. *)
Lemma existing_target_step (db : Database) (d : Normalized.t)
    (s : SourceData.t) (ts : datetime) (home away sn sid : string)
    (incoming : Z) (om : option EventSourceMapping.t) (target : Event.t) :
  reads d s ts home away sn sid incoming ->
  store_valid db ->
  resolve_target db sn sid ts home away
    (dict_get (Normalized.league_id d)) = inr (om, Some target) ->
  let db1 := fst (save_or_update_event db d s) in
  exists t1,
    events db1 = replace_event t1 (events db)
    /\ Event.id t1 = Event.id target
    /\ (t1 = target \/ t1 = event_kept (overwrite target d sn incoming))
    /\ (event_source_mappings db1 = event_source_mappings db
        \/ (om = None
            /\ event_source_mappings db1
               = event_source_mappings db
                 ++ [mapping_kept
                       (new_mapping db (Event.id target) sn sid)]))
    /\ (event_source_mappings_id_seq db1
        <= S (event_source_mappings_id_seq db))%nat.
Proof.
  intros (Hess & Hts & Hh & Ha & Hsn & Hsid & Hi) Hv Hres db1.
  pose proof (resolve_target_in _ _ _ _ _ _ _ _ _ Hres) as Hin.
  pose proof (replace_event_same (events db) target
                (valid_event_ids_distinct db Hv) Hin) as Hsame.
  subst db1. unfold save_or_update_event.
  rewrite (save_or_update_event_racing_unfold db db d s ts home away sn sid
             incoming Hess Hts Hh Ha Hsn Hsid Hi).
  destruct (try_body db d sn sid ts home away _ incoming _ db)
    as [db' [x | e]] eqn:Et.
  - (* rolled back *)
    destruct (try_body_sequences_bound _ _ _ _ _ _ _ _ _ _ _ _ _ Et)
      as [_ Hb].
    exists target.
    assert (Hfst : forall (b : bool) (q : option Event.t),
              fst (if b then (rollback db db', q)
                   else (rollback db db', None)) = rollback db db')
      by (intros [] q; reflexivity).
    rewrite Hfst. cbn [rollback events event_source_mappings
                       event_source_mappings_id_seq].
    split; [symmetry; exact Hsame|]. split; [reflexivity|].
    split; [left; reflexivity|]. split; [left; reflexivity | exact Hb].
  - (* committed *)
    cbn [fst].
    assert (Hrec : forall eid,
              mapping_recorded db db' om eid sn sid ->
              (event_source_mappings db' = event_source_mappings db
               \/ (om = None
                   /\ event_source_mappings db'
                      = event_source_mappings db
                        ++ [mapping_kept (new_mapping db eid sn sid)]))
              /\ (event_source_mappings_id_seq db'
                  <= S (event_source_mappings_id_seq db))%nat).
    { intros eid Hrec. unfold mapping_recorded in Hrec.
      destruct om as [m|].
      - destruct Hrec as [H1 H2]. split; [left; exact H1 | lia].
      - cbv zeta in Hrec. destruct Hrec as (H1 & H2 & _).
        split; [right; split; [reflexivity | exact H1] | lia]. }
    apply try_body_committed in Et.
    destruct Et as
      [(om0 & t0 & Hr & _ & -> & Hev & _ & Hmap)
      | [(om0 & t0 & Hr & _ & He & Hev & _ & _ & _ & Hmap)
        | (Hr & _)]].
    + rewrite Hres in Hr. injection Hr as <- <-.
      destruct (Hrec _ Hmap) as [Hm Hs].
      exists target.
      split; [rewrite Hev; symmetry; exact Hsame|]. split; [reflexivity|].
      split; [left; reflexivity|]. split; assumption.
    + rewrite Hres in Hr. injection Hr as <- <-.
      assert (Hid : Event.id e = Event.id target)
        by (subst e; reflexivity).
      rewrite Hid in Hmap.
      destruct (Hrec _ Hmap) as [Hm Hs].
      exists e.
      split; [exact Hev|]. split; [exact Hid|].
      split; [right; exact He|]. split; assumption.
    + rewrite Hres in Hr. discriminate.
Qed.

(** The upsert of a record that the policy accepts and whose commit goes
    through. *)
Lemma existing_target_commit (db : Database) (d : Normalized.t)
    (s : SourceData.t) (ts : datetime) (home away sn sid : string)
    (incoming : Z) (om : option EventSourceMapping.t) (target : Event.t)
    (stored : Z) :
  reads d s ts home away sn sid incoming ->
  resolve_target db sn sid ts home away
    (dict_get (Normalized.league_id d)) = inr (om, Some target) ->
  Event.last_updated_timestamp target = Some stored ->
  accepts d incoming target stored ->
  commit_succeeds db om sn sid (overwrite target d sn incoming) true
  = true ->
  let db1 := fst (save_or_update_event db d s) in
  let r := event_kept (overwrite target d sn incoming) in
  events db1 = replace_event r (events db)
  /\ mapping_recorded db db1 om (Event.id target) sn sid.
Proof.
  intros (Hess & Hts & Hh & Ha & Hsn & Hsid & Hi) Hres Hstored Hacc Hc db1 r.
  subst db1. unfold save_or_update_event.
  rewrite (save_or_update_event_racing_unfold db db d s ts home away sn sid
             incoming Hess Hts Hh Ha Hsn Hsid Hi).
  unfold try_body. rewrite Hres. unfold merge_existing.
  destruct (should_update_accepts d incoming target stored Hstored)
    as [b [Hb Hiff]].
  rewrite Hb. apply Hiff in Hacc. subst b.
  destruct (commit_succeeds_committed db om sn sid
              (overwrite target d sn incoming) true Hc)
    as (db1 & Eq & He & _ & Hm).
  rewrite Eq. cbn [fst]. split; [exact He | exact Hm].
Qed.

(** The upsert of a record that the policy turns down leaves the
    events. *)
Lemma existing_target_rejected (db : Database) (d : Normalized.t)
    (s : SourceData.t) (ts : datetime) (home away sn sid : string)
    (incoming : Z) (om : option EventSourceMapping.t) (target : Event.t)
    (stored : Z) :
  reads d s ts home away sn sid incoming ->
  resolve_target db sn sid ts home away
    (dict_get (Normalized.league_id d)) = inr (om, Some target) ->
  Event.last_updated_timestamp target = Some stored ->
  incoming < stored ->
  events (fst (save_or_update_event db d s)) = events db.
Proof.
  intros (Hess & Hts & Hh & Ha & Hsn & Hsid & Hi) Hres Hstored Hlt.
  destruct (existing_target_outcome db d s ts home away sn sid incoming
              om target stored Hess Hts Hh Ha Hsn Hsid Hi Hres Hstored)
    as (_ & Hrej & _).
  apply Hrej. intros [[H | (H & _)] _]; lia.
Qed.

(** ** The newer observation *)

(** The key of a row made of a record that is stored as it is. *)
Lemma stored_as_is_key (i : nat) (d : Normalized.t) (sn : string)
    (home away : string) :
  stored_as_is (new_event i d sn) ->
  dict_get (Normalized.home_team_name d) = Some home ->
  dict_get (Normalized.away_team_name d) = Some away ->
  clip 255 home = home /\ clip 255 away = away
  /\ String_kept 255 (dict_get (Normalized.league_id d))
     = dict_get (Normalized.league_id d).
Proof.
  intros (_ & _ & Hk) Hh Ha.
  assert (H1 : Event.home_team_name (event_kept (new_event i d sn))
               = Event.home_team_name (new_event i d sn))
    by (rewrite Hk; reflexivity).
  assert (H2 : Event.away_team_name (event_kept (new_event i d sn))
               = Event.away_team_name (new_event i d sn))
    by (rewrite Hk; reflexivity).
  assert (H3 : Event.league_id (event_kept (new_event i d sn))
               = Event.league_id (new_event i d sn))
    by (rewrite Hk; reflexivity).
  cbn [event_kept new_event Event.home_team_name Event.away_team_name
       Event.league_id] in H1, H2, H3.
  rewrite Hh in H1. rewrite Ha in H2. cbn [String_kept] in H1, H2.
  injection H1 as H1. injection H2 as H2.
  split; [exact H1|]. split; [exact H2 | exact H3].
Qed.

(** B meets a store in which the row of its target is [t1], older than
    B, and in which a mapping [km] to the target may have been added:
    the target becomes the row made of B. *)
Lemma newer_observation_is_held (db db1 : Database) (B : Normalized.t)
    (sB : SourceData.t) (tsB : datetime) (homeB awayB snB sidB : string)
    (incB : Z) (omB : option EventSourceMapping.t) (target t1 : Event.t)
    (st1 : Z) (km : EventSourceMapping.t) :
  store_valid db ->
  reads B sB tsB homeB awayB snB sidB incB ->
  resolve_target db snB sidB tsB homeB awayB
    (dict_get (Normalized.league_id B)) = inr (omB, Some target) ->
  fully_normalized B ->
  stored_as_is (new_event (Event.id target) B snB) ->
  existsb (conflicts_with_other (new_event (Event.id target) B snB))
    (events db) = false ->
  (omB = None -> source_stored_as_is snB sidB) ->
  events db1 = replace_event t1 (events db) ->
  Event.id t1 = Event.id target ->
  Event.last_updated_timestamp t1 = Some st1 ->
  st1 < incB ->
  (event_source_mappings db1 = event_source_mappings db
   \/ event_source_mappings db1 = event_source_mappings db ++ [km]) ->
  EventSourceMapping.event_id km = Event.id target ->
  (omB = None ->
   event_key_matches tsB homeB awayB (dict_get (Normalized.league_id B)) t1
   = true) ->
  (omB = None -> query_mapping db1 snB sidB = None ->
   id_fits (Event.id target)
   /\ id_fits (event_source_mappings_id_seq db1)
   /\ forall m, In m (event_source_mappings db1) ->
                EventSourceMapping.event_id m = Event.id target ->
                EventSourceMapping.source_name m <> snB) ->
  let held := new_event (Event.id target) B snB in
  let db2 := fst (save_or_update_event db1 B sB) in
  exists om',
    resolve_target db1 snB sidB tsB homeB awayB
      (dict_get (Normalized.league_id B)) = inr (om', Some t1)
    /\ events db2 = replace_event held (events db)
    /\ mapping_recorded db1 db2 om' (Event.id target) snB sidB.
Proof.
  intros Hv Hreads Hres Hfull Hplain Hfree Hsrc Hev Hid Hlut Hlt Hmap Hkm
    Hkey Hroom held db2.
  destruct (resolve_target_after db db1 snB sidB tsB homeB awayB _ omB
              target t1 km (valid_event_ids_distinct db Hv) Hres Hev Hid
              Hmap Hkm Hkey) as (om' & Hres1 & Hom').
  exists om'. split; [exact Hres1|].
  pose proof Hreads as (_ & _ & _ & _ & _ & _ & Hi).
  pose proof (overwrite_fully_normalized t1 B snB incB Hfull Hi) as Hover.
  rewrite Hid in Hover. fold held in Hover.
  fold held in Hplain, Hfree. pose proof Hplain as (Hb & Hf & Hkept).
  assert (Hc : commit_succeeds db1 om' snB sidB
                 (overwrite t1 B snB incB) true = true).
  { rewrite Hover, commit_succeeds_split. unfold update_accepted.
    pose proof (new_event_not_null (Event.id target) B snB Hfull) as Hnn.
    fold held in Hnn.
    rewrite Hb, Hf, Hkept, Hnn, Hev.
    rewrite (existsb_conflicts_replace (events db) held t1 Hid), Hfree.
    cbn [negb andb].
    destruct om' as [m|]; [reflexivity|].
    destruct (Hom' eq_refl) as [-> Hq1].
    destruct (Hroom eq_refl Hq1) as (Hfe & Hfm & Hfr).
    apply mapping_insert_accepted_plain; try assumption.
    exact (Hsrc eq_refl). }
  destruct (existing_target_commit db1 B sB tsB homeB awayB snB sidB incB
              om' t1 st1 Hreads Hres1 Hlut (or_introl Hlt) Hc)
    as [He Hm].
  fold db2 in He, Hm. rewrite Hover, Hkept in He.
  split.
  - rewrite He, Hev. apply replace_replace. exact Hid.
  - rewrite Hid in Hm. exact Hm.
Qed.

(** ** The target exists *)

Lemma monotonicity_existing :
  forall (db : Database) (A B : Normalized.t) (sA sB : SourceData.t)
         (tsA tsB : datetime)
         (homeA awayA snA sidA homeB awayB snB sidB : string)
         (incA incB : Z) (omA omB : option EventSourceMapping.t)
         (target : Event.t) (stored : Z),
    store_valid db ->
    reads A sA tsA homeA awayA snA sidA incA ->
    reads B sB tsB homeB awayB snB sidB incB ->
    resolve_target db snA sidA tsA homeA awayA
      (dict_get (Normalized.league_id A)) = inr (omA, Some target) ->
    resolve_target db snB sidB tsB homeB awayB
      (dict_get (Normalized.league_id B)) = inr (omB, Some target) ->
    Event.last_updated_timestamp target = Some stored ->
    incA < incB ->
    stored < incB ->
    fully_normalized B ->
    stored_as_is (new_event (Event.id target) B snB) ->
    existsb (conflicts_with_other (new_event (Event.id target) B snB))
      (events db) = false ->
    (omB = None ->
     source_stored_as_is snB sidB
     /\ id_fits (Event.id target)
     /\ id_fits (S (event_source_mappings_id_seq db))
     /\ (forall m, In m (event_source_mappings db) ->
                   EventSourceMapping.event_id m = Event.id target ->
                   EventSourceMapping.source_name m <> snB)
     /\ leaves_key A tsB homeB awayB (dict_get (Normalized.league_id B))
     /\ (omA = None -> clip 50 snA = snB -> clip 255 sidA = sidB)) ->
    (omA = None ->
     leaves_key B tsA homeA awayA (dict_get (Normalized.league_id A))) ->
    let held := new_event (Event.id target) B snB in
    let a_then_b :=
      fst (save_or_update_event (fst (save_or_update_event db A sA)) B sB) in
    let b_then_a :=
      fst (save_or_update_event (fst (save_or_update_event db B sB)) A sA) in
    events a_then_b = replace_event held (events db)
    /\ events b_then_a = replace_event held (events db).
Proof.
  intros db A B sA sB tsA tsB homeA awayA snA sidA homeB awayB snB sidB
    incA incB omA omB target stored Hv HrA HrB HresA HresB Hstored Hlt Hnew
    Hfull Hplain Hfree HunB HunA held a_then_b b_then_a.
  pose proof (resolve_target_in _ _ _ _ _ _ _ _ _ HresB) as Hin.
  pose proof (valid_event_ids_distinct db Hv) as Hnd.
  pose proof HrA as (HessA & HtsA & HhA & HaA & HsnA & HsidA & HiA).
  pose proof HrB as (HessB & HtsB & HhB & HaB & HsnB & HsidB & HiB).
  assert (Hab : events a_then_b = replace_event held (events db)).
  { subst a_then_b.
    destruct (existing_target_step db A sA tsA homeA awayA snA sidA incA
                omA target HrA Hv HresA)
      as (t1 & Hev & Hid & Ht1 & Hmap & Hseq).
    set (db1 := fst (save_or_update_event db A sA)) in *.
    set (kmA := mapping_kept (new_mapping db (Event.id target) snA sidA))
      in *.
    assert (Hlut : exists st1, Event.last_updated_timestamp t1 = Some st1
                               /\ st1 < incB).
    { destruct Ht1 as [-> | ->].
      - exists stored. split; assumption.
      - exists incA. split; [reflexivity | exact Hlt]. }
    destruct Hlut as (st1 & Hlut & Hst1).
    assert (Hmap' : event_source_mappings db1 = event_source_mappings db
                    \/ event_source_mappings db1
                       = event_source_mappings db ++ [kmA])
      by (destruct Hmap as [H | [_ H]]; [left | right]; exact H).
    destruct (newer_observation_is_held db db1 B sB tsB homeB awayB snB sidB
                incB omB target t1 st1 kmA Hv HrB HresB Hfull Hplain Hfree)
      as (om' & _ & He & _);
      try assumption; try reflexivity.
    - intro Hom. exact (proj1 (HunB Hom)).
    - (* the key of B still finds the row *)
      intro Hom. destruct (HunB Hom) as (_ & _ & _ & _ & Hleaves & _).
      destruct Ht1 as [-> | ->].
      + destruct (resolve_target_inv _ _ _ _ _ _ _ _ _ HresB)
          as (_ & _ & [(m & e & Hm & _) | (_ & _ & _ & _ & _ & Hk)]);
          [congruence|].
        symmetry in Hk. unfold query_event_by_key in Hk.
        apply find_some in Hk. tauto.
      + destruct (resolve_target_inv _ _ _ _ _ _ _ _ _ HresB)
          as (_ & _ & [(m & e & Hm & _) | (_ & _ & _ & _ & _ & Hk)]);
          [congruence|].
        symmetry in Hk. unfold query_event_by_key in Hk.
        apply find_some in Hk. destruct Hk as [_ Hk].
        apply event_key_matches_fields in Hk.
        destruct Hk as (_ & _ & _ & Kl).
        destruct Hleaves as (L1 & L2 & L3 & L4).
        destruct (stored_as_is_key _ B snB homeB awayB Hplain HhB HaB)
          as (C1 & C2 & C3).
        unfold event_key_matches.
        cbn [event_kept overwrite Event.event_timestamp
             Event.home_team_name Event.away_team_name Event.league_id].
        rewrite (setattr_dict_get _ _ tsB L1),
          (setattr_dict_get _ _ homeB L2), (setattr_dict_get _ _ awayB L3).
        rewrite Kl, L4. cbn [String_kept]. rewrite C1, C2, C3.
        cbn [option_eqb]. rewrite Z.eqb_refl, !String.eqb_refl.
        cbn [andb]. apply option_eqb_string_eq. reflexivity.
    - (* the mapping of B can be inserted *)
      intros Hom Hq1.
      destruct (HunB Hom) as (_ & Hfe & Hfm & Hfr & _ & Hsame).
      split; [exact Hfe|].
      split; [exact (id_fits_le _ _ Hseq Hfm)|].
      intros m Hm Hmid.
      destruct Hmap as [Hmap | [HomA Hmap]]; rewrite Hmap in Hm.
      + exact (Hfr m Hm Hmid).
      + apply in_app_or in Hm. destruct Hm as [Hm | [<- | []]];
          [exact (Hfr m Hm Hmid)|].
        intro Hname. unfold kmA in Hname.
        cbn [mapping_kept new_mapping EventSourceMapping.source_name]
          in Hname.
        pose proof (Hsame HomA Hname) as Hsid.
        assert (Hnone : find
                          (fun m0 =>
                             String.eqb
                               (EventSourceMapping.source_name m0) snB
                             && String.eqb
                                  (EventSourceMapping.source_event_id m0)
                                  sidB)
                          (event_source_mappings db) = None).
        { destruct (resolve_target_inv _ _ _ _ _ _ _ _ _ HresB)
            as (_ & _ & [(m' & e & Hm' & _) | (_ & Hq0 & _)]);
            [congruence | exact Hq0]. }
        unfold query_mapping in Hq1. rewrite Hmap in Hq1.
        rewrite (find_app_last _ _ kmA Hnone) in Hq1; [discriminate|].
        unfold kmA.
        cbn [mapping_kept new_mapping EventSourceMapping.source_name
             EventSourceMapping.source_event_id].
        rewrite Hname, Hsid, !String.eqb_refl. reflexivity. }
  assert (Hba : events b_then_a = replace_event held (events db)).
  { subst b_then_a.
    pose proof (replace_event_same (events db) target Hnd Hin) as Hsame.
    set (kmB := mapping_kept (new_mapping db (Event.id target) snB sidB)).
    destruct (newer_observation_is_held db db B sB tsB homeB awayB snB sidB
                incB omB target target stored kmB Hv HrB HresB Hfull Hplain
                Hfree)
      as (om' & Hres' & He & Hm);
      try assumption; try reflexivity.
    - intro Hom. exact (proj1 (HunB Hom)).
    - symmetry. exact Hsame.
    - left. reflexivity.
    - intro Hom.
      destruct (resolve_target_inv _ _ _ _ _ _ _ _ _ HresB)
        as (_ & _ & [(m & e & Hm & _) | (_ & _ & _ & _ & _ & Hk)]);
        [congruence|].
      symmetry in Hk. unfold query_event_by_key in Hk.
      apply find_some in Hk. tauto.
    - intros Hom _.
      destruct (HunB Hom) as (_ & Hfe & Hfm & Hfr & _).
      split; [exact Hfe|].
      split; [exact (id_fits_le _ _ (Nat.le_succ_diag_r _) Hfm) | exact Hfr].
    - rewrite HresB in Hres'. injection Hres' as <-.
      set (db2 := fst (save_or_update_event db B sB)) in *.
      assert (Hmap2 : event_source_mappings db2 = event_source_mappings db
                      \/ event_source_mappings db2
                         = event_source_mappings db ++ [kmB]).
      { unfold mapping_recorded in Hm. destruct omB as [m|].
        - left. exact (proj1 Hm).
        - right. cbv zeta in Hm. exact (proj1 Hm). }
      destruct (resolve_target_after db db2 snA sidA tsA homeA awayA _ omA
                  target held kmB Hnd HresA He eq_refl Hmap2 eq_refl)
        as (om'' & Hres2 & _).
      + intro Hom. destruct (HunA Hom) as (L1 & L2 & L3 & L4).
        destruct (resolve_target_inv _ _ _ _ _ _ _ _ _ HresA)
          as (_ & _ & [(m & e & Hm' & _) | (_ & _ & _ & _ & _ & Hk)]);
          [congruence|].
        unfold event_key_matches, held.
        cbn [new_event Event.event_timestamp Event.home_team_name
             Event.away_team_name Event.league_id].
        rewrite L1, L2, L3. cbn [option_eqb].
        rewrite Z.eqb_refl, !String.eqb_refl. cbn [andb].
        apply option_eqb_string_eq.
        destruct Hfull as (_ & _ & _ & _ & _ & _ & _ & _ & _ & Hl & _).
        rewrite <- (setattr_bound (dict_get (Normalized.league_id A)) _ Hl).
        exact L4.
      + rewrite (existing_target_rejected db2 A sA tsA homeA awayA snA sidA
                   incA om'' held incB HrA Hres2 HiB Hlt).
        exact He. }
  split; [exact Hab | exact Hba].
Qed.

(** ** The target does not exist yet *)

Lemma find_app_none {A : Type} (P : A -> bool) (l : list A) (x : A) :
  find P l = None -> P x = false -> find P (l ++ [x]) = None.
Proof.
  intros Hnone Hx. induction l as [|y l IH]; cbn in *.
  - rewrite Hx. reflexivity.
  - destruct (P y); [discriminate | apply IH; exact Hnone].
Qed.

Lemma monotonicity_fresh :
  forall (db : Database) (A B : Normalized.t) (sA sB : SourceData.t)
         (tsA tsB : datetime)
         (homeA awayA snA sidA homeB awayB snB sidB : string)
         (incA incB : Z),
    store_valid db ->
    reads A sA tsA homeA awayA snA sidA incA ->
    reads B sB tsB homeB awayB snB sidB incB ->
    query_mapping db snA sidA = None ->
    query_mapping db snB sidB = None ->
    query_event_by_key db tsA homeA awayA
      (dict_get (Normalized.league_id A)) = None ->
    query_event_by_key db tsB homeB awayB
      (dict_get (Normalized.league_id B)) = None ->
    incA < incB ->
    event_not_null (new_event (events_id_seq db) A snA) = true ->
    stored_as_is (new_event (events_id_seq db) A snA) ->
    fully_normalized B ->
    stored_as_is (new_event (events_id_seq db) B snB) ->
    source_stored_as_is snA sidA ->
    source_stored_as_is snB sidB ->
    id_fits (events_id_seq db) ->
    id_fits (S (event_source_mappings_id_seq db)) ->
    ((snA = snB /\ sidA = sidB)
     \/ (snA <> snB /\ tsA = tsB /\ homeA = homeB /\ awayA = awayB
         /\ dict_get (Normalized.league_id A)
            = dict_get (Normalized.league_id B))) ->
    let held := new_event (events_id_seq db) B snB in
    let a_then_b :=
      fst (save_or_update_event (fst (save_or_update_event db A sA)) B sB) in
    let b_then_a :=
      fst (save_or_update_event (fst (save_or_update_event db B sB)) A sA) in
    events a_then_b = events db ++ [held]
    /\ events b_then_a = events db ++ [held].
Proof.
  intros db A B sA sB tsA tsB homeA awayA snA sidA homeB awayB snB sidB
    incA incB Hv HrA HrB HqA HqB HkA HkB Hlt HnnA HplainA Hfull HplainB
    HsrcA HsrcB Hfe Hfm Hsame held a_then_b b_then_a.
  pose proof HrA as (HessA & HtsA & HhA & HaA & HsnA & HsidA & HiA).
  pose proof HrB as (HessB & HtsB & HhB & HaB & HsnB & HsidB & HiB).
  pose proof (store_valid_foreign_keys db Hv) as Hfk.
  pose proof (valid_event_ids db Hv) as Hids.
  pose proof (id_fits_le _ _ (Nat.le_succ_diag_r _) Hfm) as Hfm0.
  set (n := events_id_seq db) in *.
  set (EA := new_event n A snA) in *.
  pose proof (find_fresh_id db Hids) as Hfresh. fold n in Hfresh.
  assert (Hheld : find (fun e => Nat.eqb (Event.id e) n)
                    (events db ++ [held]) = Some held).
  { apply find_app_last; [exact Hfresh | apply Nat.eqb_refl]. }
  pose proof HsrcA as (NA1 & NA2 & _ & _).
  pose proof HsrcB as (NB1 & NB2 & _ & _).
  (* the strings of the two keys are bound *)
  destruct (event_binds_key EA homeA awayA (proj1 HplainA))
    as (NA3 & NA4 & NA5 & _); [cbn; exact HhA | cbn; exact HaA |].
  destruct (event_binds_key held homeB awayB (proj1 HplainB))
    as (NB3 & NB4 & NB5 & _); [cbn; exact HhB | cbn; exact HaB |].
  change (Event.league_id EA) with (dict_get (Normalized.league_id A))
    in NA5.
  change (Event.league_id held) with (dict_get (Normalized.league_id B))
    in NB5.
  assert (Hab : events a_then_b = events db ++ [held]).
  { subst a_then_b.
    pose proof (create_step db A sA tsA homeA awayA snA sidA incA HessA
                  HtsA HhA HaA HsnA HsidA HiA HnnA HplainA HsrcA Hfe Hfm0
                  HqA HkA Hfk) as EqA.
    fold n in EqA. fold EA in EqA.
    pose proof (store_valid_step db A sA Hv) as HvA.
    set (dbA := fst (save_or_update_event db A sA)) in *.
    set (mA := new_mapping db n snA sidA) in *.
    assert (HevA : events dbA = events db ++ [EA])
      by (unfold dbA; rewrite EqA; reflexivity).
    assert (HmapA : event_source_mappings dbA
                    = event_source_mappings db ++ [mA])
      by (unfold dbA; rewrite EqA; reflexivity).
    assert (HseqA : event_source_mappings_id_seq dbA
                    = S (event_source_mappings_id_seq db))
      by (unfold dbA; rewrite EqA; reflexivity).
    assert (HinA : In EA (events dbA))
      by (rewrite HevA; apply in_or_app; right; left; reflexivity).
    assert (HbyidA : find (fun e => Nat.eqb (Event.id e) n) (events dbA)
                     = Some EA).
    { rewrite HevA. apply find_app_last; [exact Hfresh | apply Nat.eqb_refl]. }
    assert (HresB : exists omB,
               resolve_target dbA snB sidB tsB homeB awayB
                 (dict_get (Normalized.league_id B)) = inr (omB, Some EA)
               /\ (omB = None ->
                   snA <> snB
                   /\ event_key_matches tsB homeB awayB
                        (dict_get (Normalized.league_id B)) EA = true)).
    { destruct Hsame as [[Es Ei] | (Hne & Et & Eh & Ea & El)].
      - exists (Some mA). split; [|discriminate].
        apply resolve_mapped; [exact NB1 | exact NB2 | |].
        + unfold query_mapping. rewrite HmapA.
          apply find_app_last; [exact HqB|].
          unfold mA. cbn. rewrite Es, Ei, !String.eqb_refl. reflexivity.
        + unfold mapping_event. exact HbyidA.
      - assert (Hmatch : event_key_matches tsB homeB awayB
                           (dict_get (Normalized.league_id B)) EA = true).
        { unfold event_key_matches, EA.
          cbn [new_event Event.event_timestamp Event.home_team_name
               Event.away_team_name Event.league_id].
          rewrite HtsA, HhA, HaA, Et, Eh, Ea, El. cbn [option_eqb].
          rewrite Z.eqb_refl, !String.eqb_refl. cbn [andb].
          apply option_eqb_string_eq. reflexivity. }
        exists None. split; [|intros _; split; assumption].
        rewrite (resolve_unmapped dbA snB sidB tsB homeB awayB
                   (dict_get (Normalized.league_id B))
                   NB1 NB2 NB3 NB4 NB5).
        + unfold query_event_by_key. rewrite HevA.
          rewrite (find_app_last _ (events db) EA HkB Hmatch). reflexivity.
        + unfold query_mapping. rewrite HmapA.
          apply find_app_none; [exact HqB|].
          unfold mA. cbn. apply andb_false_iff. left.
          apply String.eqb_neq. exact Hne. }
    destruct HresB as (omB & HresB & HomB).
    destruct (newer_observation_is_held dbA dbA B sB tsB homeB awayB snB
                sidB incB omB EA EA incA mA HvA HrB HresB Hfull HplainB)
      as (om' & _ & He & _);
      try assumption; try reflexivity.
    - rewrite HevA.
      apply (no_conflict_with_fresh db held EA tsB homeB awayB
               (dict_get (Normalized.league_id B)) HkB);
        [cbn; exact HtsB | cbn; exact HhB | cbn; exact HaB | reflexivity
        | reflexivity].
    - intros _. exact HsrcB.
    - symmetry. apply replace_event_same;
        [exact (valid_event_ids_distinct dbA HvA) | exact HinA].
    - left. reflexivity.
    - intro Hom. exact (proj2 (HomB Hom)).
    - intros Hom _. destruct (HomB Hom) as [Hne _].
      split; [exact Hfe|]. split; [rewrite HseqA; exact Hfm|].
      intros m Hm Hmid. rewrite HmapA in Hm.
      apply in_app_or in Hm. destruct Hm as [Hm | [<- | []]].
      + exfalso. apply Hfk in Hm. cbn in Hmid. fold n in Hm. lia.
      + exact Hne.
    - rewrite He, HevA.
      apply (replace_event_fresh db held EA Hids); reflexivity. }
  assert (Hba : events b_then_a = events db ++ [held]).
  { subst b_then_a.
    pose proof (create_step db B sB tsB homeB awayB snB sidB incB HessB
                  HtsB HhB HaB HsnB HsidB HiB
                  (new_event_not_null n B snB Hfull) HplainB HsrcB Hfe Hfm0
                  HqB HkB Hfk) as EqB.
    fold n in EqB. fold held in EqB.
    set (dbB := fst (save_or_update_event db B sB)) in *.
    set (mB := new_mapping db n snB sidB) in *.
    assert (HevB : events dbB = events db ++ [held])
      by (unfold dbB; rewrite EqB; reflexivity).
    assert (HmapB : event_source_mappings dbB
                    = event_source_mappings db ++ [mB])
      by (unfold dbB; rewrite EqB; reflexivity).
    assert (HresA : exists omA,
               resolve_target dbB snA sidA tsA homeA awayA
                 (dict_get (Normalized.league_id A))
               = inr (omA, Some held)).
    { destruct Hsame as [[Es Ei] | (Hne & Et & Eh & Ea & El)].
      - exists (Some mB).
        apply resolve_mapped; [exact NA1 | exact NA2 | |].
        + unfold query_mapping. rewrite HmapB.
          apply find_app_last; [exact HqA|].
          unfold mB. cbn. rewrite Es, Ei, !String.eqb_refl. reflexivity.
        + unfold mapping_event. rewrite HevB. exact Hheld.
      - exists None.
        rewrite (resolve_unmapped dbB snA sidA tsA homeA awayA
                   (dict_get (Normalized.league_id A))
                   NA1 NA2 NA3 NA4 NA5).
        + unfold query_event_by_key. rewrite HevB.
          rewrite (find_app_last _ (events db) held HkA); [reflexivity|].
          unfold event_key_matches, held.
          cbn [new_event Event.event_timestamp Event.home_team_name
               Event.away_team_name Event.league_id].
          rewrite HtsB, HhB, HaB, Et, Eh, Ea, El. cbn [option_eqb].
          rewrite Z.eqb_refl, !String.eqb_refl. cbn [andb].
          apply option_eqb_string_eq. reflexivity.
        + unfold query_mapping. rewrite HmapB.
          apply find_app_none; [exact HqA|].
          unfold mB. cbn. apply andb_false_iff. left.
          apply String.eqb_neq. intro E. apply Hne. symmetry. exact E. }
    destruct HresA as (omA & HresA).
    rewrite (existing_target_rejected dbB A sA tsA homeA awayA snA sidA incA
               omA held incB HrA HresA);
      [exact HevB | unfold held; cbn; exact HiB | exact Hlt]. }
  split; [exact Hab | exact Hba].
Qed.

(** C3, as amended.  Let A and B be two observations, of one provider
    or of two, A older than B; B is fully normalized and its values are
    stored by their columns as they are.

    The target exists: both observations resolve to one event of a store
    that satisfies its constraints, the event is older than B and no
    other event holds the dedup key of B.  When B is resolved by its key
    (its source has no mapping yet), its provider name and event id are
    stored as they are, its provider is not mapped to the event yet, the
    ids fit, A leaves the event under the key of B, and A, when it is
    unmapped too and of the same provider, carries the same event id;
    when A is resolved by its key, B leaves the event under the key of
    A.

    The target does not exist yet: the store knows neither the sources
    nor the keys of A and B; A carries the NOT NULL columns and is stored
    as it is, as are the two sources; the ids fit; A and B come from the
    same source, or from two providers with the same dedup key.

    Then applying A then B and applying B then A leave the same table of
    events, in which the target is the row made of the values of B and
    of the name of the provider of B, and [get_event_by_id] returns that
    row. *)
Theorem merge_monotonicity :
  (forall (db : Database) (A B : Normalized.t) (sA sB : SourceData.t)
          (tsA tsB : datetime)
          (homeA awayA snA sidA homeB awayB snB sidB : string)
          (incA incB : Z) (omA omB : option EventSourceMapping.t)
          (target : Event.t) (stored : Z),
      store_valid db ->
      reads A sA tsA homeA awayA snA sidA incA ->
      reads B sB tsB homeB awayB snB sidB incB ->
      resolve_target db snA sidA tsA homeA awayA
        (dict_get (Normalized.league_id A)) = inr (omA, Some target) ->
      resolve_target db snB sidB tsB homeB awayB
        (dict_get (Normalized.league_id B)) = inr (omB, Some target) ->
      Event.last_updated_timestamp target = Some stored ->
      incA < incB ->
      stored < incB ->
      fully_normalized B ->
      stored_as_is (new_event (Event.id target) B snB) ->
      existsb (conflicts_with_other (new_event (Event.id target) B snB))
        (events db) = false ->
      (omB = None ->
       source_stored_as_is snB sidB
       /\ id_fits (Event.id target)
       /\ id_fits (S (event_source_mappings_id_seq db))
       /\ (forall m, In m (event_source_mappings db) ->
                     EventSourceMapping.event_id m = Event.id target ->
                     EventSourceMapping.source_name m <> snB)
       /\ leaves_key A tsB homeB awayB (dict_get (Normalized.league_id B))
       /\ (omA = None -> clip 50 snA = snB -> clip 255 sidA = sidB)) ->
      (omA = None ->
       leaves_key B tsA homeA awayA (dict_get (Normalized.league_id A))) ->
      let held := new_event (Event.id target) B snB in
      let a_then_b :=
        fst (save_or_update_event (fst (save_or_update_event db A sA))
               B sB) in
      let b_then_a :=
        fst (save_or_update_event (fst (save_or_update_event db B sB))
               A sA) in
      events a_then_b = replace_event held (events db)
      /\ events b_then_a = replace_event held (events db)
      /\ get_event_by_id a_then_b (Event.id target) = Some held
      /\ get_event_by_id b_then_a (Event.id target) = Some held)
  /\ (forall (db : Database) (A B : Normalized.t) (sA sB : SourceData.t)
             (tsA tsB : datetime)
             (homeA awayA snA sidA homeB awayB snB sidB : string)
             (incA incB : Z),
         store_valid db ->
         reads A sA tsA homeA awayA snA sidA incA ->
         reads B sB tsB homeB awayB snB sidB incB ->
         query_mapping db snA sidA = None ->
         query_mapping db snB sidB = None ->
         query_event_by_key db tsA homeA awayA
           (dict_get (Normalized.league_id A)) = None ->
         query_event_by_key db tsB homeB awayB
           (dict_get (Normalized.league_id B)) = None ->
         incA < incB ->
         event_not_null (new_event (events_id_seq db) A snA) = true ->
         stored_as_is (new_event (events_id_seq db) A snA) ->
         fully_normalized B ->
         stored_as_is (new_event (events_id_seq db) B snB) ->
         source_stored_as_is snA sidA ->
         source_stored_as_is snB sidB ->
         id_fits (events_id_seq db) ->
         id_fits (S (event_source_mappings_id_seq db)) ->
         ((snA = snB /\ sidA = sidB)
          \/ (snA <> snB /\ tsA = tsB /\ homeA = homeB /\ awayA = awayB
              /\ dict_get (Normalized.league_id A)
                 = dict_get (Normalized.league_id B))) ->
         let held := new_event (events_id_seq db) B snB in
         let a_then_b :=
           fst (save_or_update_event (fst (save_or_update_event db A sA))
                  B sB) in
         let b_then_a :=
           fst (save_or_update_event (fst (save_or_update_event db B sB))
                  A sA) in
         events a_then_b = events db ++ [held]
         /\ events b_then_a = events db ++ [held]
         /\ get_event_by_id a_then_b (events_id_seq db) = Some held
         /\ get_event_by_id b_then_a (events_id_seq db) = Some held).
Proof.
  split.
  - intros db A B sA sB tsA tsB homeA awayA snA sidA homeB awayB snB sidB
      incA incB omA omB target stored Hv HrA HrB HresA HresB Hstored Hlt
      Hnew Hfull Hplain Hfree HunB HunA held a_then_b b_then_a.
    destruct (monotonicity_existing db A B sA sB tsA tsB homeA awayA snA
                sidA homeB awayB snB sidB incA incB omA omB target stored
                Hv HrA HrB HresA HresB Hstored Hlt Hnew Hfull Hplain Hfree
                HunB HunA) as [Hab Hba].
    fold held a_then_b in Hab. fold held b_then_a in Hba.
    split; [exact Hab|]. split; [exact Hba|].
    assert (Hheld : find (fun e => Nat.eqb (Event.id e) (Event.id target))
                      (replace_event held (events db)) = Some held).
    { apply (find_replace_event _ held target); [|reflexivity].
      apply find_by_id_nodup.
      - exact (valid_event_ids_distinct db Hv).
      - exact (resolve_target_in _ _ _ _ _ _ _ _ _ HresB). }
    unfold get_event_by_id. rewrite Hab, Hba. split; exact Hheld.
  - intros db A B sA sB tsA tsB homeA awayA snA sidA homeB awayB snB sidB
      incA incB Hv HrA HrB HqA HqB HkA HkB Hlt HnnA HplainA Hfull HplainB
      HsrcA HsrcB Hfe Hfm Hsame held a_then_b b_then_a.
    destruct (monotonicity_fresh db A B sA sB tsA tsB homeA awayA snA sidA
                homeB awayB snB sidB incA incB Hv HrA HrB HqA HqB HkA HkB
                Hlt HnnA HplainA Hfull HplainB HsrcA HsrcB Hfe Hfm Hsame)
      as [Hab Hba].
    fold held a_then_b in Hab. fold held b_then_a in Hba.
    split; [exact Hab|]. split; [exact Hba|].
    assert (Hheld : find (fun e => Nat.eqb (Event.id e) (events_id_seq db))
                      (events db ++ [held]) = Some held).
    { apply find_app_last; [|apply Nat.eqb_refl].
      apply find_fresh_id. exact (valid_event_ids db Hv). }
    unfold get_event_by_id. rewrite Hab, Hba. split; exact Hheld.
Qed.

Lemma merge_monotonicity_witness :
  let sofascore := Examples.source "sofascore" "1" in
  let thesportsdb := Examples.source "thesportsdb" "77" in
  let held := new_event 1 Examples.later_report "thesportsdb" in
  let a_then_b (db : Database) (A : Normalized.t) :=
    fst (save_or_update_event (fst (save_or_update_event db A sofascore))
           Examples.later_report thesportsdb) in
  let b_then_a (db : Database) (A : Normalized.t) :=
    fst (save_or_update_event
           (fst (save_or_update_event db Examples.later_report thesportsdb))
           A sofascore) in
  (events (a_then_b Examples.one_match Examples.middle_report) = [held]
   /\ events (b_then_a Examples.one_match Examples.middle_report) = [held]
   /\ get_event_by_id (a_then_b Examples.one_match Examples.middle_report) 1
      = Some held
   /\ get_event_by_id (b_then_a Examples.one_match Examples.middle_report) 1
      = Some held)
  /\ (events (a_then_b empty_database Examples.first_report) = [held]
      /\ events (b_then_a empty_database Examples.first_report) = [held]
      /\ get_event_by_id (a_then_b empty_database Examples.first_report) 1
         = Some held
      /\ get_event_by_id (b_then_a empty_database Examples.first_report) 1
         = Some held).
Proof.
  cbv zeta. split.
  - refine (proj1 merge_monotonicity Examples.one_match
              Examples.middle_report Examples.later_report
              (Examples.source "sofascore" "1")
              (Examples.source "thesportsdb" "77")
              Examples.kickoff Examples.kickoff
              "A"%string "B"%string "sofascore"%string "1"%string
              "A"%string "B"%string "thesportsdb"%string "77"%string
              150 200 (Some Examples.sofascore_1) None
              Examples.stored_match 100
              (store_valid_step empty_database Examples.first_report
                 (Examples.source "sofascore" "1") store_valid_empty)
              _ _ eq_refl eq_refl eq_refl eq_refl eq_refl
              later_report_fully_normalized _ eq_refl _ _).
    + repeat split; reflexivity.
    + repeat split; reflexivity.
    + repeat split; reflexivity.
    + intros _. split; [repeat split; reflexivity|].
      split; [reflexivity|]. split; [reflexivity|].
      split; [intros m [<- | []] _; discriminate|].
      split; [repeat split; reflexivity | discriminate].
    + discriminate.
  - refine (proj2 merge_monotonicity empty_database
              Examples.first_report Examples.later_report
              (Examples.source "sofascore" "1")
              (Examples.source "thesportsdb" "77")
              Examples.kickoff Examples.kickoff
              "A"%string "B"%string "sofascore"%string "1"%string
              "A"%string "B"%string "thesportsdb"%string "77"%string
              100 200 store_valid_empty
              _ _ eq_refl eq_refl eq_refl eq_refl eq_refl eq_refl _
              later_report_fully_normalized _ _ _ eq_refl eq_refl _).
    + repeat split; reflexivity.
    + repeat split; reflexivity.
    + repeat split; reflexivity.
    + repeat split; reflexivity.
    + repeat split; reflexivity.
    + repeat split; reflexivity.
    + right. split; [discriminate|]. repeat split; reflexivity.
Defined.

(** The scenario of two providers: the match is reported by sofascore at
    time 100 and by thesportsdb at time 200.  In either order one event is
    left, it carries the fields and the name of the provider of time 200,
    and two mappings point to it. *)
Lemma two_providers_one_event :
  let A := (Examples.first_report, Examples.source "sofascore" "1") in
  let B := (Examples.later_report, Examples.source "thesportsdb" "77") in
  let a_then_b := save_or_update_events empty_database [A; B] in
  let b_then_a := save_or_update_events empty_database [B; A] in
  events a_then_b = [new_event 1 Examples.later_report "thesportsdb"]
  /\ events b_then_a = events a_then_b
  /\ map EventSourceMapping.event_id (event_source_mappings a_then_b)
     = [1%nat; 1%nat]
  /\ map EventSourceMapping.event_id (event_source_mappings b_then_a)
     = [1%nat; 1%nat]
  /\ map EventSourceMapping.source_name (event_source_mappings a_then_b)
     = ["sofascore"%string; "thesportsdb"%string]
  /\ map EventSourceMapping.source_name (event_source_mappings b_then_a)
     = ["thesportsdb"%string; "sofascore"%string].
Proof. cbv zeta. repeat split. Qed.

(** C3 as stated fails: the store holds the match as a report of time
    300 left it; the reports A of time 100 and B of time 200 of the same
    provider event are both turned down, in either order, and the store
    does not hold the fields of B. *)
Lemma stale_pair_leaves_store :
  let A := Examples.first_report in
  let B := Examples.later_report in
  let s := Examples.source "sofascore" "1" in
  let db := Examples.finished_match in
  mapping_event db Examples.sofascore_1
  = Some (new_event 1 Examples.newest_report "sofascore")
  /\ fst (save_or_update_event (fst (save_or_update_event db A s)) B s) = db
  /\ fst (save_or_update_event (fst (save_or_update_event db B s)) A s) = db
  /\ events db <> [new_event 1 B "sofascore"].
Proof.
  cbv zeta. split; [reflexivity|]. split; [reflexivity|].
  split; [reflexivity|]. discriminate.
Qed.

(** What the other conditions are for.  A newer report that lacks keys
    leaves in place what the older one wrote under them: here the names,
    which A had changed. *)
Lemma partial_report_keeps_older_fields :
  let s := Examples.source "sofascore" "1" in
  let A :=
    Examples.observation Examples.kickoff "A" "C" (Value "10"%string) 150
      "inprogress" (Value 5) 0 0 in
  let B := Examples.report_without_names in
  map Event.event_name
    (events (fst (save_or_update_event
                    (fst (save_or_update_event Examples.one_match A s))
                    B s)))
  = [Some "A vs C"%string]
  /\ map Event.event_name
       (events (fst (save_or_update_event
                       (fst (save_or_update_event Examples.one_match B s))
                       A s)))
     = [Some "A vs B"%string].
Proof. split; reflexivity. Qed.

(** An older report of a mapped source that moves the kick-off takes the
    event away from the key by which the newer report of another
    provider looks it up: the newer report then creates a second
    event. *)
Lemma moved_key_splits_the_target :
  let sofascore := Examples.source "sofascore" "1" in
  let thesportsdb := Examples.source "thesportsdb" "77" in
  let A :=
    Examples.observation Examples.moved_kickoff "A" "B" (Value "10"%string)
      150 "scheduled" (Value 0) 0 0 in
  let B := Examples.later_report in
  map Event.id
    (events (fst (save_or_update_event
                    (fst (save_or_update_event Examples.one_match A
                            sofascore))
                    B thesportsdb)))
  = [1%nat; 2%nat]
  /\ map Event.id
       (events (fst (save_or_update_event
                       (fst (save_or_update_event Examples.one_match B
                               thesportsdb))
                       A sofascore)))
     = [1%nat].
Proof. split; reflexivity. Qed.

(** A newer report whose values the columns refuse is not stored in
    either order. *)
Lemma newer_report_out_of_range :
  let s := Examples.source "sofascore" "1" in
  let A := Examples.middle_report in
  let B := Examples.report_out_of_range in
  events (fst (save_or_update_event
                 (fst (save_or_update_event Examples.one_match A s)) B s))
  = [new_event 1 A "sofascore"]
  /\ events (fst (save_or_update_event
                    (fst (save_or_update_event Examples.one_match B s))
                    A s))
     = [new_event 1 A "sofascore"].
Proof. split; reflexivity. Qed.

End MergeMonotonicity.
